(** * WineCharm: process registry, liveness prober, launch supervisor,
    single-instance gateway and termination controller

  A shallow embedding of the process-lifecycle code of
  [winecharm_49_search_esc_good.py] (class [WineCharmApp] and [main]).
  The Python dictionary [self.running_processes] is a [gmap] from the
  descriptor stem to a run record; operating-system calls act on an
  explicit process table; the rows of the flow box are trees of
  widgets; exceptions are results of an error-and-state monad;
  everything the code prints, signals, spawns or schedules is appended
  to a chronological log. Text is kept as its UTF-8 bytes. *)

From stdpp Require Import gmap strings list.
From Stdlib Require Import ZArith Ascii String.

Local Open Scope Z_scope.

(** ** Python string methods used by the source *)

Module PyStr.

(** [c.lower()] on one ASCII character. *)
Definition lower_ascii (c : ascii) : ascii :=
  let n := nat_of_ascii c in
  if (Nat.leb 65 n && Nat.leb n 90)%bool then ascii_of_nat (n + 32) else c.

(** [s.lower()] on ASCII text. Python lowers letters outside ASCII too,
    some of them by their neighbours; on such text this function is not
    [str.lower], and nothing below that speaks of text typed or named
    by a user relies on it there. *)
Fixpoint lower (s : string) : string :=
  match s with
  | EmptyString => EmptyString
  | String c s' => String (lower_ascii c) (lower s')
  end.

(** [needle in hay]. *)
Fixpoint contains (needle hay : string) : bool :=
  String.prefix needle hay ||
  match hay with
  | EmptyString => false
  | String _ hay' => contains needle hay'
  end.

(** [s[:n]]. *)
Fixpoint take (n : nat) (s : string) : string :=
  match n, s with
  | S n', String c s' => String c (take n' s')
  | _, _ => EmptyString
  end.

(** [s.split(sep)] for a non-empty separator: [skip] counts the
    characters of a separator occurrence still to be passed over,
    [cur] is the field read so far. *)
Fixpoint split_go (sep : string) (skip : nat) (cur : string) (s : string)
  : list string :=
  match s with
  | EmptyString => [cur]
  | String c s' =>
      match skip with
      | S k => split_go sep k cur s'
      | O =>
          if String.prefix sep s
          then cur :: split_go sep (String.length sep - 1) EmptyString s'
          else split_go sep 0 (cur +:+ String c EmptyString) s'
      end
  end.

Definition split (sep s : string) : list string := split_go sep 0 "" s.

(** [sep.join(parts)]. *)
Fixpoint join (sep : string) (parts : list string) : string :=
  match parts with
  | [] => ""
  | [p] => p
  | p :: rest => p +:+ sep +:+ join sep rest
  end.

(** [s.rfind(".")]: index of the last dot. *)
Fixpoint rfind_dot_go (i : nat) (found : option nat) (s : string) : option nat :=
  match s with
  | EmptyString => found
  | String c s' =>
      rfind_dot_go (S i) (if Ascii.eqb c "." then Some i else found) s'
  end.

Definition rfind_dot (s : string) : option nat := rfind_dot_go 0 None s.

End PyStr.

(** ** [pathlib] operations used by the source, on paths kept as strings *)

Module Pathlib.

(** [Path(p).name]: the last non-empty component. *)
Definition name (p : string) : string :=
  List.last (List.filter (λ c, negb (String.eqb c "")) (PyStr.split "/" p)) "".

(** [Path(p).stem]: the name without its last suffix; a leading or a
    trailing dot is no suffix. *)
Definition stem (p : string) : string :=
  let n := name p in
  match PyStr.rfind_dot n with
  | Some i =>
      if (Nat.ltb 0 i && Nat.ltb i (String.length n - 1))%bool
      then PyStr.take i n else n
  | None => n
  end.

(** [str(Path(p).parent)] for an absolute path. *)
Definition parent (p : string) : string :=
  let d := PyStr.join "/" (List.removelast (PyStr.split "/" p)) in
  if String.eqb d "" then "/" else d.

(** [str(Path(base) / rel)]: an absolute [rel] replaces [base], an empty
    one leaves it. *)
Definition joinpath (base rel : string) : string :=
  if String.eqb rel "" then base
  else if String.prefix "/" rel then rel
  else if String.eqb base "/" then base +:+ rel
  else base +:+ "/" +:+ rel.

End Pathlib.

(** ** Exceptions and outcomes *)

(** The Python exceptions that the modelled calls raise. *)
Inductive exn :=
| CalledProcessError      (* subprocess.check_output: non-zero exit status *)
| FileNotFoundError       (* the command or the file is not there *)
| PermissionError
| ProcessLookupError
| ValueError
| UnicodeDecodeError      (* bytes.decode(): a ValueError *)
| TypeError
| AttributeError
| KeyError
| OSError                 (* any other failure of a system call *)
| ConnectionRefusedError
| BrokenPipeError.

Inductive outcome (A : Type) :=
| Ret (a : A)
| Raise (e : exn).

Arguments Ret {A} a.
Arguments Raise {A} e.

Global Instance exn_eq_dec : EqDecision exn.
Proof. solve_decision. Defined.

(** [isinstance(e, cls)] for the handlers of [except] clauses; the
    errors of system calls are subclasses of [OSError]. *)
Definition is_a (cls e : exn) : bool :=
  match cls, e with
  | CalledProcessError, CalledProcessError
  | FileNotFoundError, FileNotFoundError
  | PermissionError, PermissionError
  | ProcessLookupError, ProcessLookupError
  | ValueError, ValueError
  | ValueError, UnicodeDecodeError
  | UnicodeDecodeError, UnicodeDecodeError
  | TypeError, TypeError
  | AttributeError, AttributeError
  | KeyError, KeyError
  | OSError, OSError
  | OSError, FileNotFoundError
  | OSError, PermissionError
  | OSError, ProcessLookupError
  | OSError, ConnectionRefusedError
  | OSError, BrokenPipeError
  | ConnectionRefusedError, ConnectionRefusedError
  | BrokenPipeError, BrokenPipeError => true
  | _, _ => false
  end.

(** ** The operating system's process table *)

Module OS.

Inductive signal := SIG0 | SIGKILL.

Global Instance signal_eq_dec : EqDecision signal.
Proof. solve_decision. Defined.

(** One row of the process table. [owned] tells whether the supervisor
    is allowed to signal the process; [comm] is the process name and
    [cmdline] the full command line. *)
Record process := {
  pid : Z;
  pgid : Z;
  owned : bool;
  comm : string;
  cmdline : string
}.

(** The text a pattern of literal characters stands for: a backslash
    quotes the character after it. *)
Fixpoint literal (pattern : string) : string :=
  match pattern with
  | EmptyString => EmptyString
  | String c rest =>
      if Ascii.eqb c "\"
      then match rest with
           | EmptyString => EmptyString
           | String d rest' => String d (literal rest')
           end
      else String c (literal rest)
  end.

(** [pgrep -i]: the pattern occurs in the text, letter case ignored.
    Patterns are taken as literal text. *)
Definition matches (pattern text : string) : bool :=
  PyStr.contains (PyStr.lower (literal pattern)) (PyStr.lower text).

(** [subprocess.check_output(["pgrep", "-aif", pattern]).decode().splitlines()]
    when [full], and the same with ["-ai"] otherwise. A line [PID CMDLINE]
    is kept as a pair, so [int(line.split()[0])] is its first component.
    pgrep exits with status 1 when nothing matches, which [check_output]
    turns into [CalledProcessError]; a missing pgrep is
    [FileNotFoundError]. *)
Definition pgrep (installed full : bool) (pattern : string) (table : list process)
  : outcome (list (Z * string)) :=
  if installed then
    match List.filter (λ p, matches pattern (if full then cmdline p else comm p)) table with
    | [] => Raise CalledProcessError
    | hits => Ret (List.map (λ p, (pid p, cmdline p)) hits)
    end
  else Raise FileNotFoundError.

(** [os.kill(target, sig)]. A killed process leaves the table at once. *)
Definition kill (target : Z) (sig : signal) (table : list process)
  : outcome unit * list process :=
  match List.find (λ p, Z.eqb (pid p) target) table with
  | None => (Raise ProcessLookupError, table)
  | Some p =>
      if owned p then
        (Ret (),
         match sig with
         | SIG0 => table
         | SIGKILL => List.filter (λ q, negb (Z.eqb (pid q) target)) table
         end)
      else (Raise PermissionError, table)
  end.

(** [os.killpg(group, sig)]: every member the caller may signal gets the
    signal; the call fails only when the group is empty or no member may
    be signalled. *)
Definition killpg (group : Z) (sig : signal) (table : list process)
  : outcome unit * list process :=
  match List.filter (λ p, Z.eqb (pgid p) group) table with
  | [] => (Raise ProcessLookupError, table)
  | members =>
      if List.existsb owned members then
        (Ret (),
         match sig with
         | SIG0 => table
         | SIGKILL =>
             List.filter (λ q, negb (Z.eqb (pgid q) group && owned q)) table
         end)
      else (Raise PermissionError, table)
  end.

(** [os.getpgid(p)]. *)
Definition getpgid (target : Z) (table : list process) : outcome Z :=
  match List.find (λ p, Z.eqb (pid p) target) table with
  | None => Raise ProcessLookupError
  | Some p => Ret (pgid p)
  end.

(** A process identifier that is not in use. *)
Definition fresh_pid (table : list process) : Z :=
  1 + List.fold_right (λ p m, Z.max (pid p) m) 1 table.

End OS.

(** ** The widgets of the flow box *)

(** [s.replace(old, new)] for one-character [old] and [new]. *)
Fixpoint replace_char (old new : ascii) (s : string) : string :=
  match s with
  | EmptyString => EmptyString
  | String c s' => String (if Ascii.eqb c old then new else c) (replace_char old new s')
  end.

Module Gtk.

(** The widgets the code builds, as trees. A [Gtk.Button] and a
    [Gtk.FlowBoxChild] hold one child at most ([set_child]); a [Gtk.Box]
    holds the widgets appended to it, in order. *)
#[warnings="-register-all"] Inductive widget :=
| Box (children : list widget)
| Button (child : option widget)
| FlowBoxChild (child : option widget)
| Image
| CheckButton
| Label (text : string).

(** The children of a widget, first child first: [w.get_first_child()]
    is the head of the list and [get_next_sibling()] of a child is the
    child after it; [None] is the missing element. *)
Definition children (w : widget) : list widget :=
  match w with
  | Box children => children
  | Button (Some child) | FlowBoxChild (Some child) => [child]
  | _ => []
  end.

(** [w.get_text()]: only a label has the method. *)
Definition get_text (w : widget) : outcome string :=
  match w with
  | Label text => Ret text
  | _ => Raise AttributeError
  end.

(** [w.get_first_child()]. *)
Definition get_first_child (w : widget) : option widget := List.head (children w).

(** [w.get_first_child().get_next_sibling()]; the second call raises
    [AttributeError] when the first returns [None]. *)
Definition sibling_of_first_child (w : widget) : outcome (option widget) :=
  match children w with
  | [] => Raise AttributeError
  | _ :: siblings => Ret (List.head siblings)
  end.

(** Whether the widget has the method [set_child]: a box, an image and a
    label have not. *)
Definition has_set_child (w : widget) : bool :=
  match w with
  | Button _ | FlowBoxChild _ | CheckButton => true
  | _ => false
  end.

End Gtk.

(** The text of the label that [create_script_button] gives the row of a
    script: [script.stem.replace("_", " ")]. *)
Definition label_text (script : string) : string :=
  replace_char "_" " " (Pathlib.stem script).

(** The [button] that [create_script_button] builds for a script and
    hands to [show_options_for_script]. *)
Definition script_button (script : string) : Gtk.widget :=
  Gtk.Button (Some (Gtk.Box [Gtk.Image; Gtk.Label (label_text script)])).

(** [create_script_button(script)]: the row it returns. *)
Definition create_script_button (script : string) : Gtk.widget :=
  Gtk.FlowBoxChild (Some (script_button script)).

(** The button that [show_initializing_step(step)] builds, and the row
    that it appends: the flow box wraps the button in a
    [Gtk.FlowBoxChild]. *)
Definition step_button (step : string) : Gtk.widget :=
  Gtk.Button (Some (Gtk.Box [Gtk.CheckButton; Gtk.Label step])).

Definition show_initializing_step (step : string) : Gtk.widget :=
  Gtk.FlowBoxChild (Some (step_button step)).

(** [child.get_first_child().get_first_child().get_next_sibling()] for a
    row [child] of the flow box; a call on [None] raises
    [AttributeError]. *)
Definition script_label_of (child : Gtk.widget) : outcome (option Gtk.widget) :=
  match Gtk.get_first_child child with
  | None => Raise AttributeError
  | Some first => Gtk.sibling_of_first_child first
  end.

(** [find_button_by_script_stem(script_stem)] on the rows of the flow
    box, first row first: the first row whose [script_label] is there and
    reads, blanks replaced, as the stem. *)
Fixpoint find_button_by_script_stem (flowbox_children : list Gtk.widget)
    (script_stem : string) : outcome (option Gtk.widget) :=
  match flowbox_children with
  | [] => Ret None
  | child :: rest =>
      match script_label_of child with
      | Raise e => Raise e
      | Ret None => find_button_by_script_stem rest script_stem
      | Ret (Some script_label) =>
          match Gtk.get_text script_label with
          | Raise e => Raise e
          | Ret text =>
              if String.eqb (replace_char " " "_" text) script_stem
              then Ret (Some child)
              else find_button_by_script_stem rest script_stem
          end
      end
  end.

(** ** Data model *)

Definition appname : string := "WineCharm".

(** What [extract_yaml_info] reads from a [.charm] file. *)
Record descriptor := {
  exe_file : string;
  wineprefix : string;
  progname : string;
  script_args : string
}.

(** A value of [self.running_processes]. [proc] is the [Popen] handle,
    kept as the child's process identifier; a record made by probing has
    [None] for [proc], [pid] and [pgid]. The widgets of the record
    ([play_button], [play_icon], [options_button], [gear_icon]) belong to
    the presentation layer and are left out. *)
Record RunRecord := {
  proc : option Z;
  pid : option Z;
  pgid : option Z;
  script : option string
}.

(** What the code finds around it and does not change. *)
Record env := {
  pgrep_installed : bool;                       (* pgrep can be started *)
  (* find_python_scripts(), each script with what extract_yaml_info
     gives on it: the fields of its YAML, or the exception raised for a
     file that holds no mapping or cannot be read *)
  charm_files : list (string * outcome descriptor);
  path_exists : string → bool;                  (* Path(p).exists() *)
  path_glob : string → string → list string;    (* list(Path(d).glob(pattern)) *)
  (* the rows of self.flowbox: what each Gtk.FlowBoxChild holds *)
  flowbox : list (option Gtk.widget);
  popen_ok : bool;                              (* subprocess.Popen succeeds *)
  socket_file_exists : bool;                    (* SOCKET_FILE.exists() *)
  connect_result : outcome unit;                (* client.connect(str(SOCKET_FILE)) *)
  sendall_result : outcome unit                 (* client.sendall(...) *)
}.

(** The rows of the flow box, first row first. *)
Definition flowbox_rows (E : env) : list Gtk.widget :=
  List.map Gtk.FlowBoxChild (flowbox E).

(** A piece of a printed line: literal text, a path or name, a process
    identifier, an exception. *)
Inductive piece :=
| Txt (s : string)
| Num (n : Z)
| Exc (e : exn).

(** Calls handed to [GLib.idle_add], run later by the main loop. *)
Inductive idle_task :=
| process_ended_task (script_stem : string)
| create_scripts_for_lnk_files_task (prefix : string)
| update_related_scripts_buttons_task (prefix : string)
| process_cli_file_task (file_path : string).

(** Calls into the presentation layer. *)
Inductive ui_action :=
| show_exe_not_found_dialog (exe_name exe_file script : string)
| reset_buttons (script : string)
| set_play_stop_icon (icon tooltip : string)
| mark_running (script_stem : string)
| mark_stopped (script_stem : string)
| create_script_list
| set_command_line_file (file : string)
| app_run.

(** Calls on the rendezvous socket and its file. *)
Inductive socket_action :=
| socket_unlink
| socket_bind
| socket_listen
| socket_connect (result : outcome unit)
| socket_sendall (message : string) (result : outcome unit)
| start_socket_server.

Inductive event :=
| EvPrint (line : list piece)
| EvPgrep (full : bool) (pattern : string)
| EvKill (target : Z) (sig : OS.signal) (result : outcome unit)
| EvKillpg (group : Z) (sig : OS.signal) (result : outcome unit)
| EvPopen (command : string) (result : outcome Z)
| EvThread (child : Z) (script_stem prefix : string)
| EvSocket (action : socket_action)
| EvIdleAdd (task : idle_task)
| EvUi (action : ui_action)
| EvSleep (seconds : Z).

(** The state the owner thread works on. *)
Record state := {
  running_processes : gmap string RunRecord;
  procs : list OS.process;
  log : list event
}.

(** ** State and exceptions *)

Definition M (A : Type) : Type := state → outcome A * state.

Definition ret {A} (a : A) : M A := λ st, (Ret a, st).

Definition raise {A} (e : exn) : M A := λ st, (Raise e, st).

Definition bind {A B} (c : M A) (k : A → M B) : M B :=
  λ st, match c st with
        | (Ret a, st') => k a st'
        | (Raise e, st') => (Raise e, st')
        end.

(** [try: c except <handled>: h]. *)
Definition try_except {A} (c : M A) (handled : exn → bool) (h : exn → M A) : M A :=
  λ st, match c st with
        | (Ret a, st') => (Ret a, st')
        | (Raise e, st') => if handled e then h e st' else (Raise e, st')
        end.

Global Instance M_ret : MRet M := @ret.

Global Instance M_bind : MBind M := λ A B k c, bind c k.

Definition emit (e : event) : M unit :=
  λ st, (Ret (), {| running_processes := running_processes st;
                    procs := procs st;
                    log := log st ++ [e] |}).

Definition print (line : list piece) : M unit := emit (EvPrint line).

Definition ui (a : ui_action) : M unit := emit (EvUi a).

(** [k in self.running_processes]. *)
Definition registry_contains (k : string) : M bool :=
  λ st, (Ret (bool_decide (is_Some (running_processes st !! k))), st).

(** [self.running_processes.get(k)]. *)
Definition registry_get (k : string) : M (option RunRecord) :=
  λ st, (Ret (running_processes st !! k), st).

(** [list(self.running_processes.keys())]; the keys come in the order of
    the map, not in the order of insertion. *)
Definition registry_keys : M (list string) :=
  λ st, (Ret (List.map fst (map_to_list (running_processes st))), st).

(** [self.running_processes[k] = r]. *)
Definition registry_insert (k : string) (r : RunRecord) : M unit :=
  λ st, (Ret (), {| running_processes := <[k := r]> (running_processes st);
                    procs := procs st; log := log st |}).

(** [self.running_processes.pop(k, None)]. *)
Definition registry_pop (k : string) : M (option RunRecord) :=
  λ st, (Ret (running_processes st !! k),
         {| running_processes := delete k (running_processes st);
            procs := procs st; log := log st |}).

(** [self.running_processes.clear()]. *)
Definition registry_clear : M unit :=
  λ st, (Ret (), {| running_processes := ∅; procs := procs st; log := log st |}).

Definition get_procs : M (list OS.process) := λ st, (Ret (procs st), st).

Definition lift_outcome {A} (r : outcome A) : M A := λ st, (r, st).

(** [subprocess.check_output(["pgrep", ...])]. *)
Definition check_output_pgrep (E : env) (full : bool) (pattern : string)
  : M (list (Z * string)) :=
  emit (EvPgrep full pattern);;
  ((λ st, (OS.pgrep (pgrep_installed E) full pattern (procs st), st)) : M _).

(** [os.kill(target, sig)]. *)
Definition os_kill (target : Z) (sig : OS.signal) : M unit :=
  λ st, let '(r, table) := OS.kill target sig (procs st) in
        (r, {| running_processes := running_processes st;
               procs := table;
               log := log st ++ [EvKill target sig r] |}).

(** [os.killpg(group, sig)]. *)
Definition os_killpg (group : Z) (sig : OS.signal) : M unit :=
  λ st, let '(r, table) := OS.killpg group sig (procs st) in
        (r, {| running_processes := running_processes st;
               procs := table;
               log := log st ++ [EvKillpg group sig r] |}).

(** ** [on_kill_all_clicked] *)

(** The loop [for pid in pids] with its two handlers. *)
Fixpoint kill_all_loop (pids : list Z) : M unit :=
  match pids with
  | [] => ret ()
  | pid :: rest =>
      try_except
        (os_kill pid OS.SIGKILL;;
         print [Txt "Terminated process with PID: "; Num pid])
        (λ e, is_a ProcessLookupError e || is_a PermissionError e)
        (λ e, if is_a ProcessLookupError e
              then print [Txt "Process with PID "; Num pid; Txt " not found"]
              else print [Txt "Permission denied to kill PID: "; Num pid]);;
      kill_all_loop rest
  end.

(** The list [pids] before it is reversed: the loop over
    [wine_exe_lines]. *)
Definition kill_all_candidates (winecharm_pids : list Z) (wine_exe_lines : list (Z * string))
  : list Z :=
  List.filter (λ pid, negb (Z.eqb pid 1) && negb (bool_decide (pid ∈ winecharm_pids)))
              (List.map fst wine_exe_lines).

Definition on_kill_all_clicked (E : env) : M unit :=
  try_except
    (winecharm_pid_lines ← check_output_pgrep E true appname;
     let winecharm_pids := List.map fst winecharm_pid_lines in
     try_except
       (wine_exe_lines ← check_output_pgrep E true "\.exe";
        let pids := List.rev (kill_all_candidates winecharm_pids wine_exe_lines) in
        kill_all_loop pids)
       (is_a CalledProcessError)
       (λ _, print [Txt "No matching Wine exe processes found."]))
    (is_a CalledProcessError)
    (λ e, print [Txt "Error retrieving process list: "; Exc e]);;
  registry_clear;;
  print [Txt "All Wine exe processes killed except PID 1 and WineCharm processes"];;
  ui create_script_list.

(** ** Reading descriptors *)

(** What [extract_yaml_info] gives on a [.charm] file that
    [find_python_scripts] lists, if the file is listed. *)
Definition charm_file (E : env) (script : string) : option (outcome descriptor) :=
  snd <$> List.find (λ f, String.eqb (fst f) script) (charm_files E).

(** [extract_yaml_info(script)]: the four fields of the [.charm] file;
    [FileNotFoundError] when the file is not there, and for a file that
    is there whatever reading its YAML raises ([AttributeError] for an
    empty file, on which [yaml.safe_load] gives [None]). *)
Definition extract_yaml_info (E : env) (script : string) : M descriptor :=
  match charm_file E script with
  | Some read => lift_outcome read
  | None => raise FileNotFoundError
  end.

(** [Path(exe_file).stem[:15]], the pattern the termination and re-scan
    paths hand to pgrep. *)
Definition exe_name_upto_fifteen_chars (d : descriptor) : string :=
  PyStr.take 15 (Pathlib.stem (exe_file d)).

(** The record that the re-scan and the scan at startup would write for
    a process found by probing. *)
Definition probed_record (script : string) : RunRecord :=
  {| proc := None; pid := None; pgid := None; script := Some script |}.

(** ** [update_related_scripts_buttons] *)

(** [play_button = button.get_first_child().get_next_sibling()] and
    [play_button.set_child(play_icon)], for a row [button] that
    [find_button_by_script_stem] returned: the call of [set_child] raises
    [AttributeError] when [play_button] is [None] or a widget without
    the method. *)
Definition set_play_button_child (button : Gtk.widget) : M unit :=
  play_button ← lift_outcome (Gtk.sibling_of_first_child button);
  match play_button with
  | Some play_button =>
      if Gtk.has_set_child play_button then ret () else raise AttributeError
  | None => raise AttributeError
  end.

(** The body of the loop for one script. [extract_yaml_info] is called
    before the [try], which catches [CalledProcessError] only. *)
Definition update_related_script (E : env) (prefix : string) (script : string) : M unit :=
  d ← extract_yaml_info E script;
  if String.eqb (wineprefix d) prefix then
    try_except
      (pgrep_output ← check_output_pgrep E false (exe_name_upto_fifteen_chars d);
       match pgrep_output with
       | [] => ret ()
       | _ =>
           button ← lift_outcome
                      (find_button_by_script_stem (flowbox_rows E) (Pathlib.stem script));
           match button with
           | Some button =>
               set_play_button_child button;;
               registry_insert (Pathlib.stem script) (probed_record script)
           | None => ret ()
           end
       end)
      (is_a CalledProcessError)
      (λ _, ret ())
  else ret ().

(** The loop over [find_python_scripts()]. *)
Fixpoint update_related_scripts_loop (E : env) (prefix : string)
    (scripts : list string) : M unit :=
  match scripts with
  | [] => ret ()
  | script :: rest =>
      update_related_script E prefix script;;
      update_related_scripts_loop E prefix rest
  end.

Definition update_related_scripts_buttons (E : env) (prefix : string) : M unit :=
  update_related_scripts_loop E prefix (List.map fst (charm_files E)).

(** ** [monitor_processes] *)

(** [proc.poll() is not None]: the child is no longer in the table. *)
Definition poll_finished (child : Z) (table : list OS.process) : bool :=
  negb (List.existsb (λ p, Z.eqb (OS.pid p) child) table).

(** The pattern handed to pgrep by the prober:
    [process_info.get("script").stem[:15]]. *)
Definition probe_pattern (script : string) : string :=
  PyStr.take 15 (Pathlib.stem script).

(** [any(appname.lower() in line.lower() for line in lines)]; the name
    has neither digit nor blank, so it lies in the line exactly when it
    lies in the command line. *)
Definition any_appname_line (lines : list (Z * string)) : bool :=
  List.existsb (λ line, PyStr.contains (PyStr.lower appname) (PyStr.lower (snd line))) lines.

(** The body of the loop over the keys for one record: does the record
    go to [finished_processes]? *)
Definition probe (E : env) (process_info : RunRecord) : M bool :=
  table ← get_procs;
  if match proc process_info with
     | Some child => poll_finished child table
     | None => false
     end
  then ret true
  else
    match script process_info with
    | None => raise AttributeError
    | Some s =>
        let exe_file := probe_pattern s in
        match pgid process_info with
        | Some group =>
            try_except
              (os_killpg group OS.SIG0;; ret false)
              (is_a ProcessLookupError)
              (λ _, ret true)
        | None =>
            try_except
              (pgrep_output ← check_output_pgrep E true exe_file;
               match pgrep_output with
               | [] => ret true
               | _ => ret (any_appname_line pgrep_output)
               end)
              (is_a CalledProcessError)
              (λ _, ret true)
        end
    end.

(** The loop over [running_processes_keys]. *)
Fixpoint monitor_scan (E : env) (keys : list string) (finished_processes : list string)
  : M (list string) :=
  match keys with
  | [] => ret finished_processes
  | script_stem :: rest =>
      process_info ← registry_get script_stem;
      match process_info with
      | None => monitor_scan E rest finished_processes
      | Some process_info =>
          fin ← probe E process_info;
          monitor_scan E rest
            (if (fin : bool) then finished_processes ++ [script_stem] else finished_processes)
      end
  end.

Fixpoint idle_add_process_ended (finished_processes : list string) : M unit :=
  match finished_processes with
  | [] => ret ()
  | script_stem :: rest =>
      emit (EvIdleAdd (process_ended_task script_stem));;
      idle_add_process_ended rest
  end.

(** One turn of the [while True] loop. *)
Definition monitor_cycle (E : env) : M unit :=
  emit (EvSleep 3);;
  running_processes_keys ← registry_keys;
  finished_processes ← monitor_scan E running_processes_keys [];
  idle_add_process_ended finished_processes.

(** The loop itself, for as many turns as [others] is long: before each
    turn the other threads and the outside world act on the state. An
    exception ends the loop. *)
Fixpoint monitor_processes (E : env) (others : list (state → state)) : M unit :=
  match others with
  | [] => ret ()
  | other :: rest =>
      ((λ st, (Ret (), other st)) : M unit);;
      monitor_cycle E;;
      monitor_processes E rest
  end.

(** ** [process_ended] *)

Definition process_ended (E : env) (script_stem : string) : M unit :=
  present ← registry_contains script_stem;
  if (present : bool) then
    popped ← registry_pop script_stem;
    process_info ← match popped with
                   | Some r => ret r
                   | None => raise KeyError
                   end;
    ui (mark_stopped script_stem);;
    d ← match script process_info with
        | Some s => extract_yaml_info E s
        | None => raise AttributeError
        end;
    update_related_scripts_buttons E (wineprefix d)
  else ret ().

(** ** [launch_script] *)

(** [shlex.quote]. *)
Definition safe_char (c : ascii) : bool :=
  let n := nat_of_ascii c in
  (Nat.leb 48 n && Nat.leb n 57) || (Nat.leb 65 n && Nat.leb n 90)
  || (Nat.leb 97 n && Nat.leb n 122)
  || PyStr.contains (String c EmptyString) "_@%+=:,./-".

Fixpoint all_safe (s : string) : bool :=
  match s with
  | EmptyString => true
  | String c s' => safe_char c && all_safe s'
  end.

Definition double_quote : string := String (ascii_of_nat 34) EmptyString.

Fixpoint escape_single_quotes (s : string) : string :=
  match s with
  | EmptyString => EmptyString
  | String c s' =>
      (if Ascii.eqb c "'"
       then "'" +:+ double_quote +:+ "'" +:+ double_quote +:+ "'"
       else String c EmptyString) +:+ escape_single_quotes s'
  end.

Definition shlex_quote (s : string) : string :=
  if String.eqb s "" then "''"
  else if all_safe s then s
  else "'" +:+ escape_single_quotes s +:+ "'".

(** [subprocess.Popen(command, shell=True, preexec_fn=os.setsid, ...)]:
    the shell starts as the leader of a new process group. *)
Definition popen (E : env) (command : string) : M Z :=
  λ st,
    if popen_ok E then
      let child := OS.fresh_pid (procs st) in
      (Ret child,
       {| running_processes := running_processes st;
          procs := procs st ++ [{| OS.pid := child; OS.pgid := child; OS.owned := true;
                                   OS.comm := "sh";
                                   OS.cmdline := "/bin/sh -c " +:+ command |}];
          log := log st ++ [EvPopen command (Ret child)] |})
    else
      (Raise OSError,
       {| running_processes := running_processes st;
          procs := procs st;
          log := log st ++ [EvPopen command (Raise OSError)] |}).

Definition os_getpgid (target : Z) : M Z :=
  λ st, (OS.getpgid target (procs st), st).

(** The record written for a process started here. *)
Definition launched_record (child group : Z) (script : string) : RunRecord :=
  {| proc := Some child; pid := Some child; pgid := Some group; script := Some script |}.

Definition launch_command (d : descriptor) : string :=
  "cd " +:+ shlex_quote (Pathlib.parent (exe_file d))
  +:+ " && WINEPREFIX=" +:+ shlex_quote (wineprefix d)
  +:+ " wine " +:+ shlex_quote (Pathlib.name (exe_file d))
  +:+ " " +:+ script_args d.

(** The loop of [update_running_script_buttons] over the stems of the
    registry. *)
Fixpoint update_running_script_buttons_loop (E : env) (script_stems : list string)
  : M unit :=
  match script_stems with
  | [] => ret ()
  | script_stem :: rest =>
      button ← lift_outcome (find_button_by_script_stem (flowbox_rows E) script_stem);
      match button with
      | Some button =>
          set_play_button_child button;;
          update_running_script_buttons_loop E rest
      | None => update_running_script_buttons_loop E rest
      end
  end.

Definition update_running_script_buttons (E : env) : M unit :=
  script_stems ← registry_keys;
  update_running_script_buttons_loop E script_stems.

(** [launch_script(script, play_stop_button, button)]. [button] is the
    button of the script's row when the call comes from the options
    view, and what [find_button_by_script_stem] returned when it comes
    from a handler that [reset_buttons] or [process_ended] installed.
    The record is built after [Popen], and its entry [options_button]
    is [button.get_first_child()], which raises [AttributeError] when
    [button] is [None] and which every widget answers. [find_lnk_files], which only reads the prefix,
    is left out. *)
Definition launch_script (E : env) (script : string) (button : option Gtk.widget)
  : M unit :=
  print [Txt "Launching script "; Txt script];;
  d ← extract_yaml_info E script;
  if negb (path_exists E (exe_file d)) then
    ui (show_exe_not_found_dialog (Pathlib.name (exe_file d)) (exe_file d) script)
  else
    try_except
      (child ← popen E (launch_command d);
       group ← os_getpgid child;
       print [Txt "Launched script with PID: "; Num child];;
       match button with
       | Some _ => registry_insert (Pathlib.stem script) (launched_record child group script)
       | None => raise AttributeError
       end;;
       emit (EvThread child (Pathlib.stem script) (wineprefix d));;
       update_running_script_buttons E)
      (λ _, true)
      (λ e, print [Txt "Error launching script: "; Exc e]).

(** ** [terminate_script] and [stop_script] *)

(** The loop [for pid in pids_to_kill]. *)
Fixpoint terminate_kill_loop (E : env) (script prefix : string)
    (winecharm_pids pids_to_kill : list Z) : M unit :=
  match pids_to_kill with
  | [] => ret ()
  | pid :: rest =>
      (if bool_decide (pid ∈ winecharm_pids) then
         print [Txt "Skipping termination of "; Txt appname; Txt " process with PID: "; Num pid]
       else
         killed ← try_except
                    (os_kill pid OS.SIGKILL;;
                     print [Txt "Terminated PID: "; Num pid];;
                     ret true)
                    (is_a ProcessLookupError)
                    (λ _, ret false);
         if (killed : bool) then
           print [Txt "Terminated wine process for "; Txt script];;
           ui (reset_buttons script);;
           update_related_scripts_buttons E prefix
         else ret ());;
      terminate_kill_loop E script prefix winecharm_pids rest
  end.

(** A record is a dictionary with keys, so [if process_info:] holds for
    every record that [pop] returns. *)
Definition terminate_script (E : env) (script : string) : M unit :=
  print [Txt "Terminating script: "; Txt script];;
  present ← registry_contains (Pathlib.stem script);
  if (present : bool) then
    process_info ← registry_pop (Pathlib.stem script);
    match process_info with
    | Some _ =>
        d ← extract_yaml_info E script;
        try_except
          (pgrep_output ← check_output_pgrep E true (exe_name_upto_fifteen_chars d);
           let pids_to_kill := List.map fst pgrep_output in
           winecharm_pid_lines ← check_output_pgrep E true appname;
           let winecharm_pids := List.map fst winecharm_pid_lines in
           terminate_kill_loop E script (wineprefix d) winecharm_pids pids_to_kill)
          (is_a CalledProcessError)
          (λ _, print [Txt "No processes found for "; Txt (exe_name_upto_fifteen_chars d)])
    | None => print [Txt "No running process found for "; Txt script]
    end
  else print [Txt "No running process found for "; Txt script].

(** [stop_script]: nothing calls it. After the signal it calls
    [reset_buttons] with five arguments, which takes three. *)
Definition stop_script (process_info : option RunRecord) : M unit :=
  match process_info with
  | Some info =>
      try_except
        (target ← match pid info with
                  | Some p => ret p
                  | None => raise TypeError
                  end;
         group ← os_getpgid target;
         os_killpg group OS.SIGKILL;;
         print [Txt "Terminated wine process with PID "; Num target];;
         raise TypeError)
        (is_a ProcessLookupError)
        (λ e, print [Txt "Error terminating wine process: "; Exc e])
  | None => print [Txt "No running process found"]
  end.

(** ** [toggle_play_stop] *)

Definition toggle_play_stop (E : env) (script : string) (button : option Gtk.widget)
  : M unit :=
  present ← registry_contains (Pathlib.stem script);
  if (present : bool) then
    print [Txt "Stopping script: "; Txt (Pathlib.stem script)];;
    terminate_script E script;;
    ui (set_play_stop_icon "media-playback-start-symbolic" "Play")
  else
    print [Txt "Starting script: "; Txt (Pathlib.stem script)];;
    launch_script E script button;;
    ui (set_play_stop_icon "media-playback-stop-symbolic" "Stop").

(** [add_or_update_script_button(script_path)], as far as the registry
    goes: the record is dropped when a row is found for the stem. *)
Definition add_or_update_script_button (E : env) (script_path : string) : M unit :=
  existing_button ← lift_outcome
                      (find_button_by_script_stem (flowbox_rows E)
                         (Pathlib.stem script_path));
  match existing_button with
  | Some _ => registry_pop (Pathlib.stem script_path);; ret ()
  | None => ret ()
  end.

(** [update_script_button_state(script_stem)], which the scan at startup
    schedules; the script of the record is the first listed one with the
    stem, if any. *)
Definition update_script_button_state (E : env) (script_stem : string) : M unit :=
  button ← lift_outcome (find_button_by_script_stem (flowbox_rows E) script_stem);
  match button with
  | Some button =>
      set_play_button_child button;;
      registry_insert script_stem
        {| proc := None; pid := None; pgid := None;
           script := List.find (λ s, String.eqb (Pathlib.stem s) script_stem)
                       (List.map fst (charm_files E)) |}
  | None => ret ()
  end.

(** The two kinds of click that call the toggle. *)
Inductive click :=
| launch_option (script : string)   (* the entry Launch of the options view *)
| play_button (script : string).    (* a play button after reset_buttons or process_ended *)

(** The handler of a click. The options view passes the button of the
    script's row; the handlers that [reset_buttons] and [process_ended]
    install pass [self.find_button_by_script_stem(script.stem)], called
    when the click comes. *)
Definition on_clicked (E : env) (c : click) : M unit :=
  match c with
  | launch_option script => toggle_play_stop E script (Some (script_button script))
  | play_button script =>
      button ← lift_outcome
                 (find_button_by_script_stem (flowbox_rows E) (Pathlib.stem script));
      toggle_play_stop E script button
  end.

(** A run of clicks; an exception raised by one handler is reported by
    the main loop, which goes on. *)
Fixpoint toggle_sequence (E : env) (clicks : list click) (st : state) : state :=
  match clicks with
  | [] => st
  | c :: rest => toggle_sequence E rest (snd (on_clicked E c st))
  end.
(** ** The socket server of [start_socket_server] *)

(** The loop over [abs_file_paths]. *)
Fixpoint forward_paths (E : env) (abs_file_paths : list string) : M unit :=
  match abs_file_paths with
  | [] => ret ()
  | abs_file_path :: rest =>
      (if path_exists E abs_file_path then
         print [Txt "Resolved absolute file path: "; Txt abs_file_path];;
         emit (EvIdleAdd (process_cli_file_task abs_file_path))
       else print [Txt "File does not exist: "; Txt abs_file_path]);;
      forward_paths E rest
  end.

(** Bytes as numbers. *)
Definition byte_in (lo hi : N) (c : ascii) : bool :=
  ((lo <=? N_of_ascii c) && (N_of_ascii c <=? hi))%N.

Definition continuation (c : ascii) : bool := byte_in 128 191 c.

(** The second byte that may follow the first byte [a] of a sequence of
    three or of four bytes; sequences that are longer than needed, the
    surrogates and what lies above U+10FFFF are refused. *)
Definition second_of_three (a b : ascii) : bool :=
  (byte_in 224 224 a && byte_in 160 191 b)
  || (byte_in 225 236 a && continuation b)
  || (byte_in 237 237 a && byte_in 128 159 b)
  || (byte_in 238 239 a && continuation b).

Definition second_of_four (a b : ascii) : bool :=
  (byte_in 240 240 a && byte_in 144 191 b)
  || (byte_in 241 243 a && continuation b)
  || (byte_in 244 244 a && byte_in 128 143 b).

(** Whether [data.decode()] accepts the bytes: they are well-formed
    UTF-8. *)
Fixpoint utf8_valid (data : string) : bool :=
  match data with
  | EmptyString => true
  | String a rest =>
      if byte_in 0 127 a then utf8_valid rest
      else
        match rest with
        | String b rest2 =>
            if byte_in 194 223 a then continuation b && utf8_valid rest2
            else
              match rest2 with
              | String c rest3 =>
                  if second_of_three a b then continuation c && utf8_valid rest3
                  else
                    match rest3 with
                    | String d rest4 =>
                        second_of_four a b && continuation c && continuation d
                        && utf8_valid rest4
                    | EmptyString => false
                    end
              | EmptyString => false
              end
        | EmptyString => false
        end
  end.

(** [data.decode()]: the text, kept as the bytes it was decoded from. *)
Definition decode (data : string) : M string :=
  if utf8_valid data then ret data else raise UnicodeDecodeError.

(** The body of the accept loop for one connection; [received] is the
    bytes the client sent, of which [conn.recv(1024)] reads the first
    1024. [decode] refuses bytes that are not UTF-8, among them a
    character cut in two by the limit.
    [cwd, file_path = message.split("||")] needs exactly two fields, and
    [Path.glob] refuses an empty pattern. *)
Definition handle_connection (E : env) (received : string) : M unit :=
  message ← decode (PyStr.take 1024 received);
  if String.eqb message "" then ret ()
  else
    match PyStr.split "||" message with
    | [cwd; file_path] =>
        let pattern := List.last (PyStr.split "/" file_path) "" in
        let directory := PyStr.join "/" (List.removelast (PyStr.split "/" file_path)) in
        let search_path := Pathlib.joinpath cwd directory in
        if negb (path_exists E search_path) then
          print [Txt "Directory does not exist: "; Txt search_path]
        else if String.eqb pattern "" then raise ValueError
        else
          match path_glob E search_path pattern with
          | [] => print [Txt "No files matched the pattern: "; Txt file_path]
          | abs_file_paths => forward_paths E abs_file_paths
          end
    | _ => raise ValueError
    end.

(** [while True: conn, _ = server.accept() ...], for the connections
    that come in. An exception ends the loop. *)
Fixpoint accept_loop (E : env) (connections : list string) : M unit :=
  match connections with
  | [] => ret ()
  | received :: rest => handle_connection E received;; accept_loop E rest
  end.

Definition server_thread (E : env) (connections : list string) : M unit :=
  (if socket_file_exists E then emit (EvSocket socket_unlink) else ret ());;
  emit (EvSocket socket_bind);;
  emit (EvSocket socket_listen);;
  accept_loop E connections.

(** ** [main] *)

Definition client_connect (E : env) : M unit :=
  emit (EvSocket (socket_connect (connect_result E)));;
  lift_outcome (connect_result E).

Definition client_sendall (E : env) (message : string) : M unit :=
  emit (EvSocket (socket_sendall message (sendall_result E)));;
  lift_outcome (sendall_result E).

(** [app.start_socket_server(); app.run(sys.argv)]. *)
Definition start_instance : M unit :=
  emit (EvSocket start_socket_server);;
  ui app_run.

(** [main], up to [app.run]; [args_file] is [args.file] and [cwd] is
    [os.getcwd()]. An empty file argument counts as none. *)
Definition main (E : env) (args_file : option string) (cwd : string) : M unit :=
  match args_file with
  | Some file =>
      if String.eqb file "" then start_instance
      else
        sent ← (if socket_file_exists E then
                  try_except
                    (client_connect E;;
                     client_sendall E (cwd +:+ "||" +:+ file);;
                     print [Txt "Sent file path to existing instance: "; Txt file];;
                     ret true)
                    (is_a ConnectionRefusedError)
                    (λ _, print [Txt "No existing instance found, starting a new one."];;
                          ret false)
                else
                  print [Txt "No existing instance found, starting a new one."];;
                  ret false);
        if (sent : bool) then ret ()
        else ui (set_command_line_file file);; start_instance
  | None => start_instance
  end.


(** ** Scenarios *)

Definition prefixes_dir : string :=
  "/home/u/.var/app/io.github.fastrizwaan.WineCharm/data/winecharm/Prefixes".

Definition init_process : OS.process :=
  {| OS.pid := 1; OS.pgid := 1; OS.owned := false;
     OS.comm := "init"; OS.cmdline := "/sbin/init" |}.

Definition supervisor_process : OS.process :=
  {| OS.pid := 50; OS.pgid := 50; OS.owned := true;
     OS.comm := "python3"; OS.cmdline := "python3 /app/bin/winecharm" |}.

(** A game whose descriptor is named after its executable. *)
Definition game_script : string := prefixes_dir +:+ "/game-0a1b2c3d4e/game.charm".

Definition game_descriptor : descriptor :=
  {| exe_file := "/home/u/games/game.exe";
     wineprefix := prefixes_dir +:+ "/game-0a1b2c3d4e";
     progname := "game";
     script_args := "" |}.

(** A program whose descriptor is named after its product name. *)
Definition hl_script : string := prefixes_dir +:+ "/hl-5f6a7b8c9d/Half-Life.charm".

Definition hl_descriptor : descriptor :=
  {| exe_file := "/home/u/games/hl.exe";
     wineprefix := prefixes_dir +:+ "/hl-5f6a7b8c9d";
     progname := "Half-Life";
     script_args := "" |}.

(** A descriptor whose executable is gone. *)
Definition app_script : string := prefixes_dir +:+ "/app-1122334455/app.charm".

Definition app_descriptor : descriptor :=
  {| exe_file := "/tmp/app.exe";
     wineprefix := prefixes_dir +:+ "/app-1122334455";
     progname := "app";
     script_args := "" |}.

Definition desktop : env :=
  {| pgrep_installed := true;
     charm_files := [(game_script, Ret game_descriptor); (hl_script, Ret hl_descriptor);
                     (app_script, Ret app_descriptor)];
     path_exists := λ p, bool_decide (p ∈ ["/home/u/games/game.exe"; "/home/u/games/hl.exe";
                                            "/home/u/games"; "/home/u/games/setup.exe"]);
     path_glob := λ d pattern,
       if String.eqb d "/home/u/games" && String.eqb pattern "setup.exe"
       then ["/home/u/games/setup.exe"] else [];
     flowbox := [Some (script_button game_script); Some (script_button hl_script);
                 Some (script_button app_script)];
     popen_ok := true;
     socket_file_exists := true;
     connect_result := Ret ();
     sendall_result := Ret () |}.


(** Nothing runs but the supervisor. *)
Definition idle : state :=
  {| running_processes := ∅;
     procs := [init_process; supervisor_process];
     log := [] |}.

(** The processes of [st] and those in [children], with an empty log. *)
Definition forked (st : state) (children : list OS.process) : state :=
  {| running_processes := running_processes st;
     procs := procs st ++ children;
     log := [] |}.

Definition game_process (i group : Z) : OS.process :=
  {| OS.pid := i; OS.pgid := group; OS.owned := true;
     OS.comm := "game.exe"; OS.cmdline := "game.exe" |}.

Definition winedevice_process (i group : Z) : OS.process :=
  {| OS.pid := i; OS.pgid := group; OS.owned := true;
     OS.comm := "winedevice.exe"; OS.cmdline := "C:\windows\system32\winedevice.exe" |}.

(** The game has been started from [idle] by its entry Launch: its shell
    is process 51 and leads group 51. *)
Definition game_launched : state := (on_clicked desktop (launch_option game_script) idle).2.

(** The game runs with a worker of the compatibility layer. *)
Definition game_with_worker : state :=
  forked game_launched [game_process 52 51; winedevice_process 53 51].

(** A record made by probing whose process is gone. *)
Definition game_probed : state :=
  {| running_processes := {[ "game" := probed_record game_script ]};
     procs := [init_process; supervisor_process];
     log := [] |}.

(** The game has been started, and a process of another user, which the
    supervisor may not signal, has the word game in its command line. *)
Definition gamemoded_process : OS.process :=
  {| OS.pid := 60; OS.pgid := 60; OS.owned := false;
     OS.comm := "gamemoded"; OS.cmdline := "/usr/bin/gamemoded -d" |}.

Definition game_beside_gamemoded : state :=
  forked game_launched [game_process 52 51; gamemoded_process].

(** Two prefixes, each with the installer it was made for; both
    descriptors are named [setup.charm]. *)
Definition alpha_setup_script : string := prefixes_dir +:+ "/alpha-1111111111/setup.charm".

Definition beta_setup_script : string := prefixes_dir +:+ "/beta-2222222222/setup.charm".

Definition alpha_setup_descriptor : descriptor :=
  {| exe_file := "/home/u/alpha/setup.exe";
     wineprefix := prefixes_dir +:+ "/alpha-1111111111";
     progname := "setup";
     script_args := "" |}.

Definition beta_setup_descriptor : descriptor :=
  {| exe_file := "/home/u/beta/setup.exe";
     wineprefix := prefixes_dir +:+ "/beta-2222222222";
     progname := "setup";
     script_args := "" |}.

Definition two_installers : env :=
  {| pgrep_installed := true;
     charm_files := [(alpha_setup_script, Ret alpha_setup_descriptor);
                     (beta_setup_script, Ret beta_setup_descriptor)];
     path_exists := λ p, bool_decide (p ∈ ["/home/u/alpha/setup.exe"; "/home/u/beta/setup.exe"]);
     path_glob := λ _ _, [];
     flowbox := [Some (script_button alpha_setup_script);
                 Some (script_button beta_setup_script)];
     popen_ok := true;
     socket_file_exists := true;
     connect_result := Ret ();
     sendall_result := Ret () |}.

Definition setup_process (i group : Z) : OS.process :=
  {| OS.pid := i; OS.pgid := group; OS.owned := true;
     OS.comm := "setup.exe"; OS.cmdline := "setup.exe" |}.

(** The installer of the first prefix has been started and runs. *)
Definition alpha_setup_launched : state :=
  (on_clicked two_installers (launch_option alpha_setup_script) idle).2.

Definition alpha_setup_running : state :=
  forked alpha_setup_launched [setup_process 52 51].



(** ** Reading the log *)

(** The kill signals sent to single processes, in order, whatever their
    result. *)
Definition kill_attempts (l : list event) : list (Z * OS.signal) :=
  omap (λ e, match e with EvKill target sig _ => Some (target, sig) | _ => None end) l.

(** The signals sent to process groups. *)
Definition group_signals (l : list event) : list (Z * OS.signal) :=
  omap (λ e, match e with EvKillpg group sig _ => Some (group, sig) | _ => None end) l.

(** The commands handed to [subprocess.Popen]. *)
Definition launches (l : list event) : list string :=
  omap (λ e, match e with EvPopen command _ => Some command | _ => None end) l.

(** The calls scheduled on the main loop. *)
Definition idle_tasks (l : list event) : list idle_task :=
  omap (λ e, match e with EvIdleAdd task => Some task | _ => None end) l.

(** The lines of a pgrep listing, none when the query fails. *)
Definition listing (E : env) (full : bool) (pattern : string) (st : state)
  : list (Z * string) :=
  match OS.pgrep (pgrep_installed E) full pattern (procs st) with
  | Ret lines => lines
  | Raise _ => []
  end.

(** How many records the registry holds under one key. *)
Definition records_for (k : string) (reg : gmap string RunRecord) : nat :=
  List.length (List.filter (λ kr, bool_decide (kr.1 = k)) (map_to_list reg)).

(** [st] with [events] appended to its log. *)
Definition logged (st : state) (events : list event) : state :=
  {| running_processes := running_processes st;
     procs := procs st;
     log := log st ++ events |}.

(** ** What the prober decides *)

(** The verdict of the prober on one record, read off the process table:
    the owned child first, then the process group, then the listing. *)
Definition verdict (E : env) (table : list OS.process) (r : RunRecord) : bool :=
  match proc r with
  | Some child => poll_finished child table
  | None => false
  end
  || match pgid r with
     | Some group =>
         match (OS.killpg group OS.SIG0 table).1 with
         | Raise ProcessLookupError => true
         | _ => false
         end
     | None =>
         match script r with
         | Some s =>
             match OS.pgrep (pgrep_installed E) true (probe_pattern s) table with
             | Ret [] => true
             | Ret lines => any_appname_line lines
             | Raise _ => true
             end
         | None => false
         end
     end.

(** Probing the record raises nothing: its child has ended, or it names
    its script and either its group is not made of foreign processes only
    or, without a group, pgrep can be started. *)
Definition probe_safe (E : env) (table : list OS.process) (r : RunRecord) : bool :=
  match proc r with
  | Some child => poll_finished child table
  | None => false
  end
  || match script r, pgid r with
     | None, _ => false
     | Some _, Some group =>
         match (OS.killpg group OS.SIG0 table).1 with
         | Raise PermissionError => false
         | _ => true
         end
     | Some _, None => pgrep_installed E
     end.

Definition state_safe (E : env) (st : state) : bool :=
  List.forallb (λ kr, probe_safe E (procs st) kr.2) (map_to_list (running_processes st)).

(** The keys whose records the prober finds finished. *)
Definition finished_now (E : env) (st : state) : list string :=
  List.filter (λ k, match running_processes st !! k with
                    | Some r => verdict E (procs st) r
                    | None => false
                    end)
              (List.map fst (map_to_list (running_processes st))).

(** ** The states the program comes to *)

(** What happens to the process table outside the supervisor: processes
    end, change their name and command line, and new ones start. A
    process keeps its identifier, its group and its owner; the
    identifier that a record holds for its child is not given to another
    process while the record stands. From here on the log may be read
    anew. *)
Definition world_step (st st' : state) : Prop :=
  running_processes st' = running_processes st ∧
  ∀ p, p ∈ procs st' →
       (∃ q, q ∈ procs st ∧ OS.pid q = OS.pid p ∧ OS.pgid q = OS.pgid p
             ∧ OS.owned q = OS.owned p)
       ∨ (∀ k r, running_processes st !! k = Some r → proc r ≠ Some (OS.pid p)).

(** The states of a run of the application: it starts with an empty
    registry, and the registry is touched by the click handlers, by
    [process_ended], by kill-all, by the re-scan, by the two handlers of
    the script list and read by the prober; the files, the rows of the
    flow box and the tools may be different at each call. *)
Inductive reachable : state → Prop :=
| reachable_start table :
    reachable {| running_processes := ∅; procs := table; log := [] |}
| reachable_world st st' :
    reachable st → world_step st st' → reachable st'
| reachable_clicked E c st :
    reachable st → reachable (on_clicked E c st).2
| reachable_process_ended E script_stem st :
    reachable st → reachable (process_ended E script_stem st).2
| reachable_kill_all E st :
    reachable st → reachable (on_kill_all_clicked E st).2
| reachable_rescan E prefix st :
    reachable st → reachable (update_related_scripts_buttons E prefix st).2
| reachable_script_button E script_path st :
    reachable st → reachable (add_or_update_script_button E script_path st).2
| reachable_button_state E script_stem st :
    reachable st → reachable (update_script_button_state E script_stem st).2
| reachable_monitor E st :
    reachable st → reachable (monitor_cycle E st).2.

(** Every record was written by [launch_script]: it sits under the stem
    of its script, holds the child and the child's own group, and a
    process with the child's identifier is this child. *)
Definition launched_here (st : state) : Prop :=
  ∀ k r, running_processes st !! k = Some r →
    ∃ child s,
      r = launched_record child child s ∧ k = Pathlib.stem s ∧
      ∀ p, p ∈ procs st → OS.pid p = child →
           OS.owned p = true ∧ OS.pgid p = child.

(** From [st] to [st'] processes only ended or were started as shells of
    the supervisor, and records were only dropped or written by
    [launch_script]. *)
Definition supervised (st st' : state) : Prop :=
  (∀ p, p ∈ procs st' →
        p ∈ procs st ∨ (OS.owned p = true ∧ OS.pgid p = OS.pid p)) ∧
  (∀ k r, running_processes st' !! k = Some r →
        running_processes st !! k = Some r ∨
        ∃ child s,
          r = launched_record child child s ∧ k = Pathlib.stem s ∧
          ∀ p, p ∈ procs st' → OS.pid p = child →
               OS.owned p = true ∧ OS.pgid p = child).

Definition supervises {A} (c : M A) : Prop := ∀ st, supervised st (c st).2.

(** The records that name the descriptor [script]. *)
Definition records_of (descriptor_path : string) (reg : gmap string RunRecord)
  : list (string * RunRecord) :=
  List.filter (λ kr, bool_decide (script kr.2 = Some descriptor_path)) (map_to_list reg).

(** What the prober asks the system about one record that holds a child
    and a group: nothing when the child has ended, and otherwise whether
    the group can be signalled. *)
Definition group_probe (table : list OS.process) (r : RunRecord) : list event :=
  match proc r, pgid r with
  | Some child, Some group =>
      if poll_finished child table then []
      else [EvKillpg group OS.SIG0 (OS.killpg group OS.SIG0 table).1]
  | _, _ => []
  end.

(** The group probes of one turn of the prober, in the order of the
    keys. *)
Definition probe_events (st : state) : list event :=
  flat_map (λ kr, group_probe (procs st) kr.2) (map_to_list (running_processes st)).


(** The calls on the rendezvous socket. *)
Definition socket_actions (l : list event) : list socket_action :=
  omap (λ e, match e with EvSocket action => Some action | _ => None end) l.

(** ** Properties of computations *)

(** Events other than starting a process and signalling a group. *)
Definition harmless (e : event) : Prop :=
  match e with
  | EvPopen _ _ | EvKillpg _ _ _ => False
  | _ => True
  end.

(** [c] only adds events that satisfy [Q] to the log. *)
Definition only_emits (Q : event → Prop) {A} (c : M A) : Prop :=
  ∀ st, ∃ events, log (c st).2 = log st ++ events ∧ Forall Q events.

(** [c] keeps a property of the registry. *)
Definition keeps (P : gmap string RunRecord → Prop) {A} (c : M A) : Prop :=
  ∀ st, P (running_processes st) → P (running_processes (c st).2).

(** The descriptor [k] has no record, or one made by probing. *)
Definition retired_or_probed (k : string) (reg : gmap string RunRecord) : Prop :=
  reg !! k = None ∨ ∃ s, reg !! k = Some (probed_record s).

(** ** Tactics for the monad *)

Ltac unfold_monad :=
  unfold mbind, M_bind, bind, mret, M_ret, ret, raise, try_except, lift_outcome,
    print, ui, emit, registry_contains, registry_get, registry_keys,
    registry_insert, registry_pop, registry_clear, get_procs in *.

Ltac monad_simpl := unfold_monad; cbn [fst snd running_processes procs log] in *.

(** * Further parts of the program *)

(** ** Summaries of the re-scan, of termination and of the gateway *)

(** Events that are neither a signal nor the start of a process. *)
Definition signal_free (e : event) : Prop :=
  match e with
  | EvPopen _ _ | EvKill _ _ _ | EvKillpg _ _ _ => False
  | _ => True
  end.

(** [c] leaves the process table alone and adds only events that are
    neither a signal nor the start of a process. *)
Definition quiet {A} (c : M A) : Prop :=
  ∀ st, procs (c st).2 = procs st ∧
        ∃ events, log (c st).2 = log st ++ events ∧ Forall signal_free events.

(** The game was started, and its shell and all it started are gone. *)
Definition game_exited : state :=
  {| running_processes := running_processes game_launched;
     procs := [init_process; supervisor_process];
     log := [] |}.

(** The processes that [terminate_script] is to kill: listed for the executable's
    name and not for the application's. *)
Definition terminate_targets (E : env) (d : descriptor) (st : state) : list Z :=
  List.filter (λ x, negb (bool_decide (x ∈ List.map fst (listing E true appname st))))
              (List.map fst (listing E true (exe_name_upto_fifteen_chars d) st)).

(** The body of the loop of [terminate_script] for one process. *)
Definition terminate_kill_body (E : env) (script prefix : string)
    (winecharm_pids : list Z) (pid : Z) : M unit :=
  if bool_decide (pid ∈ winecharm_pids) then
    print [Txt "Skipping termination of "; Txt appname; Txt " process with PID: "; Num pid]
  else
    killed ← try_except
               (os_kill pid OS.SIGKILL;;
                print [Txt "Terminated PID: "; Num pid];;
                mret true)
               (is_a ProcessLookupError)
               (λ _, mret false);
    if (killed : bool) then
      print [Txt "Terminated wine process for "; Txt script];;
      ui (reset_buttons script);;
      update_related_scripts_buttons E prefix
    else mret ().

(** The shell that [subprocess.Popen] starts for [command]. *)
Definition shell_process (child : Z) (command : string) : OS.process :=
  {| OS.pid := child; OS.pgid := child; OS.owned := true;
     OS.comm := "sh"; OS.cmdline := "/bin/sh -c " +:+ command |}.




(** Whether a message was sent to a running instance. *)
Definition sent_messages (l : list event) : list string :=
  omap (λ e, match e with
             | EvSocket (socket_sendall message _) => Some message
             | _ => None
             end) l.

(** A desktop on which the socket file is left over from an instance
    that has gone. *)
Definition desktop_stale_socket : env :=
  {| pgrep_installed := true;
     charm_files := charm_files desktop;
     path_exists := path_exists desktop;
     path_glob := path_glob desktop;
     flowbox := flowbox desktop;
     popen_ok := true;
     socket_file_exists := true;
     connect_result := Raise ConnectionRefusedError;
     sendall_result := Ret () |}.

(** Whether the log records the start of the application. *)
Definition started_instance (l : list event) : bool :=
  List.existsb (λ e, match e with
                     | EvSocket start_socket_server | EvUi app_run => true
                     | _ => false
                     end) l.

(** A desktop on which the socket of the running instance belongs to
    someone else. *)
Definition desktop_foreign_socket : env :=
  {| pgrep_installed := true;
     charm_files := charm_files desktop;
     path_exists := path_exists desktop;
     path_glob := path_glob desktop;
     flowbox := flowbox desktop;
     popen_ok := true;
     socket_file_exists := true;
     connect_result := Raise PermissionError;
     sendall_result := Ret () |}.

(** ** Shortcuts of a prefix *)

(** [Path(p).suffix]: what [stem] leaves of the name. *)
Definition Pathlib_suffix (p : string) : string :=
  String.substring (String.length (Pathlib.stem p))
    (String.length (Pathlib.name p) - String.length (Pathlib.stem p)) (Pathlib.name p).

(** What the shortcut code finds on disk and gets from [exiftool]. *)
Record files := {
  (* the files below a directory, in the order of os.walk *)
  os_walk : string → list string;
  (* the stripped "Target File DOS Name" of a shortcut; None when the
     command fails or its output has no such line *)
  target_dos_name : string → option string;
  (* get_product_name(exe_file) *)
  get_product_name : string → option string
}.

(** [find_lnk_files]: [os_walk] lists regular files, for which
    [is_file()] holds. *)
Definition find_lnk_files (F : files) (wineprefix : string) : list string :=
  List.filter (λ file_path, String.eqb (PyStr.lower (Pathlib_suffix file_path)) ".lnk")
    (os_walk F (Pathlib.joinpath wineprefix "drive_c")).

(** [fs] holds the lists kept in [found_lnk_files.yaml], by prefix; a
    prefix without the file has no entry. *)
Definition add_lnk_file_to_processed (wineprefix lnk_file : string)
    (fs : gmap string (list string)) : gmap string (list string) :=
  let found_lnk_files := default [] (fs !! wineprefix) in
  let filename := Pathlib.name lnk_file in
  <[wineprefix := if bool_decide (filename ∈ found_lnk_files) then found_lnk_files
                  else found_lnk_files ++ [filename]]> fs.

Definition is_lnk_file_processed (wineprefix lnk_file : string)
    (fs : gmap string (list string)) : bool :=
  match fs !! wineprefix with
  | Some found_lnk_files => bool_decide (Pathlib.name lnk_file ∈ found_lnk_files)
  | None => false
  end.

(** [find_exe_path]: the first file of the walk with this name, letter
    case ignored. *)
Definition find_exe_path (F : files) (wineprefix exe_name : string) : option string :=
  List.find (λ file, String.eqb (PyStr.lower (Pathlib.name file)) (PyStr.lower exe_name))
    (os_walk F (Pathlib.joinpath wineprefix "drive_c")).

(** Whether the shortcut gives an executable to register: the target is
    known, lies in the prefix and is no uninstaller. An empty target
    name counts as none. *)
Definition lnk_target (F : files) (wineprefix lnk_file : string) : option string :=
  match target_dos_name F lnk_file with
  | Some exe_name =>
      if String.eqb exe_name "" then None
      else
        match find_exe_path F wineprefix exe_name with
        | Some exe_path =>
            if negb (PyStr.contains "unins" (PyStr.lower (Pathlib.stem exe_path)))
            then Some exe_path else None
        | None => None
        end
  | None => None
  end.

(** [extract_exe_files_from_lnk]: the executables found and the store it
    leaves. *)
Fixpoint extract_exe_files_from_lnk (F : files) (lnk_files : list string)
    (wineprefix : string) (fs : gmap string (list string))
  : list string * gmap string (list string) :=
  match lnk_files with
  | [] => ([], fs)
  | lnk_file :: rest =>
      if negb (is_lnk_file_processed wineprefix lnk_file fs) then
        match lnk_target F wineprefix lnk_file with
        | Some exe_path =>
            let '(exe_files, fs') :=
              extract_exe_files_from_lnk F rest wineprefix
                (add_lnk_file_to_processed wineprefix lnk_file fs) in
            (exe_path :: exe_files, fs')
        | None => extract_exe_files_from_lnk F rest wineprefix fs
        end
      else extract_exe_files_from_lnk F rest wineprefix fs
  end.

(** [product_name_map[product_name].append(exe_file)] on a dictionary
    kept in insertion order. *)
Fixpoint product_name_map_append (product_name exe_file : string)
    (product_name_map : list (string * list string)) : list (string * list string) :=
  match product_name_map with
  | [] => [(product_name, [exe_file])]
  | (name, exe_files) :: rest =>
      if String.eqb name product_name then (name, exe_files ++ [exe_file]) :: rest
      else (name, exe_files) :: product_name_map_append product_name exe_file rest
  end.

(** A call [create_yaml_file(exe_file, wineprefix, use_exe_name)]. *)
Record create_yaml_file_call := {
  call_exe_file : string;
  call_use_exe_name : bool
}.

(** The first loop of [create_scripts_for_lnk_files]: the calls it makes
    and the dictionary it builds. *)
Fixpoint group_by_product_name (F : files) (exe_files : list string)
    (product_name_map : list (string * list string))
  : list create_yaml_file_call * list (string * list string) :=
  match exe_files with
  | [] => ([], product_name_map)
  | exe_file :: rest =>
      match get_product_name F exe_file with
      | Some (String c name) =>
          group_by_product_name F rest
            (product_name_map_append (String c name) exe_file product_name_map)
      | _ =>
          let '(calls, product_name_map') :=
            group_by_product_name F rest product_name_map in
          ({| call_exe_file := exe_file; call_use_exe_name := false |} :: calls,
           product_name_map')
      end
  end.

(** The second loop, over the items of the dictionary. *)
Definition calls_for_products (product_name_map : list (string * list string))
  : list create_yaml_file_call :=
  List.flat_map
    (λ item, List.map (λ exe_file,
                         {| call_exe_file := exe_file;
                            call_use_exe_name := Nat.ltb 1 (List.length (snd item)) |})
                      (snd item))
    product_name_map.

(** The calls of [create_yaml_file] that the two loops make for
    [exe_files], in their order. *)
Definition create_yaml_file_calls (F : files) (exe_files : list string)
  : list create_yaml_file_call :=
  let '(calls, product_name_map) := group_by_product_name F exe_files [] in
  calls ++ calls_for_products product_name_map.

(** [create_scripts_for_lnk_files], up to the calls of
    [create_yaml_file] it makes. *)
Definition create_scripts_for_lnk_files (F : files) (wineprefix : string)
    (fs : gmap string (list string))
  : list create_yaml_file_call * gmap string (list string) :=
  let lnk_files := find_lnk_files F wineprefix in
  let '(exe_files, fs') := extract_exe_files_from_lnk F lnk_files wineprefix fs in
  (create_yaml_file_calls F exe_files, fs').

(** ** Buttons and search *)

(** [s.isascii()], the string kept as its bytes. *)
Fixpoint isascii (s : string) : bool :=
  match s with
  | EmptyString => true
  | String c s' => Nat.ltb (nat_of_ascii c) 128 && isascii s'
  end.

Section Search.

(** [str.lower], of which only its values on ASCII text are used. *)
Variable str_lower : string → string.

(** [filter_script_list]: the scripts whose rows are in the flow box
    after the call. *)
Definition filter_script_list (scripts : list string) (search_term : string)
  : list string :=
  List.filter (λ script, PyStr.contains search_term (str_lower (Pathlib.stem script)))
    scripts.

(** [on_search_entry_changed]: the scripts shown after [text] is typed. *)
Definition on_search_entry_changed (scripts : list string) (text : string) : list string :=
  filter_script_list scripts (str_lower text).

End Search.

(** A row that holds a box and no button: the widget next to the first
    child of the box is its label. The program builds no such row. *)
Definition row_with_label_beside (text : string) : Gtk.widget :=
  Gtk.FlowBoxChild (Some (Gtk.Box [Gtk.Image; Gtk.Label text])).

(** An event of a listing query. *)
Definition is_pgrep (e : event) : Prop :=
  match e with
  | EvPgrep _ _ => True
  | _ => False
  end.

(** [c] changes nothing but the log, to which it adds listing queries
    only. *)
Definition only_queries {A} (c : M A) : Prop :=
  ∀ st, ∃ events, (c st).2 = logged st events ∧ Forall is_pgrep events.

(** A row built by the program. *)
Definition row_of_program (row : Gtk.widget) : Prop :=
  (∃ script, row = create_script_button script)
  ∨ (∃ step, row = show_initializing_step step).

(** Whether the character occurs in the string. *)
Fixpoint occurs (c : ascii) (s : string) : bool :=
  match s with
  | EmptyString => false
  | String a s' => Ascii.eqb a c || occurs c s'
  end.

(** ** [create_yaml_file]: the name of the descriptor *)

(** [char.isdigit()] on an ASCII character. *)
Definition isdigit (c : ascii) : bool :=
  let n := nat_of_ascii c in (Nat.leb 48 n && Nat.leb n 57)%bool.

(** [any(char.isdigit() for char in s)]. *)
Fixpoint any_isdigit (s : string) : bool :=
  match s with
  | EmptyString => false
  | String c s' => isdigit c || any_isdigit s'
  end.

(** The choice of [progname] in [create_yaml_file]. A name that is not
    ASCII fails [isascii] whatever its digits are. *)
Definition choose_progname (use_exe_name : bool) (exe_name productname : string)
  : string :=
  let exe_no_space := replace_char " " "_" exe_name in
  if use_exe_name || PyStr.contains "setup" (PyStr.lower exe_name)
     || PyStr.contains "install" (PyStr.lower exe_name)
  then exe_name
  else if use_exe_name || PyStr.contains "setup" (PyStr.lower productname)
          || PyStr.contains "install" (PyStr.lower productname)
  then productname
  else if negb (String.eqb productname "") && negb (any_isdigit productname)
          && isascii productname
  then productname
  else exe_no_space.

(** [progname] and [yaml_file_path] of [create_yaml_file] for a resolved
    [exe_path] and a given [prefix_dir]; the product name is read as in
    [get_product_name]. *)
Definition yaml_progname (F : files) (exe_path : string) (use_exe_name : bool) : string :=
  let exe_name := Pathlib.stem exe_path in
  let exe_no_space := replace_char " " "_" exe_name in
  let productname := default exe_no_space (get_product_name F exe_path) in
  choose_progname use_exe_name exe_name productname.

Definition yaml_file_path (F : files) (exe_path prefix_dir : string) (use_exe_name : bool)
  : string :=
  Pathlib.joinpath prefix_dir
    (replace_char " " "_" (yaml_progname F exe_path use_exe_name) +:+ ".charm").

(** ** A prefix with an office suite *)

Definition suite_prefix : string := prefixes_dir +:+ "/suite-9f8e7d6c5b".

(** Two programs of one product, their uninstaller, and a shortcut to
    each on the desktop of the prefix. *)
Definition suite_files : files :=
  {| os_walk := λ directory,
       if String.eqb directory (suite_prefix +:+ "/drive_c") then
         [suite_prefix +:+ "/drive_c/Suite/Text Editor.exe";
          suite_prefix +:+ "/drive_c/Suite/viewer.exe";
          suite_prefix +:+ "/drive_c/Suite/unins000.exe";
          suite_prefix +:+ "/drive_c/Suite/readme.txt";
          suite_prefix +:+ "/drive_c/users/u/Desktop/Editor.lnk";
          suite_prefix +:+ "/drive_c/users/u/Desktop/Viewer.LNK";
          suite_prefix +:+ "/drive_c/users/u/Desktop/Uninstall.lnk";
          suite_prefix +:+ "/drive_c/users/u/Start Menu/Editor.lnk"]
       else [];
     target_dos_name := λ lnk_file,
       if String.eqb (Pathlib.name lnk_file) "Editor.lnk" then Some "TEXT EDITOR.EXE"
       else if String.eqb (Pathlib.name lnk_file) "Viewer.LNK" then Some "viewer.exe"
       else if String.eqb (Pathlib.name lnk_file) "Uninstall.lnk" then Some "unins000.exe"
       else None;
     get_product_name := λ exe_file,
       if String.eqb (Pathlib.name exe_file) "Text Editor.exe" then Some "Office Suite"
       else if String.eqb (Pathlib.name exe_file) "viewer.exe" then Some "Office Suite"
       else None |}.

(** Every shortcut that was processed in [fs] is processed in [fs']. *)
Definition store_le (wineprefix : string) (fs fs' : gmap string (list string)) : Prop :=
  ∀ lnk_file, is_lnk_file_processed wineprefix lnk_file fs = true →
              is_lnk_file_processed wineprefix lnk_file fs' = true.

(** [if product_name:] holds. *)
Definition named (F : files) (exe_file : string) : bool :=
  match get_product_name F exe_file with
  | Some (String _ _) => true
  | _ => false
  end.

(** The dictionary holds, under each product name, the executables of
    [seen] that have this name, no name twice, and every named
    executable of [seen] under its name. *)
Definition groups (F : files) (seen : list string)
    (product_name_map : list (string * list string)) : Prop :=
  NoDup (fst <$> product_name_map) ∧
  (∀ name exe_files, (name, exe_files) ∈ product_name_map →
     name ≠ "" ∧
     exe_files = filter (λ exe_file, get_product_name F exe_file = Some name) seen) ∧
  (∀ exe_file name, exe_file ∈ seen → get_product_name F exe_file = Some name →
     name ≠ "" → name ∈ fst <$> product_name_map).

(** The executables that the shortcuts of the suite lead to. *)
Definition suite_exe_files : list string :=
  [suite_prefix +:+ "/drive_c/Suite/Text Editor.exe";
   suite_prefix +:+ "/drive_c/Suite/viewer.exe"].

(** A descriptor written by hand, with a blank in its file name. *)
Definition blank_script : string := prefixes_dir +:+ "/game-0a1b2c3d4e/My Game.charm".

(** * Properties *)

(** ** The string and path operations on examples *)

Example stem_exe : Pathlib.stem "/games/My Game.exe" = "My Game".
Proof. reflexivity. Qed.

Example stem_charm : Pathlib.stem "/p/X-1/Notepad.charm" = "Notepad".
Proof. reflexivity. Qed.

Example stem_hidden : Pathlib.stem "/home/u/.bashrc" = ".bashrc".
Proof. reflexivity. Qed.

Example split_sep : PyStr.split "||" "/home/u||games/setup.exe" = ["/home/u"; "games/setup.exe"].
Proof. reflexivity. Qed.

Example split_none : PyStr.split "||" "hello" = ["hello"].
Proof. reflexivity. Qed.

Example split_three : PyStr.split "||" "a||b||c" = ["a"; "b"; "c"].
Proof. reflexivity. Qed.

(** ** Facts on the system calls *)

Lemma OS_kill_result target sig table :
  (OS.kill target sig table).1 = Ret () ∨
  ((OS.kill target sig table).1 = Raise ProcessLookupError ∧ (OS.kill target sig table).2 = table) ∨
  ((OS.kill target sig table).1 = Raise PermissionError ∧ (OS.kill target sig table).2 = table).
Proof.
  unfold OS.kill. destruct (List.find _ table) as [p|]; [|auto].
  destruct (OS.owned p); auto.
Qed.

Lemma OS_kill_absent target sig table :
  List.find (λ p, Z.eqb (OS.pid p) target) table = None →
  OS.kill target sig table = (Raise ProcessLookupError, table).
Proof. intros H. unfold OS.kill. by rewrite H. Qed.

Lemma OS_killpg_sig0 group table : (OS.killpg group OS.SIG0 table).2 = table.
Proof.
  unfold OS.killpg. destruct (List.filter _ table); [done|].
  by destruct (existsb _ _).
Qed.

Lemma OS_pgrep_installed full pattern table :
  OS.pgrep true full pattern table = Raise CalledProcessError ∨
  ∃ lines, lines ≠ [] ∧ OS.pgrep true full pattern table = Ret lines.
Proof.
  unfold OS.pgrep. destruct (List.filter _ table); [by left|right].
  eexists; split; [|done]. done.
Qed.

Lemma OS_pgrep_missing full pattern table :
  OS.pgrep false full pattern table = Raise FileNotFoundError.
Proof. reflexivity. Qed.

Lemma kill_attempts_app l1 l2 :
  kill_attempts (l1 ++ l2) = kill_attempts l1 ++ kill_attempts l2.
Proof. apply omap_app. Qed.

Lemma group_signals_app l1 l2 :
  group_signals (l1 ++ l2) = group_signals l1 ++ group_signals l2.
Proof. apply omap_app. Qed.

Lemma launches_app l1 l2 : launches (l1 ++ l2) = launches l1 ++ launches l2.
Proof. apply omap_app. Qed.

Lemma idle_tasks_app l1 l2 : idle_tasks (l1 ++ l2) = idle_tasks l1 ++ idle_tasks l2.
Proof. apply omap_app. Qed.

(** ** The kill-all operation *)

(** The loop of [on_kill_all_clicked] tries every process of its list, in
    order, and comes to its end whatever the single kills answer. *)
Lemma kill_all_loop_spec pids st :
  ∃ st', kill_all_loop pids st = (Ret (), st') ∧
         running_processes st' = running_processes st ∧
         kill_attempts (log st') =
           kill_attempts (log st) ++ List.map (λ p, (p, OS.SIGKILL)) pids.
Proof.
  revert st. induction pids as [|p pids IH]; intros st.
  - exists st. cbn. by rewrite app_nil_r.
  - cbn [kill_all_loop]. unfold_monad. unfold os_kill.
    destruct (OS_kill_result p OS.SIGKILL (procs st)) as [H|[[H _]|[H _]]];
      destruct (OS.kill p OS.SIGKILL (procs st)) as [r table];
      cbn in H; subst r; cbn;
      match goal with |- context [kill_all_loop pids ?s] =>
        destruct (IH s) as (st' & -> & Hreg & Hk) end;
      exists st'; (split; [done|]); cbn in Hreg, Hk; (split; [done|]);
      rewrite Hk, !kill_attempts_app, <- !app_assoc; done.
Qed.



(** With pgrep installed the operation returns, has emptied the
    registry, and has tried the candidates in reverse order. *)
Lemma on_kill_all_clicked_spec E st :
  pgrep_installed E = true →
  ∃ st', on_kill_all_clicked E st = (Ret (), st') ∧
         running_processes st' = ∅ ∧
         kill_attempts (log st') =
           kill_attempts (log st) ++
           match listing E true appname st with
           | [] => []
           | winecharm_pid_lines =>
               List.map (λ p, (p, OS.SIGKILL))
                 (List.rev (kill_all_candidates (List.map fst winecharm_pid_lines)
                              (listing E true "\.exe" st)))
           end.
Proof.
  intros HE. unfold on_kill_all_clicked, check_output_pgrep, listing.
  unfold_monad. cbn [procs log running_processes]. rewrite HE.
  destruct (OS_pgrep_installed true appname (procs st)) as [-> | (wl & Hwl & ->)].
  - cbn. eexists; split; [done|]. cbn. split; [done|].
    by rewrite !kill_attempts_app, !app_nil_r.
  - destruct (OS_pgrep_installed true "\.exe" (procs st)) as [-> | (el & _ & ->)].
    + cbn. eexists; split; [done|]. cbn. split; [done|].
      rewrite !kill_attempts_app. cbn. rewrite !app_nil_r.
      destruct wl; by rewrite app_nil_r.
    + cbn.
      match goal with |- context [kill_all_loop ?l ?s] =>
        destruct (kill_all_loop_spec l s) as (st' & -> & Hreg & Hk) end.
      cbn. eexists; split; [done|]. cbn. split; [done|].
      rewrite !kill_attempts_app, Hk. cbn. rewrite !kill_attempts_app.
      cbn. rewrite !app_nil_r.
      by destruct wl.
Qed.


(** C10. Kill-all leaves the registry empty: it returns whenever pgrep
    can be started, also when a listing fails or kills fail, and every
    return of it leaves no record, whatever the records were. *)
Theorem kill_all_clears_registry E st :
  (pgrep_installed E = true →
   ∃ st', on_kill_all_clicked E st = (Ret (), st') ∧ running_processes st' = ∅) ∧
  (∀ st', on_kill_all_clicked E st = (Ret (), st') → running_processes st' = ∅).
Proof.
  split.
  - intros HE. destruct (on_kill_all_clicked_spec E st HE) as (st' & Hrun & Hreg & _).
    eauto.
  - intros st' Hrun. destruct (pgrep_installed E) eqn:HE.
    + destruct (on_kill_all_clicked_spec E st HE) as (st2 & Hrun2 & Hreg & _).
      congruence.
    + exfalso. revert Hrun. unfold on_kill_all_clicked, check_output_pgrep.
      unfold_monad. rewrite HE. cbn. discriminate.
Qed.




(** C10 at work: no process matches [\.exe], the listing fails, and the
    record made by probing is dropped all the same. *)
Lemma kill_all_clears_registry_witness :
  running_processes game_probed !! "game" = Some (probed_record game_script) ∧
  ∃ st', on_kill_all_clicked desktop game_probed = (Ret (), st') ∧
         running_processes st' = ∅.
Proof.
  split; [vm_compute; reflexivity|].
  apply (proj1 (kill_all_clears_registry desktop game_probed)). reflexivity.
Defined.

(** ** Facts on the monad *)

Lemma logged_logged st l1 l2 : logged (logged st l1) l2 = logged st (l1 ++ l2).
Proof. unfold logged. cbn. by rewrite app_assoc. Qed.

Lemma logged_nil st : logged st [] = st.
Proof. destruct st. unfold logged. cbn. by rewrite app_nil_r. Qed.

Lemma mbind_ret {A B} (c : M A) (k : A → M B) st a st' :
  c st = (Ret a, st') → (c ≫= k) st = k a st'.
Proof. intros H. unfold_monad. by rewrite H. Qed.

Lemma mbind_raise {A B} (c : M A) (k : A → M B) st e st' :
  c st = (Raise e, st') → (c ≫= k) st = (Raise e, st').
Proof. intros H. unfold_monad. by rewrite H. Qed.

(** ** The socket server *)

Ltac decoded H :=
  unfold handle_connection, decode; rewrite H;
  erewrite mbind_ret by reflexivity; cbv beta.


(** A message that does not split into exactly two fields raises
    [ValueError]; nothing is printed and nothing is forwarded. *)
Lemma handle_connection_malformed E received st :
  utf8_valid (PyStr.take 1024 received) = true →
  PyStr.take 1024 received ≠ "" →
  List.length (PyStr.split "||" (PyStr.take 1024 received)) ≠ 2%nat →
  handle_connection E received st = (Raise ValueError, st).
Proof.
  intros Hbytes Hne Hlen. decoded Hbytes.
  apply String.eqb_neq in Hne. rewrite Hne.
  destruct (PyStr.split "||" (PyStr.take 1024 received)) as [|a [|b [|c l]]]; try done.
Qed.



(** Every matched path that exists is handed to the main loop once, in
    the order of the match. *)
Lemma forward_paths_spec E paths st :
  ∃ events,
    forward_paths E paths st = (Ret (), logged st events) ∧
    idle_tasks events = process_cli_file_task <$> List.filter (path_exists E) paths.
Proof.
  revert st. induction paths as [|p paths IH]; intros st.
  - exists []. by rewrite logged_nil.
  - cbn [forward_paths List.filter]. unfold_monad. destruct (path_exists E p); cbn.
    + match goal with |- context [forward_paths E paths ?s] =>
        destruct (IH s) as (events & -> & Hidle) end.
      eexists (_ :: _ :: events). split.
      * f_equal. unfold logged. cbn. by rewrite <- !app_assoc.
      * unfold idle_tasks in *. cbn. by rewrite Hidle.
    + match goal with |- context [forward_paths E paths ?s] =>
        destruct (IH s) as (events & -> & Hidle) end.
      eexists (_ :: events). split.
      * f_equal. unfold logged. cbn. by rewrite <- !app_assoc.
      * unfold idle_tasks in *. cbn. by rewrite Hidle.
Qed.

(** A request for a directory that is not there is dropped with a
    diagnostic. *)
Lemma handle_connection_directory_missing E received cwd file_path st :
  utf8_valid (PyStr.take 1024 received) = true →
  PyStr.take 1024 received ≠ "" →
  PyStr.split "||" (PyStr.take 1024 received) = [cwd; file_path] →
  let search_path :=
    Pathlib.joinpath cwd (PyStr.join "/" (List.removelast (PyStr.split "/" file_path))) in
  path_exists E search_path = false →
  handle_connection E received st =
    (Ret (), logged st [EvPrint [Txt "Directory does not exist: "; Txt search_path]]).
Proof.
  intros Hbytes Hne Hsplit search_path Hmissing. decoded Hbytes.
  apply String.eqb_neq in Hne. rewrite Hne, Hsplit. fold search_path.
  by rewrite Hmissing.
Qed.

(** A pattern that matches nothing is dropped with a diagnostic. *)
Lemma handle_connection_no_match E received cwd file_path st :
  utf8_valid (PyStr.take 1024 received) = true →
  PyStr.take 1024 received ≠ "" →
  PyStr.split "||" (PyStr.take 1024 received) = [cwd; file_path] →
  let pattern := List.last (PyStr.split "/" file_path) "" in
  let search_path :=
    Pathlib.joinpath cwd (PyStr.join "/" (List.removelast (PyStr.split "/" file_path))) in
  path_exists E search_path = true →
  pattern ≠ "" →
  path_glob E search_path pattern = [] →
  handle_connection E received st =
    (Ret (), logged st [EvPrint [Txt "No files matched the pattern: "; Txt file_path]]).
Proof.
  intros Hbytes Hne Hsplit pattern search_path Hdir Hpat Hglob. decoded Hbytes.
  apply String.eqb_neq in Hne. apply String.eqb_neq in Hpat.
  rewrite Hne, Hsplit. fold search_path pattern.
  by rewrite Hdir, Hpat, Hglob.
Qed.

(** A well-formed request returns, and hands each resolved path that
    exists to the main loop through [GLib.idle_add]. *)
Lemma handle_connection_forwards E received cwd file_path st :
  utf8_valid (PyStr.take 1024 received) = true →
  PyStr.take 1024 received ≠ "" →
  PyStr.split "||" (PyStr.take 1024 received) = [cwd; file_path] →
  let pattern := List.last (PyStr.split "/" file_path) "" in
  let search_path :=
    Pathlib.joinpath cwd (PyStr.join "/" (List.removelast (PyStr.split "/" file_path))) in
  path_exists E search_path = true →
  pattern ≠ "" →
  ∃ events,
    handle_connection E received st = (Ret (), logged st events) ∧
    idle_tasks events =
      process_cli_file_task <$> List.filter (path_exists E) (path_glob E search_path pattern).
Proof.
  intros Hbytes Hne Hsplit pattern search_path Hdir Hpat. decoded Hbytes.
  apply String.eqb_neq in Hne. apply String.eqb_neq in Hpat.
  rewrite Hne, Hsplit. fold search_path pattern.
  rewrite Hdir, Hpat. cbn [negb].
  destruct (path_glob E search_path pattern) as [|p paths] eqn:Hglob.
  - by eexists [_].
  - apply forward_paths_spec.
Qed.

(** The scenario of the specification: the one file is resolved and
    forwarded once. *)
Example gateway_scenario :
  handle_connection desktop "/home/u||games/setup.exe" idle =
    (Ret (),
     logged idle [EvPrint [Txt "Resolved absolute file path: "; Txt "/home/u/games/setup.exe"];
                  EvIdleAdd (process_cli_file_task "/home/u/games/setup.exe")]).
Proof. reflexivity. Qed.

(** C9. The message [hello] has no separator: the unpacking of
    [message.split("||")] raises [ValueError], nothing is printed, and
    the accept loop ends, so the well-formed request that follows, which
    the loop forwards when it comes alone, is never served. *)
Theorem accept_loop_ends_on_malformed_message :
  handle_connection desktop "hello" idle = (Raise ValueError, idle) ∧
  accept_loop desktop ["hello"; "/home/u||games/setup.exe"] idle = (Raise ValueError, idle) ∧
  accept_loop desktop ["/home/u||games/setup.exe"] idle =
    (Ret (),
     logged idle [EvPrint [Txt "Resolved absolute file path: "; Txt "/home/u/games/setup.exe"];
                  EvIdleAdd (process_cli_file_task "/home/u/games/setup.exe")]).
Proof. repeat split; reflexivity. Qed.

(** ** The client side of [main] *)

(** C8. An invocation with a file argument that finds the socket file and
    connects to it sends the one message [cwd||file] and ends, with the
    outcome of the send: its only calls on the socket are [connect] and
    [sendall]; it never starts the socket server, binds nothing and never
    runs the application. *)
Theorem main_hands_off_to_running_instance E file cwd st :
  file ≠ "" →
  socket_file_exists E = true →
  connect_result E = Ret () →
  sendall_result E ≠ Raise ConnectionRefusedError →
  main E (Some file) cwd st =
    (sendall_result E,
     logged st ([EvSocket (socket_connect (Ret ()));
                 EvSocket (socket_sendall (cwd +:+ "||" +:+ file) (sendall_result E))]
                ++ match sendall_result E with
                   | Ret _ => [EvPrint [Txt "Sent file path to existing instance: "; Txt file]]
                   | Raise _ => []
                   end)) ∧
  socket_actions (log (main E (Some file) cwd st).2) =
    socket_actions (log st)
    ++ [socket_connect (Ret ());
        socket_sendall (cwd +:+ "||" +:+ file) (sendall_result E)].
Proof.
  intros Hfile Hsock Hconn Hsend.
  assert (main E (Some file) cwd st =
    (sendall_result E,
     logged st ([EvSocket (socket_connect (Ret ()));
                 EvSocket (socket_sendall (cwd +:+ "||" +:+ file) (sendall_result E))]
                ++ match sendall_result E with
                   | Ret _ => [EvPrint [Txt "Sent file path to existing instance: "; Txt file]]
                   | Raise _ => []
                   end))) as Hrun.
  { unfold main, client_connect, client_sendall.
    apply String.eqb_neq in Hfile. rewrite Hfile, Hsock, Hconn.
    destruct (sendall_result E) as [[]|e] eqn:Hresult.
    - unfold_monad. cbn. unfold logged. by rewrite <- !app_assoc.
    - assert (is_a ConnectionRefusedError e = false) as Hother by (by destruct e).
      unfold_monad. rewrite Hother. cbn. unfold logged. by rewrite <- !app_assoc. }
  split; [exact Hrun|]. rewrite Hrun. cbn [snd log logged].
  unfold socket_actions. rewrite omap_app. f_equal.
  by destruct (sendall_result E).
Qed.

(** C8 at work on the request of the specification's scenario. *)
Lemma main_hands_off_witness :
  main desktop (Some "games/setup.exe") "/home/u" idle =
    (Ret (),
     logged idle [EvSocket (socket_connect (Ret ()));
                  EvSocket (socket_sendall "/home/u||games/setup.exe" (Ret ()));
                  EvPrint [Txt "Sent file path to existing instance: ";
                           Txt "games/setup.exe"]]).
Proof.
  apply (main_hands_off_to_running_instance desktop "games/setup.exe" "/home/u" idle);
    [discriminate | reflexivity | reflexivity | discriminate].
Defined.

(** C8 as stated fails: the socket file is there and the instance behind
    it answers, but the invocation names no file. [main] tests the socket
    only under [if args.file]: it makes no call on the socket and goes on
    to start its own instance, whose server thread unlinks the socket
    file of the running instance and binds the path. *)
Lemma main_without_file_binds_the_socket :
  socket_file_exists desktop = true ∧
  connect_result desktop = Ret () ∧
  main desktop None "/home/u" idle =
    (Ret (), logged idle [EvSocket start_socket_server; EvUi app_run]) ∧
  server_thread desktop [] idle =
    (Ret (), logged idle [EvSocket socket_unlink; EvSocket socket_bind;
                          EvSocket socket_listen]).
Proof. repeat split; reflexivity. Qed.

(** ** Launching *)

(** C2. When the executable recorded in the descriptor is not on disk,
    [launch_script] shows the dialog that offers to locate it and
    returns: no process is started and the registry, like the process
    table, is as before. *)
Theorem launch_target_missing E script button d st :
  charm_file E script = Some (Ret d) →
  path_exists E (exe_file d) = false →
  launch_script E script button st =
    (Ret (),
     logged st [EvPrint [Txt "Launching script "; Txt script];
                EvUi (show_exe_not_found_dialog (Pathlib.name (exe_file d)) (exe_file d) script)]) ∧
  running_processes (launch_script E script button st).2 = running_processes st ∧
  procs (launch_script E script button st).2 = procs st ∧
  launches (log (launch_script E script button st).2) = launches (log st).
Proof.
  intros Hd Hmissing.
  assert (launch_script E script button st =
    (Ret (),
     logged st [EvPrint [Txt "Launching script "; Txt script];
                EvUi (show_exe_not_found_dialog (Pathlib.name (exe_file d)) (exe_file d) script)]))
    as ->.
  { unfold launch_script, extract_yaml_info. rewrite Hd. unfold_monad. cbn.
    rewrite Hmissing. cbn. unfold logged. by rewrite <- !app_assoc. }
  repeat split. cbn. by rewrite launches_app, app_nil_r.
Qed.

(** C2 at work on the scenario of the specification: the executable
    [/tmp/app.exe] is not there. *)
Lemma launch_target_missing_witness :
  launch_script desktop app_script (Some (script_button app_script)) idle =
    (Ret (),
     logged idle [EvPrint [Txt "Launching script "; Txt app_script];
                  EvUi (show_exe_not_found_dialog "app.exe" "/tmp/app.exe" app_script)]) ∧
  running_processes
    (launch_script desktop app_script (Some (script_button app_script)) idle).2 = ∅.
Proof.
  destruct (launch_target_missing desktop app_script (Some (script_button app_script))
              app_descriptor idle)
    as (Hrun & Hreg & _); [vm_compute; reflexivity | vm_compute; reflexivity |].
  split; [exact Hrun | exact Hreg].
Defined.

(** ** The prober *)

Lemma OS_killpg_result group sig table :
  (OS.killpg group sig table).1 = Ret () ∨
  (OS.killpg group sig table).1 = Raise ProcessLookupError ∨
  (OS.killpg group sig table).1 = Raise PermissionError.
Proof.
  unfold OS.killpg. destruct (List.filter _ table); [auto|].
  destruct (existsb _ _); auto.
Qed.

Lemma state_safe_lookup E st k r :
  state_safe E st = true →
  running_processes st !! k = Some r →
  probe_safe E (procs st) r = true.
Proof.
  unfold state_safe. rewrite List.forallb_forall. intros Hall Hk.
  apply (Hall (k, r)). apply list_elem_of_In. by apply elem_of_map_to_list.
Qed.

(** The order of the prober's decision: where it raises nothing, [probe]
    returns the verdict, and schedules nothing itself. *)
Lemma probe_spec E r st :
  probe_safe E (procs st) r = true →
  ∃ events,
    probe E r st = (Ret (verdict E (procs st) r), logged st events) ∧
    idle_tasks events = [].
Proof.
  unfold probe_safe, probe, verdict. unfold_monad.
  destruct (match proc r with Some child => poll_finished child (procs st) | None => false end).
  { intros _. exists []. by rewrite logged_nil. }
  destruct (script r) as [s|]; [|done].
  cbn [orb]. destruct (pgid r) as [group|].
  - intros Hgroup. unfold os_killpg.
    pose proof (OS_killpg_sig0 group (procs st)) as Htable.
    destruct (OS_killpg_result group OS.SIG0 (procs st)) as [H|[H|H]];
      rewrite H in Hgroup; [| |done];
      destruct (OS.killpg group OS.SIG0 (procs st)) as [res table];
      cbn in H, Htable; subst res table; cbn; by eexists [_].
  - intros HE. unfold check_output_pgrep. unfold_monad. cbn [procs]. rewrite HE.
    destruct (OS_pgrep_installed true (probe_pattern s) (procs st))
      as [-> | (lines & Hlines & ->)]; cbn.
    + by eexists [_].
    + destruct lines; [done|]. by eexists [_].
Qed.

Lemma monitor_scan_spec E keys acc st :
  state_safe E st = true →
  ∃ events,
    monitor_scan E keys acc st =
      (Ret (acc ++ List.filter
                     (λ k, match running_processes st !! k with
                           | Some r => verdict E (procs st) r
                           | None => false
                           end) keys),
       logged st events) ∧
    idle_tasks events = [].
Proof.
  intros Hsafe. revert acc st Hsafe.
  induction keys as [|k keys IH]; intros acc st Hsafe.
  - exists []. cbn. by rewrite logged_nil, app_nil_r.
  - cbn [monitor_scan List.filter]. unfold_monad.
    destruct (running_processes st !! k) as [r|] eqn:Hk.
    + destruct (probe_spec E r st (state_safe_lookup _ _ _ _ Hsafe Hk)) as (ev1 & -> & Hev1).
      destruct (IH (if verdict E (procs st) r then acc ++ [k] else acc) (logged st ev1))
        as (ev2 & Hscan & Hev2); [done|].
      cbn [running_processes procs logged] in Hscan. rewrite Hscan.
      exists (ev1 ++ ev2). rewrite logged_logged. split.
      * f_equal. f_equal. destruct (verdict E (procs st) r); [|done].
        by rewrite <- app_assoc.
      * by rewrite idle_tasks_app, Hev1, Hev2.
    + apply IH, Hsafe.
Qed.

Lemma idle_add_process_ended_spec finished st :
  idle_add_process_ended finished st =
    (Ret (), logged st (EvIdleAdd ∘ process_ended_task <$> finished)).
Proof.
  revert st. induction finished as [|k l IH]; intros st.
  - cbn. by rewrite logged_nil.
  - cbn. unfold_monad. rewrite IH. f_equal. unfold logged. cbn.
    by rewrite <- app_assoc.
Qed.

Lemma idle_tasks_process_ended finished :
  idle_tasks (EvIdleAdd ∘ process_ended_task <$> finished) = process_ended_task <$> finished.
Proof.
  induction finished as [|k l IH]; [done|]. cbn. unfold idle_tasks in IH. by rewrite IH.
Qed.

(** One turn of the prober changes neither the registry nor the process
    table: it hands [process_ended] to the main loop for every record it
    finds finished, and for no other. *)
Lemma monitor_cycle_spec E st :
  state_safe E st = true →
  ∃ events,
    monitor_cycle E st = (Ret (), logged st events) ∧
    idle_tasks events = process_ended_task <$> finished_now E st.
Proof.
  intros Hsafe. unfold monitor_cycle. unfold_monad. cbn [running_processes].
  destruct (monitor_scan_spec E (List.map fst (map_to_list (running_processes st))) []
              (logged st [EvSleep 3])) as (ev & Hscan & Hev); [done|].
  unfold logged in Hscan at 1. rewrite Hscan.
  rewrite idle_add_process_ended_spec, !logged_logged.
  eexists. split; [done|].
  rewrite !idle_tasks_app, Hev, idle_tasks_process_ended. done.
Qed.

Lemma finished_now_elem E st k r :
  running_processes st !! k = Some r →
  verdict E (procs st) r = true →
  k ∈ finished_now E st.
Proof.
  intros Hk Hv. unfold finished_now. rewrite list_elem_of_In, List.filter_In.
  split.
  - rewrite <- list_elem_of_In. apply list_elem_of_fmap. exists (k, r).
    split; [done|]. by apply elem_of_map_to_list.
  - by rewrite Hk.
Qed.

(** The loop goes through all its turns as long as every state it meets
    can be probed without an exception. *)
Lemma monitor_processes_spec E others st :
  (∀ other s, other ∈ others → state_safe E (other s) = true) →
  ∃ st', monitor_processes E others st = (Ret (), st').
Proof.
  revert st. induction others as [|other others IH]; intros st Hsafe.
  - by exists st.
  - cbn [monitor_processes].
    destruct (monitor_cycle_spec E (other st)) as (events & Hcycle & _).
    { apply Hsafe. by left. }
    erewrite mbind_ret by reflexivity.
    erewrite mbind_ret by exact Hcycle.
    apply IH. intros o s Ho. apply Hsafe. by right.
Qed.

(** ** Computations that only add certain events *)

Section only_emits.
Context (Q : event → Prop).

Lemma only_emits_ret {A} (a : A) : only_emits Q (mret a).
Proof. intros st. exists []. by rewrite app_nil_r. Qed.

Lemma only_emits_raise {A} (e : exn) : only_emits Q (raise e : M A).
Proof. intros st. exists []. by rewrite app_nil_r. Qed.

Lemma only_emits_emit e : Q e → only_emits Q (emit e).
Proof. intros He st. exists [e]. split; [done|]. by constructor. Qed.

Lemma only_emits_registry_contains k : only_emits Q (registry_contains k).
Proof. intros st. exists []. by rewrite app_nil_r. Qed.

Lemma only_emits_registry_insert k r : only_emits Q (registry_insert k r).
Proof. intros st. exists []. by rewrite app_nil_r. Qed.

Lemma only_emits_registry_pop k : only_emits Q (registry_pop k).
Proof. intros st. exists []. by rewrite app_nil_r. Qed.

Lemma only_emits_bind {A B} (c : M A) (k : A → M B) :
  only_emits Q c → (∀ a, only_emits Q (k a)) → only_emits Q (c ≫= k).
Proof.
  intros Hc Hk st. destruct (Hc st) as (ev1 & Hlog1 & HQ1).
  unfold_monad. destruct (c st) as [[a|e] st1]; cbn in *.
  - destruct (Hk a st1) as (ev2 & Hlog2 & HQ2).
    exists (ev1 ++ ev2). rewrite Hlog2, Hlog1, app_assoc. split; [done|].
    by apply Forall_app.
  - by exists ev1.
Qed.

Lemma only_emits_try_except {A} (c : M A) handled (h : exn → M A) :
  only_emits Q c → (∀ e, only_emits Q (h e)) → only_emits Q (try_except c handled h).
Proof.
  intros Hc Hh st. destruct (Hc st) as (ev1 & Hlog1 & HQ1).
  unfold try_except. destruct (c st) as [[a|e] st1]; cbn in *.
  - by exists ev1.
  - destruct (handled e); [|by exists ev1].
    destruct (Hh e st1) as (ev2 & Hlog2 & HQ2).
    exists (ev1 ++ ev2). rewrite Hlog2, Hlog1, app_assoc. split; [done|].
    by apply Forall_app.
Qed.

Lemma only_emits_os_kill target sig :
  (∀ r, Q (EvKill target sig r)) → only_emits Q (os_kill target sig).
Proof.
  intros HQ st. unfold os_kill. destruct (OS.kill target sig (procs st)) as [r table].
  exists [EvKill target sig r]. split; [done|]. by constructor.
Qed.

Lemma only_emits_check_output_pgrep E full pattern :
  Q (EvPgrep full pattern) → only_emits Q (check_output_pgrep E full pattern).
Proof.
  intros HQ st. exists [EvPgrep full pattern]. split; [done|]. by constructor.
Qed.

Lemma only_emits_lift_outcome {A} (r : outcome A) : only_emits Q (lift_outcome r).
Proof. intros st. exists []. by rewrite app_nil_r. Qed.

Lemma only_emits_extract_yaml_info E script : only_emits Q (extract_yaml_info E script).
Proof.
  unfold extract_yaml_info. destruct (charm_file E script).
  - apply only_emits_lift_outcome.
  - apply only_emits_raise.
Qed.

End only_emits.

Ltac emits_step :=
  first
    [ apply only_emits_bind; [|intros ?]
    | apply only_emits_try_except; [|intros ?]
    | apply only_emits_ret
    | apply (only_emits_ret _ ())
    | apply only_emits_raise
    | apply only_emits_registry_contains
    | apply only_emits_registry_insert
    | apply only_emits_registry_pop
    | apply only_emits_lift_outcome
    | apply only_emits_extract_yaml_info
    | apply only_emits_os_kill; done
    | apply only_emits_check_output_pgrep; done
    | apply only_emits_emit; done
    | match goal with
      | |- only_emits _ (match ?x with _ => _ end) => destruct x
      end ].

Ltac emits := repeat (unfold print, ui; emits_step).

Lemma harmless_launches events : Forall harmless events → launches events = [].
Proof.
  induction 1 as [|e events He _ IH]; [done|].
  unfold launches in *. cbn. rewrite IH. by destruct e.
Qed.

Lemma harmless_group_signals events : Forall harmless events → group_signals events = [].
Proof.
  induction 1 as [|e events He _ IH]; [done|].
  unfold group_signals in *. cbn. rewrite IH. by destruct e.
Qed.

(** ** Computations that keep a property of the registry *)

Section keeps.
Context (P : gmap string RunRecord → Prop).

Lemma keeps_ret {A} (a : A) : keeps P (mret a).
Proof. by intros st. Qed.

Lemma keeps_raise {A} (e : exn) : keeps P (raise e : M A).
Proof. by intros st. Qed.

Lemma keeps_emit e : keeps P (emit e).
Proof. by intros st. Qed.

Lemma keeps_registry_contains k : keeps P (registry_contains k).
Proof. by intros st. Qed.

Lemma keeps_registry_insert k r :
  (∀ reg, P reg → P (<[k := r]> reg)) → keeps P (registry_insert k r).
Proof. intros H st. apply H. Qed.

Lemma keeps_bind {A B} (c : M A) (k : A → M B) :
  keeps P c → (∀ a, keeps P (k a)) → keeps P (c ≫= k).
Proof.
  intros Hc Hk st HP. specialize (Hc st HP). unfold_monad.
  destruct (c st) as [[a|e] st1]; cbn in *; [by apply Hk|done].
Qed.

Lemma keeps_try_except {A} (c : M A) handled (h : exn → M A) :
  keeps P c → (∀ e, keeps P (h e)) → keeps P (try_except c handled h).
Proof.
  intros Hc Hh st HP. specialize (Hc st HP). unfold try_except.
  destruct (c st) as [[a|e] st1]; cbn in *; [done|].
  destruct (handled e); [by apply Hh|done].
Qed.

Lemma keeps_os_kill target sig : keeps P (os_kill target sig).
Proof. intros st HP. unfold os_kill. by destruct (OS.kill _ _ _). Qed.

Lemma keeps_check_output_pgrep E full pattern : keeps P (check_output_pgrep E full pattern).
Proof. by intros st. Qed.

Lemma keeps_lift_outcome {A} (r : outcome A) : keeps P (lift_outcome r).
Proof. by intros st. Qed.

Lemma keeps_extract_yaml_info E script : keeps P (extract_yaml_info E script).
Proof. unfold extract_yaml_info. by destruct (charm_file E script); intros st. Qed.

End keeps.

Ltac keeps_step :=
  first
    [ apply keeps_bind; [|intros ?]
    | apply keeps_try_except; [|intros ?]
    | apply keeps_ret
    | apply (keeps_ret _ ())
    | apply keeps_raise
    | apply keeps_registry_contains
    | apply keeps_lift_outcome
    | apply keeps_extract_yaml_info
    | apply keeps_os_kill
    | apply keeps_check_output_pgrep
    | apply keeps_emit
    | match goal with
      | |- keeps _ (match ?x with _ => _ end) => destruct x
      end ].

Ltac keeps_all := repeat (unfold print, ui; keeps_step).

(** ** The rows that [find_button_by_script_stem] returns *)

Lemma find_button_by_script_stem_row flowbox_children script_stem button :
  find_button_by_script_stem flowbox_children script_stem = Ret (Some button) →
  button ∈ flowbox_children.
Proof.
  induction flowbox_children as [|child rest IH]; [done|].
  cbn [find_button_by_script_stem]. intros Hfound.
  destruct (script_label_of child) as [[script_label|]|e]; [| |done].
  - destruct (Gtk.get_text script_label) as [text|e]; [|done].
    destruct (String.eqb _ _).
    + injection Hfound as <-. by left.
    + right. by apply IH.
  - right. by apply IH.
Qed.

(** A row of the flow box holds one widget at most, which has no
    sibling: the call of [set_child] raises. *)
Lemma set_play_button_child_row held st :
  set_play_button_child (Gtk.FlowBoxChild held) st = (Raise AttributeError, st).
Proof. by destruct held. Qed.

Lemma set_play_button_child_state button st : (set_play_button_child button st).2 = st.
Proof.
  unfold set_play_button_child, Gtk.sibling_of_first_child. unfold_monad.
  destruct (Gtk.children button) as [|first [|play_button siblings]]; [done..|].
  cbn. by destruct (Gtk.has_set_child play_button).
Qed.

Lemma flowbox_row_found E script_stem button :
  find_button_by_script_stem (flowbox_rows E) script_stem = Ret (Some button) →
  ∃ held, button = Gtk.FlowBoxChild held.
Proof.
  intros Hfound. apply find_button_by_script_stem_row in Hfound.
  apply list_elem_of_In, List.in_map_iff in Hfound as (held & <- & _). eauto.
Qed.

(** ** The re-scan of related scripts writes nothing *)

Lemma only_queries_ret {A} (a : A) : only_queries (mret a).
Proof. intros st. exists []. by rewrite logged_nil. Qed.

Lemma only_queries_bind {A B} (c : M A) (k : A → M B) :
  only_queries c → (∀ a, only_queries (k a)) → only_queries (c ≫= k).
Proof.
  intros Hc Hk st. destruct (Hc st) as (ev1 & Hst1 & Hev1).
  unfold_monad. destruct (c st) as [[a|e] st1]; cbn in *; subst st1.
  - destruct (Hk a (logged st ev1)) as (ev2 & -> & Hev2).
    exists (ev1 ++ ev2). rewrite logged_logged. split; [done|]. by apply Forall_app.
  - by exists ev1.
Qed.

Lemma update_related_script_queries E prefix script :
  only_queries (update_related_script E prefix script).
Proof.
  intros st. unfold update_related_script, extract_yaml_info.
  destruct (charm_file E script) as [[d|e]|];
    [|exists []; by rewrite logged_nil..].
  erewrite mbind_ret by reflexivity.
  destruct (String.eqb (wineprefix d) prefix); [|exists []; by rewrite logged_nil].
  exists [EvPgrep false (exe_name_upto_fifteen_chars d)]. split; [|by repeat constructor].
  unfold try_except, check_output_pgrep. unfold_monad. cbn [procs logged].
  destruct (OS.pgrep _ _ _ _) as [[|line lines]|e]; [done| |by destruct (is_a _ e)].
  destruct (find_button_by_script_stem (flowbox_rows E) (Pathlib.stem script))
    as [[button|]|e] eqn:Hfound; [|done|by destruct (is_a _ e)].
  destruct (flowbox_row_found E _ _ Hfound) as [held ->].
  by rewrite set_play_button_child_row.
Qed.

Lemma update_related_scripts_loop_queries E prefix scripts :
  only_queries (update_related_scripts_loop E prefix scripts).
Proof.
  induction scripts as [|script scripts IH]; cbn [update_related_scripts_loop].
  - apply only_queries_ret.
  - apply only_queries_bind; [apply update_related_script_queries|intros; apply IH].
Qed.

Lemma is_pgrep_harmless events : Forall is_pgrep events → Forall harmless events.
Proof. intros Hev. eapply Forall_impl; [exact Hev|]. by intros []. Qed.

Lemma is_pgrep_signal_free events : Forall is_pgrep events → Forall signal_free events.
Proof. intros Hev. eapply Forall_impl; [exact Hev|]. by intros []. Qed.

Lemma only_queries_keeps P {A} (c : M A) : only_queries c → keeps P c.
Proof. intros Hc st HP. by destruct (Hc st) as (events & -> & _). Qed.

Lemma only_queries_quiet {A} (c : M A) : only_queries c → quiet c.
Proof.
  intros Hc st. destruct (Hc st) as (events & -> & Hev). split; [done|].
  exists events. split; [done|]. by apply is_pgrep_signal_free.
Qed.

(** ** Terminating *)

Lemma update_related_scripts_loop_harmless E prefix scripts :
  only_emits harmless (update_related_scripts_loop E prefix scripts).
Proof.
  intros st. destruct (update_related_scripts_loop_queries E prefix scripts st)
    as (events & -> & Hev).
  exists events. split; [done|]. by apply is_pgrep_harmless.
Qed.

Lemma terminate_kill_loop_harmless E script prefix winecharm_pids pids :
  only_emits harmless (terminate_kill_loop E script prefix winecharm_pids pids).
Proof.
  induction pids as [|p pids IH]; cbn [terminate_kill_loop].
  - emits.
  - apply only_emits_bind; [|intros; apply IH].
    emits. apply update_related_scripts_loop_harmless.
Qed.

(** [terminate_script] never starts a process and never signals a
    process group: its signals go to single processes. *)
Lemma terminate_script_harmless E script :
  only_emits harmless (terminate_script E script).
Proof.
  unfold terminate_script. emits.
  apply terminate_kill_loop_harmless.
Qed.

Lemma terminate_script_never_signals_a_group E script st :
  group_signals (log (terminate_script E script st).2) = group_signals (log st).
Proof.
  destruct (terminate_script_harmless E script st) as (events & -> & Hev).
  by rewrite group_signals_app, (harmless_group_signals events), app_nil_r.
Qed.

(** C5. The game is started by the toggle, its shell 51 leading the new
    group 51, in which the game 52 and a worker 53 of the compatibility
    layer run. The toggle that stops it kills process 52, which pgrep
    lists for [game] and which is not the supervisor's, and sends no
    signal to the group: the shell, taken for a process of the supervisor
    because its command line names the prefix, and the worker are alive
    afterwards. *)
Theorem terminate_script_spares_the_process_group :
  let stopped := (on_clicked desktop (launch_option game_script) game_with_worker).2 in
  running_processes game_with_worker !! "game" = Some (launched_record 51 51 game_script) ∧
  List.map OS.pid (List.filter (λ p, Z.eqb (OS.pgid p) 51) (procs game_with_worker))
    = [51; 52; 53] ∧
  kill_attempts (log stopped) = [(52, OS.SIGKILL)] ∧
  group_signals (log stopped) = [] ∧
  List.map OS.pid (List.filter (λ p, Z.eqb (OS.pgid p) 51) (procs stopped)) = [51; 53].
Proof. vm_compute. repeat split; reflexivity. Qed.

(** [stop_script], which nothing calls, does signal the group, and then
    fails on its call of [reset_buttons]. *)
Example stop_script_signals_the_group :
  let stopped := stop_script (running_processes game_with_worker !! "game") game_with_worker in
  stopped.1 = Raise TypeError ∧
  group_signals (log stopped.2) = [(51, OS.SIGKILL)] ∧
  List.filter (λ p, Z.eqb (OS.pgid p) 51) (procs stopped.2) = [].
Proof. vm_compute. repeat split; reflexivity. Qed.

(** Without a record, [terminate_script] reports and does nothing
    else. *)
Lemma terminate_script_absent E script st :
  running_processes st !! Pathlib.stem script = None →
  terminate_script E script st =
    (Ret (), logged st [EvPrint [Txt "Terminating script: "; Txt script];
                        EvPrint [Txt "No running process found for "; Txt script]]).
Proof.
  intros Hnone. unfold terminate_script. unfold_monad. cbn [running_processes].
  rewrite bool_decide_eq_false_2 by (rewrite Hnone; by intros [? ?]).
  unfold logged. cbn. by rewrite <- app_assoc.
Qed.

(** A process that is gone when its turn comes is passed over. *)
Lemma terminate_kill_loop_process_gone E script prefix winecharm_pids target rest st :
  target ∉ winecharm_pids →
  List.find (λ p, Z.eqb (OS.pid p) target) (procs st) = None →
  terminate_kill_loop E script prefix winecharm_pids (target :: rest) st =
    terminate_kill_loop E script prefix winecharm_pids rest
      (logged st [EvKill target OS.SIGKILL (Raise ProcessLookupError)]).
Proof.
  intros Hnotin Hgone. cbn [terminate_kill_loop].
  rewrite bool_decide_eq_false_2 by done.
  unfold_monad. unfold os_kill. by rewrite OS_kill_absent.
Qed.

(** The re-scan of related scripts never writes the registry, and
    neither does the loop over the processes to kill. *)
Lemma update_related_scripts_loop_keeps P E prefix scripts :
  keeps P (update_related_scripts_loop E prefix scripts).
Proof. apply only_queries_keeps, update_related_scripts_loop_queries. Qed.

Lemma terminate_kill_loop_keeps P E script prefix winecharm_pids pids :
  keeps P (terminate_kill_loop E script prefix winecharm_pids pids).
Proof.
  induction pids as [|p pids IH]; cbn [terminate_kill_loop].
  - keeps_all.
  - apply keeps_bind; [|intros; apply IH].
    keeps_all. apply update_related_scripts_loop_keeps.
Qed.

(** Whatever a call of [terminate_script] does, whether it returns or
    raises, the registry it leaves is the one it found without the
    record of the stem. *)
Lemma terminate_script_registry E script st :
  running_processes (terminate_script E script st).2 =
    delete (Pathlib.stem script) (running_processes st).
Proof.
  unfold terminate_script.
  erewrite mbind_ret by reflexivity.
  erewrite mbind_ret by reflexivity.
  case_bool_decide as Hpresent.
  - erewrite mbind_ret by reflexivity.
    match goal with |- context [(?c ?s).2] =>
      enough (keeps (λ reg, reg = delete (Pathlib.stem script) (running_processes st)) c)
        as Hkeeps
    end.
    { by apply Hkeeps. }
    cbn [running_processes logged].
    keeps_all. apply terminate_kill_loop_keeps.
  - cbn. symmetry. apply delete_id.
    destruct (running_processes st !! Pathlib.stem script) eqn:H; [|done].
    exfalso. apply Hpresent. eauto.
Qed.

(** A second call in a row is the reported no-op, whatever the first
    call did. *)
Lemma terminate_script_again E script st :
  let st1 := (terminate_script E script st).2 in
  terminate_script E script st1 =
    (Ret (), logged st1 [EvPrint [Txt "Terminating script: "; Txt script];
                         EvPrint [Txt "No running process found for "; Txt script]]).
Proof.
  intros st1. apply terminate_script_absent. subst st1.
  rewrite terminate_script_registry. apply lookup_delete_eq.
Qed.

(** C6. The game runs, and so does a process of another user whose
    command line holds the word game. [terminate_script] finds both in
    the listing for [game]: it kills the game, and the kill of the
    foreign process is answered by permission-denied, which neither the
    handler around the kill (process-not-found) nor the handler around
    the listing catches: the call raises [PermissionError]. The record is
    gone all the same, and the next call is the reported no-op. *)
Theorem terminate_script_raises_on_foreign_process :
  let first := terminate_script desktop game_script game_beside_gamemoded in
  running_processes game_beside_gamemoded !! "game" = Some (launched_record 51 51 game_script) ∧
  listing desktop true "game" game_beside_gamemoded =
    [(51, OS.cmdline (shell_process 51 (launch_command game_descriptor)));
     (52, "game.exe"); (60, "/usr/bin/gamemoded -d")] ∧
  first.1 = Raise PermissionError ∧
  kill_attempts (log first.2) = [(52, OS.SIGKILL); (60, OS.SIGKILL)] ∧
  List.last (log first.2) (EvSleep 0) = EvKill 60 OS.SIGKILL (Raise PermissionError) ∧
  running_processes first.2 = ∅ ∧
  terminate_script desktop game_script first.2 =
    (Ret (), logged first.2 [EvPrint [Txt "Terminating script: "; Txt game_script];
                             EvPrint [Txt "No running process found for "; Txt game_script]]).
Proof. vm_compute. repeat split; reflexivity. Qed.

(** ** The toggle *)

Lemma toggle_play_stop_stops E script button st :
  is_Some (running_processes st !! Pathlib.stem script) →
  toggle_play_stop E script button st =
    (print [Txt "Stopping script: "; Txt (Pathlib.stem script)];;
     terminate_script E script;;
     ui (set_play_stop_icon "media-playback-start-symbolic" "Play")) st.
Proof.
  intros Hsome. unfold toggle_play_stop.
  unfold mbind at 1. unfold M_bind, bind at 1. unfold registry_contains.
  by rewrite bool_decide_eq_true_2.
Qed.

Lemma toggle_play_stop_launches E script button st :
  running_processes st !! Pathlib.stem script = None →
  toggle_play_stop E script button st =
    (print [Txt "Starting script: "; Txt (Pathlib.stem script)];;
     launch_script E script button;;
     ui (set_play_stop_icon "media-playback-stop-symbolic" "Stop")) st.
Proof.
  intros Hnone. unfold toggle_play_stop.
  unfold mbind at 1. unfold M_bind, bind at 1. unfold registry_contains.
  rewrite bool_decide_eq_false_2; [done|]. rewrite Hnone. by intros [? ?].
Qed.

Lemma stop_path_harmless E script :
  only_emits harmless
    (print [Txt "Stopping script: "; Txt (Pathlib.stem script)];;
     terminate_script E script;;
     ui (set_play_stop_icon "media-playback-start-symbolic" "Play")).
Proof.
  apply only_emits_bind; [emits|intros _].
  apply only_emits_bind; [apply terminate_script_harmless|intros _; emits].
Qed.

(** * Further properties *)

(** ** Computations that send no signal *)

Lemma quiet_ret {A} (a : A) : quiet (mret a).
Proof. intros st. split; [done|]. exists []. by rewrite app_nil_r. Qed.

Lemma quiet_raise {A} (e : exn) : quiet (raise e : M A).
Proof. intros st. split; [done|]. exists []. by rewrite app_nil_r. Qed.

Lemma quiet_emit e : signal_free e → quiet (emit e).
Proof. intros He st. split; [done|]. exists [e]. split; [done|]. by constructor. Qed.

Lemma quiet_registry_contains k : quiet (registry_contains k).
Proof. intros st. split; [done|]. exists []. by rewrite app_nil_r. Qed.

Lemma quiet_registry_insert k r : quiet (registry_insert k r).
Proof. intros st. split; [done|]. exists []. by rewrite app_nil_r. Qed.

Lemma quiet_registry_pop k : quiet (registry_pop k).
Proof. intros st. split; [done|]. exists []. by rewrite app_nil_r. Qed.

Lemma quiet_bind {A B} (c : M A) (k : A → M B) :
  quiet c → (∀ a, quiet (k a)) → quiet (c ≫= k).
Proof.
  intros Hc Hk st. destruct (Hc st) as (Hp1 & ev1 & Hlog1 & HQ1).
  unfold_monad. destruct (c st) as [[a|e] st1]; cbn in *.
  - destruct (Hk a st1) as (Hp2 & ev2 & Hlog2 & HQ2). split; [congruence|].
    exists (ev1 ++ ev2). rewrite Hlog2, Hlog1, app_assoc. split; [done|].
    by apply Forall_app.
  - split; [done|]. by exists ev1.
Qed.

Lemma quiet_try_except {A} (c : M A) handled (h : exn → M A) :
  quiet c → (∀ e, quiet (h e)) → quiet (try_except c handled h).
Proof.
  intros Hc Hh st. destruct (Hc st) as (Hp1 & ev1 & Hlog1 & HQ1).
  unfold try_except. destruct (c st) as [[a|e] st1]; cbn in *.
  - split; [done|]. by exists ev1.
  - destruct (handled e); [|split; [done|]; by exists ev1].
    destruct (Hh e st1) as (Hp2 & ev2 & Hlog2 & HQ2). split; [congruence|].
    exists (ev1 ++ ev2). rewrite Hlog2, Hlog1, app_assoc. split; [done|].
    by apply Forall_app.
Qed.

Lemma quiet_check_output_pgrep E full pattern : quiet (check_output_pgrep E full pattern).
Proof.
  intros st. split; [done|]. exists [EvPgrep full pattern]. split; [done|]. by constructor.
Qed.

Lemma quiet_lift_outcome {A} (r : outcome A) : quiet (lift_outcome r).
Proof. intros st. split; [done|]. exists []. by rewrite app_nil_r. Qed.

Lemma quiet_extract_yaml_info E script : quiet (extract_yaml_info E script).
Proof.
  unfold extract_yaml_info. destruct (charm_file E script).
  - apply quiet_lift_outcome.
  - apply quiet_raise.
Qed.

Ltac quiet_step :=
  first
    [ apply quiet_bind; [|intros ?]
    | apply quiet_try_except; [|intros ?]
    | apply quiet_ret
    | apply (quiet_ret ())
    | apply quiet_raise
    | apply quiet_registry_contains
    | apply quiet_registry_insert
    | apply quiet_registry_pop
    | apply quiet_lift_outcome
    | apply quiet_extract_yaml_info
    | apply quiet_check_output_pgrep
    | apply quiet_emit; done
    | match goal with
      | |- quiet (match ?x with _ => _ end) => destruct x
      end ].

Ltac quiet_all := repeat (unfold print, ui; quiet_step).

Lemma signal_free_kill_attempts events : Forall signal_free events → kill_attempts events = [].
Proof.
  induction 1 as [|e l He _ IH]; [done|].
  unfold kill_attempts in *. cbn. rewrite IH. by destruct e.
Qed.

Lemma signal_free_group_signals events : Forall signal_free events → group_signals events = [].
Proof.
  induction 1 as [|e l He _ IH]; [done|].
  unfold group_signals in *. cbn. rewrite IH. by destruct e.
Qed.

Lemma signal_free_launches events : Forall signal_free events → launches events = [].
Proof.
  induction 1 as [|e l He _ IH]; [done|].
  unfold launches in *. cbn. rewrite IH. by destruct e.
Qed.

(** ** The rows of the flow box *)

(** In a row built by the program the widget that
    [find_button_by_script_stem] takes for the label is not there: the
    box is the only child of the button. *)
Lemma script_label_of_row row : row_of_program row → script_label_of row = Ret None.
Proof. by intros [[script ->]|[step ->]]. Qed.

Lemma find_button_by_script_stem_none flowbox_children script_stem :
  Forall row_of_program flowbox_children →
  find_button_by_script_stem flowbox_children script_stem = Ret None.
Proof.
  induction 1 as [|row rows Hrow _ IH]; [done|].
  cbn [find_button_by_script_stem]. by rewrite script_label_of_row.
Qed.

(** ** The re-scan of related scripts *)

Lemma update_related_scripts_loop_quiet E prefix scripts :
  quiet (update_related_scripts_loop E prefix scripts).
Proof. apply only_queries_quiet, update_related_scripts_loop_queries. Qed.

(** X1. The re-scan changes neither the registry nor the process table, and
    sends no signal and starts no process, whether it returns or raises. *)
Theorem update_related_scripts_buttons_writes_nothing E prefix st :
  let st' := (update_related_scripts_buttons E prefix st).2 in
  running_processes st' = running_processes st ∧
  procs st' = procs st ∧
  kill_attempts (log st') = kill_attempts (log st) ∧
  group_signals (log st') = group_signals (log st) ∧
  launches (log st') = launches (log st).
Proof.
  intros st'. subst st'. unfold update_related_scripts_buttons.
  split.
  { by apply (update_related_scripts_loop_keeps (λ reg, reg = running_processes st)). }
  destruct (update_related_scripts_loop_quiet E prefix (List.map fst (charm_files E)) st)
    as (Hprocs & events & Hlog & Hev).
  rewrite Hlog, kill_attempts_app, group_signals_app, launches_app.
  rewrite (signal_free_kill_attempts events), (signal_free_group_signals events),
    (signal_free_launches events), !app_nil_r by done.
  done.
Qed.

Lemma charm_file_listed E script read :
  charm_file E script = Some read → (script, read) ∈ charm_files E.
Proof.
  unfold charm_file. destruct (List.find _ (charm_files E)) as [[s r]|] eqn:Hfind; [|done].
  intros [= <-]. apply List.find_some in Hfind as [Hin Heq].
  apply String.eqb_eq in Heq. cbn in Heq. subst s. by apply list_elem_of_In.
Qed.

Lemma charm_file_of_listed E script :
  script ∈ List.map fst (charm_files E) → is_Some (charm_file E script).
Proof.
  intros Hin. unfold charm_file.
  destruct (List.find _ (charm_files E)) as [f|] eqn:Hfind; [by eexists|].
  exfalso. apply list_elem_of_In, List.in_map_iff in Hin as ([s r] & Hs & Hin).
  cbn in Hs. subst s. eapply List.find_none in Hfind; [|done].
  cbn in Hfind. by rewrite String.eqb_refl in Hfind.
Qed.

Lemma update_related_script_returns E prefix script d st :
  pgrep_installed E = true →
  Forall row_of_program (flowbox_rows E) →
  charm_file E script = Some (Ret d) →
  (update_related_script E prefix script st).1 = Ret ().
Proof.
  intros HE Hrows Hd. unfold update_related_script, extract_yaml_info.
  rewrite Hd. erewrite mbind_ret by reflexivity.
  destruct (String.eqb (wineprefix d) prefix); [|done].
  unfold check_output_pgrep. unfold_monad. cbn [procs log running_processes].
  rewrite HE.
  destruct (OS_pgrep_installed false (exe_name_upto_fifteen_chars d) (procs st))
    as [-> | (lines & Hlines & ->)]; [done|].
  destruct lines as [|line lines]; [done|].
  by rewrite find_button_by_script_stem_none.
Qed.

Lemma update_related_scripts_loop_returns E prefix scripts st :
  pgrep_installed E = true →
  Forall row_of_program (flowbox_rows E) →
  (∀ script, script ∈ scripts → ∃ d, charm_file E script = Some (Ret d)) →
  (update_related_scripts_loop E prefix scripts st).1 = Ret ().
Proof.
  intros HE Hrows. revert st.
  induction scripts as [|script scripts IH]; intros st Hread; [done|].
  cbn [update_related_scripts_loop].
  destruct (Hread script) as [d Hd]; [by left|].
  pose proof (update_related_script_returns E prefix script d st HE Hrows Hd) as Hone.
  destruct (update_related_script E prefix script st) as [[[]|e] st1] eqn:Hrun; [|done].
  erewrite mbind_ret by exact Hrun.
  apply IH. intros s Hs. apply Hread. by right.
Qed.

Lemma update_related_scripts_buttons_runs E prefix st :
  pgrep_installed E = true →
  Forall row_of_program (flowbox_rows E) →
  (∀ script read, (script, read) ∈ charm_files E → ∃ d, read = Ret d) →
  (update_related_scripts_buttons E prefix st).1 = Ret ().
Proof.
  intros HE Hrows Hread. apply update_related_scripts_loop_returns; [done..|].
  intros script Hin. destruct (charm_file_of_listed E script Hin) as [read Hfile].
  destruct (Hread script read (charm_file_listed _ _ _ Hfile)) as [d ->]. eauto.
Qed.

(** X2. With pgrep installed, every listed descriptor readable and the rows
    of the flow box built by the program, the re-scan returns. *)
Theorem update_related_scripts_buttons_returns E prefix st :
  pgrep_installed E = true →
  Forall row_of_program (flowbox_rows E) →
  (∀ script read, (script, read) ∈ charm_files E → ∃ d, read = Ret d) →
  update_related_scripts_buttons E prefix st =
    (Ret (), (update_related_scripts_buttons E prefix st).2).
Proof.
  intros HE Hrows Hread.
  pose proof (update_related_scripts_buttons_runs E prefix st HE Hrows Hread) as Hret.
  destruct (update_related_scripts_buttons E prefix st) as [r st']. cbn in Hret. by subst r.
Qed.

Lemma desktop_rows : Forall row_of_program (flowbox_rows desktop).
Proof. repeat (apply List.Forall_cons; [left; eexists; reflexivity|]). apply List.Forall_nil. Qed.

Lemma desktop_descriptors script read :
  (script, read) ∈ charm_files desktop → ∃ d, read = Ret d.
Proof.
  intros Hin. apply list_elem_of_In in Hin. cbn in Hin.
  destruct Hin as [[= <- <-]|[[= <- <-]|[[= <- <-]|[]]]]; eauto.
Qed.

Lemma update_related_scripts_buttons_returns_witness :
  update_related_scripts_buttons desktop (wineprefix game_descriptor) game_with_worker =
    (Ret (),
     (update_related_scripts_buttons desktop (wineprefix game_descriptor)
        game_with_worker).2).
Proof.
  apply (update_related_scripts_buttons_returns desktop (wineprefix game_descriptor)
           game_with_worker).
  - reflexivity.
  - apply desktop_rows.
  - apply desktop_descriptors.
Defined.

(** ** A process that ends by itself *)

Lemma process_ended_quiet E k : quiet (process_ended E k).
Proof.
  unfold process_ended. quiet_all. apply update_related_scripts_loop_quiet.
Qed.

(** Whether it returns or raises, [process_ended] leaves the registry it
    found without the record of the stem. *)
Lemma process_ended_registry E k st :
  running_processes (process_ended E k st).2 = delete k (running_processes st).
Proof.
  unfold process_ended.
  erewrite mbind_ret by reflexivity.
  case_bool_decide as Hpresent.
  - erewrite mbind_ret by reflexivity.
    match goal with |- context [(?c ?s).2] =>
      enough (keeps (λ reg, reg = delete k (running_processes st)) c) as Hkeeps
    end.
    { by apply Hkeeps. }
    keeps_all. apply update_related_scripts_loop_keeps.
  - cbn. symmetry. apply delete_id.
    destruct (running_processes st !! k) eqn:H; [|done].
    exfalso. apply Hpresent. eauto.
Qed.

(** X3. [process_ended] sends no signal, starts no process and leaves the
    process table as it is, whether it returns or raises; afterwards the
    stem has no record, or a probed record: the registry is the one it
    found without the record of the stem. *)
Theorem process_ended_retires_quietly E k st :
  let st' := (process_ended E k st).2 in
  procs st' = procs st ∧
  kill_attempts (log st') = kill_attempts (log st) ∧
  group_signals (log st') = group_signals (log st) ∧
  launches (log st') = launches (log st) ∧
  retired_or_probed k (running_processes st') ∧
  running_processes st' = delete k (running_processes st).
Proof.
  intros st'. subst st'.
  destruct (process_ended_quiet E k st) as (Hprocs & events & Hlog & Hev).
  rewrite Hlog, kill_attempts_app, group_signals_app, launches_app.
  rewrite (signal_free_kill_attempts events), (signal_free_group_signals events),
    (signal_free_launches events), !app_nil_r by done.
  repeat split; [done| |apply process_ended_registry].
  left. rewrite process_ended_registry. apply lookup_delete_eq.
Qed.

(** ** The run of [terminate_script] up to its loop *)

Lemma check_output_pgrep_run E full pattern st :
  check_output_pgrep E full pattern st =
    (OS.pgrep (pgrep_installed E) full pattern (procs st), logged st [EvPgrep full pattern]).
Proof. reflexivity. Qed.

Lemma try_except_caught {A} (c : M A) handled h st e st' :
  c st = (Raise e, st') → handled e = true → try_except c handled h st = h e st'.
Proof. intros H Hh. unfold try_except. by rewrite H, Hh. Qed.

(** The run of [terminate_script] up to its loop. *)
Lemma terminate_script_prelude E script d r st :
  charm_file E script = Some (Ret d) →
  pgrep_installed E = true →
  running_processes st !! Pathlib.stem script = Some r →
  let st1 := {| running_processes := delete (Pathlib.stem script) (running_processes st);
                procs := procs st;
                log := log st ++ [EvPrint [Txt "Terminating script: "; Txt script]] |} in
  (listing E true (exe_name_upto_fifteen_chars d) st = [] ∨
   listing E true appname st = []) ∧ (terminate_script E script st).1 = Ret () ∧
     procs (terminate_script E script st).2 = procs st ∧
     kill_attempts (log (terminate_script E script st).2) = kill_attempts (log st)
  ∨
  terminate_script E script st =
    try_except
      (terminate_kill_loop E script (wineprefix d)
         (List.map fst (listing E true appname st))
         (List.map fst (listing E true (exe_name_upto_fifteen_chars d) st)))
      (is_a CalledProcessError)
      (λ _, print [Txt "No processes found for "; Txt (exe_name_upto_fifteen_chars d)])
      (logged st1 [EvPgrep true (exe_name_upto_fifteen_chars d); EvPgrep true appname]).
Proof.
  intros Hd HE Hr st1. unfold terminate_script.
  erewrite mbind_ret by reflexivity.
  erewrite mbind_ret by reflexivity.
  rewrite bool_decide_eq_true_2 by eauto.
  erewrite mbind_ret by reflexivity.
  cbn [running_processes procs log]. rewrite Hr.
  unfold extract_yaml_info. rewrite Hd.
  erewrite mbind_ret by reflexivity. fold st1.
  unfold listing. rewrite HE.
  destruct (OS_pgrep_installed true (exe_name_upto_fifteen_chars d) (procs st))
    as [Hl | (lines & _ & Hl)]; rewrite Hl.
  { left. split; [by left|].
    erewrite try_except_caught;
      [|eapply mbind_raise; rewrite check_output_pgrep_run, HE; subst st1; cbn [procs];
        by rewrite Hl|reflexivity].
    cbn. rewrite !kill_attempts_app. cbn. by rewrite !app_nil_r. }
  destruct (OS_pgrep_installed true appname (procs st))
    as [Hw | (wlines & _ & Hw)]; rewrite Hw.
  { left. split; [by right|].
    erewrite try_except_caught;
      [|erewrite mbind_ret;
        [|rewrite check_output_pgrep_run, HE; subst st1; cbn [procs]; by rewrite Hl];
        eapply mbind_raise; rewrite check_output_pgrep_run, HE; cbn [procs logged];
        by rewrite Hw|reflexivity].
    cbn. rewrite !kill_attempts_app. cbn. by rewrite !app_nil_r. }
  right. unfold try_except.
  erewrite mbind_ret.
  2:{ rewrite check_output_pgrep_run, HE. subst st1. cbn [procs]. by rewrite Hl. }
  erewrite mbind_ret.
  2:{ rewrite check_output_pgrep_run, HE. cbn [procs logged]. by rewrite Hw. }
  by rewrite logged_logged.
Qed.

(** ** What termination signals *)

Lemma os_kill_run target sig st :
  os_kill target sig st =
    ((OS.kill target sig (procs st)).1,
     {| running_processes := running_processes st;
        procs := (OS.kill target sig (procs st)).2;
        log := log st ++ [EvKill target sig (OS.kill target sig (procs st)).1] |}).
Proof. unfold os_kill. by destruct (OS.kill target sig (procs st)). Qed.

Lemma quiet_kill_attempts {A} (c : M A) st :
  quiet c → kill_attempts (log (c st).2) = kill_attempts (log st).
Proof.
  intros Hq. destruct (Hq st) as (_ & events & -> & Hev).
  by rewrite kill_attempts_app, (signal_free_kill_attempts events), app_nil_r.
Qed.

Lemma print_run line st : print line st = (Ret (), logged st [EvPrint line]).
Proof. reflexivity. Qed.

Lemma terminate_kill_loop_cons E script prefix winecharm_pids pid rest :
  terminate_kill_loop E script prefix winecharm_pids (pid :: rest) =
    (terminate_kill_body E script prefix winecharm_pids pid;;
     terminate_kill_loop E script prefix winecharm_pids rest).
Proof. reflexivity. Qed.

Lemma terminate_kill_body_attempts E script prefix winecharm_pids pid st :
  kill_attempts (log (terminate_kill_body E script prefix winecharm_pids pid st).2) =
    kill_attempts (log st) ++
    if bool_decide (pid ∈ winecharm_pids) then [] else [(pid, OS.SIGKILL)].
Proof.
  unfold terminate_kill_body. case_bool_decide.
  - rewrite print_run. cbn. rewrite kill_attempts_app. done.
  - unfold mbind at 1, M_bind at 1, bind at 1.
    unfold try_except. unfold mbind at 1, M_bind at 1, bind at 1.
    rewrite os_kill_run.
    destruct (OS.kill pid OS.SIGKILL (procs st)) as [[[]|e] table]; cbn [fst snd].
    + erewrite mbind_ret by reflexivity. cbn [mret M_ret ret].
      match goal with |- kill_attempts (log (?c ?s).2) = _ =>
        rewrite (quiet_kill_attempts c s)
      end.
      * cbn. rewrite !kill_attempts_app. cbn. by rewrite app_nil_r.
      * quiet_all. apply update_related_scripts_loop_quiet.
    + destruct (is_a ProcessLookupError e); cbn; by rewrite kill_attempts_app.
Qed.

(** The loop of [terminate_script] signals, in order, the listed processes that
    are not the supervisor's, as far as it gets. *)
Lemma terminate_kill_loop_attempts E script prefix winecharm_pids pids st :
  ∃ attempted,
    kill_attempts (log (terminate_kill_loop E script prefix winecharm_pids pids st).2) =
      kill_attempts (log st) ++ List.map (λ x, (x, OS.SIGKILL)) attempted ∧
    attempted `prefix_of`
      List.filter (λ x, negb (bool_decide (x ∈ winecharm_pids))) pids.
Proof.
  revert st. induction pids as [|p pids IH]; intros st.
  - exists []. cbn. by rewrite app_nil_r.
  - rewrite terminate_kill_loop_cons. cbn [List.filter].
    pose proof (terminate_kill_body_attempts E script prefix winecharm_pids p st) as Hbody.
    unfold mbind, M_bind, bind.
    destruct (terminate_kill_body E script prefix winecharm_pids p st) as [[[]|e] st1];
      cbn [snd] in *.
    + destruct (IH st1) as (attempted & Hlog & Hpre). rewrite Hlog, Hbody.
      case_bool_decide; cbn [negb].
      * exists attempted. by rewrite app_nil_r.
      * exists (p :: attempted). split; [by rewrite <- app_assoc|]. by apply prefix_cons.
    + rewrite Hbody. case_bool_decide; cbn [negb].
      * exists []. split; [done|]. apply prefix_nil.
      * exists [p]. split; [done|]. apply prefix_cons, prefix_nil.
Qed.

(** X6. The kills of [terminate_script] are SIGKILLs to an initial part of
    the processes listed for the executable name, the supervisor's own
    left out, in the order of the listing: no process outside the listing
    for the executable name and none that the listing for the
    application's name contains is signalled. *)
Theorem terminate_script_signals_only_targets E script d st :
  charm_file E script = Some (Ret d) →
  pgrep_installed E = true →
  ∃ attempted,
    kill_attempts (log (terminate_script E script st).2) =
      kill_attempts (log st) ++ List.map (λ x, (x, OS.SIGKILL)) attempted ∧
    attempted `prefix_of` terminate_targets E d st ∧
    ∀ x, x ∈ attempted →
         x ∈ List.map fst (listing E true (exe_name_upto_fifteen_chars d) st) ∧
         x ∉ List.map fst (listing E true appname st).
Proof.
  intros Hd HE.
  assert (∀ attempted, attempted `prefix_of` terminate_targets E d st →
            ∀ x, x ∈ attempted →
              x ∈ List.map fst (listing E true (exe_name_upto_fifteen_chars d) st) ∧
              x ∉ List.map fst (listing E true appname st)) as Hmem.
  { intros attempted [rest Hrest] x Hx.
    assert (x ∈ terminate_targets E d st) as Hin by (rewrite Hrest; set_solver).
    unfold terminate_targets in Hin.
    apply list_elem_of_In, List.filter_In in Hin as [Hin Hnot].
    apply negb_true_iff, bool_decide_eq_false in Hnot.
    split; [by apply list_elem_of_In|done]. }
  destruct (running_processes st !! Pathlib.stem script) as [r|] eqn:Hr.
  2:{ exists []. rewrite terminate_script_absent by done. cbn.
      rewrite kill_attempts_app. cbn. rewrite app_nil_r.
      split; [done|]. split; [apply prefix_nil|]. intros x Hx. by apply elem_of_nil in Hx. }
  destruct (terminate_script_prelude E script d r st Hd HE Hr)
    as [(_ & _ & _ & Hk)| ->].
  { exists []. rewrite Hk, app_nil_r. split; [done|]. split; [apply prefix_nil|].
    intros x Hx. by apply elem_of_nil in Hx. }
  match goal with |- context [try_except (terminate_kill_loop E script ?p ?w ?l) ?hd ?h ?s] =>
    destruct (terminate_kill_loop_attempts E script p w l s) as (attempted & Hlog & Hpre);
    exists attempted;
    assert (kill_attempts (log (try_except (terminate_kill_loop E script p w l) hd h s).2)
            = kill_attempts (log (terminate_kill_loop E script p w l s).2)) as ->
  end.
  { unfold try_except. destruct (terminate_kill_loop _ _ _ _ _ _) as [[[]|e] st2]; [done|].
    destruct (is_a CalledProcessError e); [|done]. cbn.
    by rewrite kill_attempts_app, app_nil_r. }
  rewrite Hlog. cbn [log logged]. rewrite !kill_attempts_app. cbn. rewrite !app_nil_r.
  split; [done|]. split; [exact Hpre|]. by apply Hmem.
Qed.

Lemma terminate_script_signals_only_targets_witness :
  ∃ attempted,
    kill_attempts (log (terminate_script desktop game_script game_with_worker).2) =
      kill_attempts (log game_with_worker) ++ List.map (λ x, (x, OS.SIGKILL)) attempted ∧
    attempted `prefix_of` [52] ∧
    ∀ x, x ∈ attempted →
         x ∈ [51; 52] ∧ x ∉ [50; 51].
Proof.
  apply (terminate_script_signals_only_targets desktop game_script game_descriptor
           game_with_worker); vm_compute; reflexivity.
Defined.

(** ** [stop_script] *)

(** X9. [stop_script] on a record whose process is alive sends SIGKILL to
    its process group, which removes every member the supervisor may
    signal, and then fails with [TypeError] on [reset_buttons]; the
    registry still holds the record. *)
Theorem stop_script_kills_the_group_then_raises info target group st :
  pid info = Some target →
  OS.getpgid target (procs st) = Ret group →
  List.existsb OS.owned (List.filter (λ p, Z.eqb (OS.pgid p) group) (procs st)) = true →
  let stopped := stop_script (Some info) st in
  stopped.1 = Raise TypeError ∧
  running_processes stopped.2 = running_processes st ∧
  procs stopped.2 =
    List.filter (λ q, negb (Z.eqb (OS.pgid q) group && OS.owned q)) (procs st) ∧
  group_signals (log stopped.2) = group_signals (log st) ++ [(group, OS.SIGKILL)].
Proof.
  intros Hpid Hgroup Howned. unfold stop_script. rewrite Hpid.
  unfold os_getpgid, os_killpg, OS.killpg. unfold_monad.
  cbn [procs log running_processes]. rewrite Hgroup.
  destruct (List.filter (λ p, Z.eqb (OS.pgid p) group) (procs st)) as [|m members];
    [done|].
  rewrite Howned. cbn [fst snd procs log running_processes is_a].
  split; [done|]. split; [done|]. split; [done|].
  rewrite !group_signals_app. cbn. by rewrite app_nil_r.
Qed.

Lemma stop_script_kills_the_group_then_raises_witness :
  let stopped :=
    stop_script (Some (launched_record 51 51 game_script)) game_with_worker in
  stopped.1 = Raise TypeError ∧
  running_processes stopped.2 = running_processes game_with_worker ∧
  procs stopped.2 =
    List.filter (λ q, negb (Z.eqb (OS.pgid q) 51 && OS.owned q)) (procs game_with_worker) ∧
  group_signals (log stopped.2) = group_signals (log game_with_worker) ++ [(51, OS.SIGKILL)].
Proof.
  apply (stop_script_kills_the_group_then_raises (launched_record 51 51 game_script)
           51 51 game_with_worker); vm_compute; reflexivity.
Defined.

(** ** A launch that succeeds, a launch that fails *)

Lemma fresh_pid_above table p : p ∈ table → OS.pid p < OS.fresh_pid table.
Proof.
  unfold OS.fresh_pid. induction table as [|q table IH]; intros Hin.
  - by apply elem_of_nil in Hin.
  - cbn. apply elem_of_cons in Hin as [->|Hin]; [lia|]. specialize (IH Hin). lia.
Qed.

Lemma find_fresh_pid table q :
  OS.pid q = OS.fresh_pid table →
  List.find (λ p, Z.eqb (OS.pid p) (OS.fresh_pid table)) (table ++ [q]) = Some q.
Proof.
  intros Hq. pose proof (fresh_pid_above table) as Habove.
  set (f := OS.fresh_pid table) in *. clearbody f.
  induction table as [|p table IH]; cbn.
  - by rewrite Hq, Z.eqb_refl.
  - destruct (Z.eqb_spec (OS.pid p) f) as [Heq|Hne].
    + specialize (Habove p ltac:(by left)). lia.
    + apply IH. intros p' Hp'. apply Habove. by right.
Qed.

(** [update_running_script_buttons] changes nothing: it returns, or
    raises on the first row it finds. *)
Lemma update_running_script_buttons_loop_state E script_stems st :
  (update_running_script_buttons_loop E script_stems st).2 = st.
Proof.
  induction script_stems as [|k l IH]; [done|].
  cbn [update_running_script_buttons_loop]. unfold_monad.
  destruct (find_button_by_script_stem (flowbox_rows E) k) as [[w|]|e]; [| |done].
  - pose proof (set_play_button_child_state w st) as Hstate.
    destruct (set_play_button_child w st) as [[[]|e] st1]; cbn in *; subst st1; [apply IH|done].
  - apply IH.
Qed.

Lemma update_running_script_buttons_state E st :
  (update_running_script_buttons E st).2 = st.
Proof.
  unfold update_running_script_buttons. erewrite mbind_ret by reflexivity.
  apply update_running_script_buttons_loop_state.
Qed.

Lemma update_running_script_buttons_loop_returns E script_stems st :
  Forall row_of_program (flowbox_rows E) →
  update_running_script_buttons_loop E script_stems st = (Ret (), st).
Proof.
  intros Hrows. induction script_stems as [|k l IH]; [done|].
  cbn [update_running_script_buttons_loop]. unfold_monad.
  rewrite find_button_by_script_stem_none by done. apply IH.
Qed.

Lemma update_running_script_buttons_returns E st :
  Forall row_of_program (flowbox_rows E) →
  update_running_script_buttons E st = (Ret (), st).
Proof.
  intros Hrows. unfold update_running_script_buttons. erewrite mbind_ret by reflexivity.
  by apply update_running_script_buttons_loop_returns.
Qed.

Lemma os_getpgid_fresh reg table command l :
  let st := {| running_processes := reg;
               procs := table ++ [shell_process (OS.fresh_pid table) command];
               log := l |} in
  os_getpgid (OS.fresh_pid table) st = (Ret (OS.fresh_pid table), st).
Proof.
  intros st. unfold os_getpgid, OS.getpgid. cbn [procs st].
  by rewrite (find_fresh_pid table (shell_process (OS.fresh_pid table) command) eq_refl).
Qed.

(** The events of a launch that gets as far as starting the shell. *)
Lemma launch_script_started E script button d st :
  charm_file E script = Some (Ret d) →
  path_exists E (exe_file d) = true →
  popen_ok E = true →
  let child := OS.fresh_pid (procs st) in
  ∃ trailer,
    launch_script E script button st =
      (Ret (),
       {| running_processes :=
            match button with
            | Some _ =>
                <[Pathlib.stem script := launched_record child child script]>
                  (running_processes st)
            | None => running_processes st
            end;
          procs := procs st ++ [shell_process child (launch_command d)];
          log := log st ++ [EvPrint [Txt "Launching script "; Txt script];
                            EvPopen (launch_command d) (Ret child);
                            EvPrint [Txt "Launched script with PID: "; Num child]]
                        ++ trailer |}) ∧
    match button with
    | Some _ =>
        trailer = [EvThread child (Pathlib.stem script) (wineprefix d)]
        ∨ ∃ e, trailer = [EvThread child (Pathlib.stem script) (wineprefix d);
                          EvPrint [Txt "Error launching script: "; Exc e]]
    | None => trailer = [EvPrint [Txt "Error launching script: "; Exc AttributeError]]
    end ∧
    (Forall row_of_program (flowbox_rows E) → is_Some button →
     trailer = [EvThread child (Pathlib.stem script) (wineprefix d)]).
Proof.
  intros Hd Hexists Hpopen child.
  unfold launch_script, extract_yaml_info. rewrite Hd.
  erewrite mbind_ret by apply print_run.
  erewrite mbind_ret by reflexivity. rewrite Hexists. cbn [negb].
  unfold try_except.
  erewrite mbind_ret.
  2:{ unfold popen. rewrite Hpopen. reflexivity. }
  cbn [procs log running_processes logged]. fold child.
  fold (shell_process child (launch_command d)).
  erewrite mbind_ret by apply os_getpgid_fresh.
  erewrite mbind_ret by apply print_run.
  destruct button as [button|].
  - erewrite mbind_ret by reflexivity.
    erewrite mbind_ret by reflexivity.
    match goal with |- context [update_running_script_buttons E ?s] =>
      pose proof (update_running_script_buttons_state E s) as Hstate;
      pose proof (update_running_script_buttons_returns E s) as Hreturns;
      destruct (update_running_script_buttons E s) as [[[]|e] s'] eqn:Hrun
    end; cbn [snd] in Hstate; subst s'; subst child;
      unfold print, emit, logged; cbn [log procs running_processes fst snd].
    + eexists [_]. split; [by rewrite <- !app_assoc|]. split; [by left|done].
    + eexists [_; _]. split; [by rewrite <- !app_assoc|]. split; [right; by eexists|].
      intros Hrows _. specialize (Hreturns Hrows). discriminate.
  - subst child. unfold_monad. unfold logged. cbn [log procs running_processes fst snd].
    eexists [_]. split; [by rewrite <- !app_assoc|]. split; [done|].
    by intros _ [? ?].
Qed.

Lemma verdict_of_fresh_child E table child command script :
  verdict E (table ++ [shell_process child command]) (launched_record child child script)
    = false.
Proof.
  unfold verdict, launched_record. cbn [proc pgid].
  assert (poll_finished child (table ++ [shell_process child command]) = false) as ->.
  { unfold poll_finished. apply negb_false_iff. rewrite List.existsb_app. cbn.
    rewrite Z.eqb_refl. by rewrite !orb_true_r. }
  cbn [orb]. unfold OS.killpg.
  destruct (List.filter _ _) as [|m members] eqn:Hfilter.
  { exfalso.
    assert (In (shell_process child command)
              (List.filter (λ p, Z.eqb (OS.pgid p) child)
                 (table ++ [shell_process child command]))) as Hin.
    { apply List.filter_In. split; [apply List.in_or_app; right; by left|].
      cbn. apply Z.eqb_refl. }
    by rewrite Hfilter in Hin. }
  assert (existsb OS.owned (m :: members) = true) as ->; [|done].
  rewrite <- Hfilter. apply List.existsb_exists.
  exists (shell_process child command). split; [|done].
  apply List.filter_In. split; [apply List.in_or_app; right; by left|].
  cbn. apply Z.eqb_refl.
Qed.

Lemma launches_of_launch child script d trailer :
  trailer = [EvThread child (Pathlib.stem script) (wineprefix d)]
  ∨ (∃ e, trailer = [EvThread child (Pathlib.stem script) (wineprefix d);
                     EvPrint [Txt "Error launching script: "; Exc e]])
  ∨ trailer = [EvPrint [Txt "Error launching script: "; Exc AttributeError]] →
  launches ([EvPrint [Txt "Launching script "; Txt script];
             EvPopen (launch_command d) (Ret child);
             EvPrint [Txt "Launched script with PID: "; Num child]] ++ trailer)
    = [launch_command d].
Proof. by intros [->|[[e ->]| ->]]. Qed.

(** X7. A launch from the options view whose descriptor is readable, whose
    executable exists and whose [Popen] succeeds returns, appends the
    shell under a process identifier that was not in use, stores under
    the stem the record of that child with the child's own process group,
    records one launch command, and leaves a record that the prober does
    not mark finished. *)
Theorem launch_script_registers E script button d st :
  charm_file E script = Some (Ret d) →
  path_exists E (exe_file d) = true →
  popen_ok E = true →
  let child := OS.fresh_pid (procs st) in
  let st' := (launch_script E script (Some button) st).2 in
  (launch_script E script (Some button) st).1 = Ret () ∧
  (∀ p, p ∈ procs st → OS.pid p ≠ child) ∧
  running_processes st' =
    <[Pathlib.stem script := launched_record child child script]> (running_processes st) ∧
  procs st' = procs st ++ [shell_process child (launch_command d)] ∧
  launches (log st') = launches (log st) ++ [launch_command d] ∧
  verdict E (procs st') (launched_record child child script) = false.
Proof.
  intros Hd Hexists Hpopen child st'.
  destruct (launch_script_started E script (Some button) d st Hd Hexists Hpopen)
    as (trailer & Hrun & Htrailer & _).
  subst st'. rewrite Hrun. cbn [fst snd running_processes procs log].
  split; [done|]. split.
  { intros p Hp. pose proof (fresh_pid_above _ _ Hp). subst child. lia. }
  split; [done|]. split; [done|]. split.
  { rewrite launches_app. f_equal. apply launches_of_launch.
    destruct Htrailer as [->|[e ->]]; eauto. }
  apply verdict_of_fresh_child.
Qed.

Lemma launch_script_registers_witness :
  (launch_script desktop game_script (Some (script_button game_script)) idle).1 = Ret () ∧
  running_processes
    (launch_script desktop game_script (Some (script_button game_script)) idle).2 =
    {[ "game" := launched_record 51 51 game_script ]} ∧
  verdict desktop
    (procs (launch_script desktop game_script (Some (script_button game_script)) idle).2)
    (launched_record 51 51 game_script) = false.
Proof.
  destruct (launch_script_registers desktop game_script (script_button game_script)
              game_descriptor idle)
    as (Hret & _ & Hreg & _ & _ & Hverdict); [vm_compute; reflexivity..|].
  split; [exact Hret|]. split; [|exact Hverdict].
  rewrite Hreg. vm_compute. reflexivity.
Defined.



(** ** The accept loop on any run of connections *)



(** ** [main] without a running instance *)

Ltac log_eq :=
  unfold_monad; unfold logged; cbn; rewrite <- ?app_assoc; reflexivity.

(** X11. Without a file argument, with an empty one, without the socket file,
    or when the connection is refused, [main] sends nothing and starts its
    own instance: the socket server, then the application; a non-empty
    file argument is stored as [command_line_file] just before. *)
Theorem main_starts_own_instance E args_file cwd st :
  args_file = None ∨ args_file = Some "" ∨ socket_file_exists E = false ∨
  connect_result E = Raise ConnectionRefusedError →
  ∃ events,
    main E args_file cwd st =
      (Ret (), logged st (events ++ [EvSocket start_socket_server; EvUi app_run])) ∧
    sent_messages events = [] ∧
    ∀ file, args_file = Some file → file ≠ "" →
      List.last events (EvUi app_run) = EvUi (set_command_line_file file).
Proof.
  intros Hcase. unfold main, start_instance.
  destruct args_file as [file|].
  2:{ exists []. split; [log_eq|]. split; [done|]. intros ? [=]. }
  destruct (String.eqb_spec file "") as [->|Hfile].
  { exists []. split; [log_eq|]. split; [done|]. by intros ? [= <-]. }
  destruct Hcase as [[=]|[[=]|[Hsock|Hconn]]]; [done|..].
  - rewrite Hsock. eexists [_; _]. split; [log_eq|]. split; [done|].
    by intros ? [= <-].
  - destruct (socket_file_exists E).
    + unfold client_connect. rewrite Hconn. eexists [_; _; _].
      split; [log_eq|]. split; [done|]. by intros ? [= <-].
    + eexists [_; _]. split; [log_eq|]. split; [done|]. by intros ? [= <-].
Qed.

Lemma main_starts_own_instance_witness :
  ∃ events,
    main desktop_stale_socket (Some "setup.exe") "/home/u/games" idle =
      (Ret (), logged idle (events ++ [EvSocket start_socket_server; EvUi app_run])) ∧
    sent_messages events = [] ∧
    ∀ file, Some "setup.exe" = Some file → file ≠ "" →
      List.last events (EvUi app_run) = EvUi (set_command_line_file file).
Proof.
  apply (main_starts_own_instance desktop_stale_socket (Some "setup.exe")
           "/home/u/games" idle).
  right. right. right. reflexivity.
Defined.

(** X12. With a file argument and the socket file there, a failure of
    [connect] or [sendall] other than [ConnectionRefusedError] ends [main]
    with that exception: neither the socket server nor the application is
    started. *)
Theorem main_fails_without_an_instance E file cwd st e :
  file ≠ "" →
  socket_file_exists E = true →
  is_a ConnectionRefusedError e = false →
  connect_result E = Raise e ∨
  (connect_result E = Ret () ∧ sendall_result E = Raise e) →
  ∃ events,
    main E (Some file) cwd st = (Raise e, logged st events) ∧
    started_instance events = false.
Proof.
  intros Hfile Hsock He Hcase. unfold main.
  destruct (String.eqb_spec file "") as [|_]; [done|].
  rewrite Hsock. unfold client_connect, client_sendall.
  destruct Hcase as [Hconn|[Hconn Hsend]].
  - rewrite Hconn. unfold_monad. rewrite He. eexists [_]. split; [log_eq|done].
  - rewrite Hconn, Hsend. unfold_monad. rewrite He. eexists [_; _].
    split; [log_eq|done].
Qed.

Lemma main_fails_without_an_instance_witness :
  ∃ events,
    main desktop_foreign_socket (Some "setup.exe") "/home/u/games" idle =
      (Raise PermissionError, logged idle events) ∧
    started_instance events = false.
Proof.
  apply (main_fails_without_an_instance desktop_foreign_socket "setup.exe"
           "/home/u/games" idle PermissionError);
    [discriminate | reflexivity | reflexivity | left; reflexivity].
Defined.

(** ** Shortcuts *)

Lemma found_lnk_files_append (found : list string) (a b : string) :
  bool_decide (b ∈ (if bool_decide (a ∈ found) then found else found ++ [a])) =
  bool_decide (b ∈ found) || bool_decide (b = a).
Proof.
  rewrite <- bool_decide_or. apply bool_decide_ext.
  destruct (decide (a ∈ found)) as [Hin|Hout].
  - rewrite bool_decide_eq_true_2 by done.
    split; [by left|]. by intros [?| ->].
  - rewrite bool_decide_eq_false_2 by done.
    by rewrite elem_of_app, list_elem_of_singleton.
Qed.

(** X13. After [add_lnk_file_to_processed], a shortcut counts as processed
    exactly when it did before or when it is asked about in the same
    prefix and has the file name of the added one: shortcuts are tracked
    by file name, not by path, and per prefix. *)
Theorem add_lnk_file_to_processed_spec wineprefix lnk_file wineprefix' lnk_file' fs :
  is_lnk_file_processed wineprefix' lnk_file'
    (add_lnk_file_to_processed wineprefix lnk_file fs) =
  is_lnk_file_processed wineprefix' lnk_file' fs
  || bool_decide (wineprefix' = wineprefix)
     && bool_decide (Pathlib.name lnk_file' = Pathlib.name lnk_file).
Proof.
  unfold is_lnk_file_processed, add_lnk_file_to_processed. cbv zeta.
  destruct (decide (wineprefix' = wineprefix)) as [->|Hne].
  - rewrite lookup_insert_eq, (bool_decide_eq_true_2 (wineprefix = wineprefix)) by done.
    cbn [andb]. rewrite found_lnk_files_append.
    by destruct (fs !! wineprefix) as [found|].
  - rewrite lookup_insert_ne by done.
    rewrite (bool_decide_eq_false_2 (wineprefix' = wineprefix)) by done.
    by rewrite orb_false_r.
Qed.

Lemma is_lnk_file_processed_add wineprefix lnk_file fs :
  is_lnk_file_processed wineprefix lnk_file
    (add_lnk_file_to_processed wineprefix lnk_file fs) = true.
Proof.
  unfold is_lnk_file_processed, add_lnk_file_to_processed. cbv zeta.
  rewrite lookup_insert_eq, found_lnk_files_append.
  rewrite (bool_decide_eq_true_2 (_ = _)) by done. apply orb_true_r.
Qed.

Lemma is_lnk_file_processed_add_mono wineprefix lnk_file lnk_file' fs :
  is_lnk_file_processed wineprefix lnk_file' fs = true →
  is_lnk_file_processed wineprefix lnk_file'
    (add_lnk_file_to_processed wineprefix lnk_file fs) = true.
Proof.
  unfold is_lnk_file_processed, add_lnk_file_to_processed. cbv zeta.
  rewrite lookup_insert_eq, found_lnk_files_append.
  destruct (fs !! wineprefix) as [found|]; [|done].
  simpl. by intros ->.
Qed.

Lemma extract_exe_files_from_lnk_mono F lnk_files wineprefix fs lnk_file :
  is_lnk_file_processed wineprefix lnk_file fs = true →
  is_lnk_file_processed wineprefix lnk_file
    (extract_exe_files_from_lnk F lnk_files wineprefix fs).2 = true.
Proof.
  revert fs. induction lnk_files as [|l rest IH]; intros fs Hfs; [done|].
  cbn [extract_exe_files_from_lnk].
  destruct (is_lnk_file_processed wineprefix l fs); cbn [negb]; [by apply IH|].
  destruct (lnk_target F wineprefix l); [|by apply IH].
  specialize (IH (add_lnk_file_to_processed wineprefix l fs)
                (is_lnk_file_processed_add_mono _ _ _ _ Hfs)).
  by destruct (extract_exe_files_from_lnk F rest wineprefix _).
Qed.

Lemma extract_exe_files_from_lnk_again F lnk_files wineprefix fs fs' :
  store_le wineprefix (extract_exe_files_from_lnk F lnk_files wineprefix fs).2 fs' →
  extract_exe_files_from_lnk F lnk_files wineprefix fs' = ([], fs').
Proof.
  revert fs. induction lnk_files as [|l rest IH]; intros fs Hle; [done|].
  cbn [extract_exe_files_from_lnk] in *.
  destruct (is_lnk_file_processed wineprefix l fs') eqn:Hl'; cbn [negb].
  - destruct (is_lnk_file_processed wineprefix l fs); cbn [negb] in Hle;
      [by eapply IH|].
    destruct (lnk_target F wineprefix l); [|by eapply IH].
    apply (IH (add_lnk_file_to_processed wineprefix l fs)).
    destruct (extract_exe_files_from_lnk F rest wineprefix
                (add_lnk_file_to_processed wineprefix l fs)) eqn:Hrun.
    by cbn [snd] in *.
  - destruct (is_lnk_file_processed wineprefix l fs) eqn:Hl; cbn [negb] in Hle.
    { apply (extract_exe_files_from_lnk_mono F rest) in Hl. apply Hle in Hl. congruence. }
    destruct (lnk_target F wineprefix l); [|by eapply IH].
    exfalso.
    pose proof (extract_exe_files_from_lnk_mono F rest wineprefix _ l
                  (is_lnk_file_processed_add wineprefix l fs)) as Hdone.
    destruct (extract_exe_files_from_lnk F rest wineprefix
                (add_lnk_file_to_processed wineprefix l fs)) as [exes fs1] eqn:Hrun.
    rewrite ?Hrun in *. cbn [snd] in *. apply Hle in Hdone. congruence.
Qed.

(** X14. A second run of [extract_exe_files_from_lnk] over the same shortcuts
    yields no executable and leaves the lists of processed shortcuts as
    the first run left them. *)
Theorem extract_exe_files_from_lnk_once F lnk_files wineprefix fs :
  let fs' := (extract_exe_files_from_lnk F lnk_files wineprefix fs).2 in
  extract_exe_files_from_lnk F lnk_files wineprefix fs' = ([], fs').
Proof.
  intros fs'. apply (extract_exe_files_from_lnk_again F lnk_files wineprefix fs).
  by intros ?.
Qed.

(** X15. Every executable that [extract_exe_files_from_lnk] returns is the
    target of a shortcut of the list that was not processed before and is
    processed afterwards; it is a file below [drive_c] of the prefix whose
    name is the target name up to letter case, and its stem does not
    contain "unins". *)
Theorem extract_exe_files_from_lnk_sound F lnk_files wineprefix fs exe_path :
  exe_path ∈ (extract_exe_files_from_lnk F lnk_files wineprefix fs).1 →
  ∃ lnk_file exe_name,
    lnk_file ∈ lnk_files ∧
    is_lnk_file_processed wineprefix lnk_file fs = false ∧
    target_dos_name F lnk_file = Some exe_name ∧
    find_exe_path F wineprefix exe_name = Some exe_path ∧
    exe_path ∈ os_walk F (Pathlib.joinpath wineprefix "drive_c") ∧
    PyStr.lower (Pathlib.name exe_path) = PyStr.lower exe_name ∧
    PyStr.contains "unins" (PyStr.lower (Pathlib.stem exe_path)) = false ∧
    is_lnk_file_processed wineprefix lnk_file
      (extract_exe_files_from_lnk F lnk_files wineprefix fs).2 = true.
Proof.
  revert fs. induction lnk_files as [|l rest IH]; intros fs Hin.
  { by apply elem_of_nil in Hin. }
  cbn [extract_exe_files_from_lnk] in *.
  assert (∀ fs0, is_lnk_file_processed wineprefix l fs = true ∨
                 lnk_target F wineprefix l = None →
            store_le wineprefix fs fs0 →
            exe_path ∈ (extract_exe_files_from_lnk F rest wineprefix fs0).1 →
            ∃ lnk_file exe_name,
              lnk_file ∈ l :: rest ∧
              is_lnk_file_processed wineprefix lnk_file fs = false ∧
              target_dos_name F lnk_file = Some exe_name ∧
              find_exe_path F wineprefix exe_name = Some exe_path ∧
              exe_path ∈ os_walk F (Pathlib.joinpath wineprefix "drive_c") ∧
              PyStr.lower (Pathlib.name exe_path) = PyStr.lower exe_name ∧
              PyStr.contains "unins" (PyStr.lower (Pathlib.stem exe_path)) = false ∧
              is_lnk_file_processed wineprefix lnk_file
                (extract_exe_files_from_lnk F rest wineprefix fs0).2 = true) as Hrest.
  { intros fs0 _ Hle Hin0.
    destruct (IH fs0 Hin0) as (lnk & exe & Hl & Hnew & Hrest).
    exists lnk, exe. split; [by right|]. split; [|done].
    destruct (is_lnk_file_processed wineprefix lnk fs) eqn:Hold; [|done].
    apply Hle in Hold. congruence. }
  destruct (is_lnk_file_processed wineprefix l fs) eqn:Hl; cbn [negb] in *.
  { apply (Hrest fs); [by left|by intros ?|done]. }
  destruct (lnk_target F wineprefix l) as [exe|] eqn:Htarget.
  2:{ apply (Hrest fs); [by right|by intros ?|done]. }
  pose proof (extract_exe_files_from_lnk_mono F rest wineprefix _ l
                (is_lnk_file_processed_add wineprefix l fs)) as Hdone.
  destruct (extract_exe_files_from_lnk F rest wineprefix
              (add_lnk_file_to_processed wineprefix l fs)) as [exes fs1] eqn:Hrun.
  cbn [fst snd] in *. apply elem_of_cons in Hin as [->|Hin].
  - unfold lnk_target in Htarget.
    destruct (target_dos_name F l) as [exe_name|] eqn:Hname; [|done].
    destruct (String.eqb exe_name ""); [done|].
    destruct (find_exe_path F wineprefix exe_name) as [p|] eqn:Hfind; [|done].
    destruct (PyStr.contains "unins" (PyStr.lower (Pathlib.stem p))) eqn:Hunins;
      [by cbn [negb] in Htarget|].
    cbn [negb] in Htarget. injection Htarget as ->.
    exists l, exe_name. split; [by left|]. do 3 (split; [done|]).
    unfold find_exe_path in Hfind. apply List.find_some in Hfind as [Hwalk Heq].
    apply String.eqb_eq in Heq. split; [by apply list_elem_of_In|]. by repeat split.
  - destruct (IH (add_lnk_file_to_processed wineprefix l fs)) as
      (lnk & exe_name & Hlnk & Hnew & Hname & Hfind & Hwalk & Heq & Hunins & Hproc).
    { by rewrite Hrun. }
    rewrite Hrun in Hproc. cbn [snd] in Hproc.
    exists lnk, exe_name. split; [by right|]. split; [|done].
    destruct (is_lnk_file_processed wineprefix lnk fs) eqn:Hold; [|done].
    apply (is_lnk_file_processed_add_mono wineprefix l) in Hold. congruence.
Qed.

Lemma extract_exe_files_from_lnk_sound_witness :
  ∃ lnk_file exe_name,
    lnk_file ∈ find_lnk_files suite_files suite_prefix ∧
    is_lnk_file_processed suite_prefix lnk_file ∅ = false ∧
    target_dos_name suite_files lnk_file = Some exe_name ∧
    find_exe_path suite_files suite_prefix exe_name
      = Some (suite_prefix +:+ "/drive_c/Suite/Text Editor.exe") ∧
    suite_prefix +:+ "/drive_c/Suite/Text Editor.exe"
      ∈ os_walk suite_files (Pathlib.joinpath suite_prefix "drive_c") ∧
    PyStr.lower (Pathlib.name (suite_prefix +:+ "/drive_c/Suite/Text Editor.exe"))
      = PyStr.lower exe_name ∧
    PyStr.contains "unins"
      (PyStr.lower (Pathlib.stem (suite_prefix +:+ "/drive_c/Suite/Text Editor.exe")))
      = false ∧
    is_lnk_file_processed suite_prefix lnk_file
      (extract_exe_files_from_lnk suite_files (find_lnk_files suite_files suite_prefix)
         suite_prefix ∅).2 = true.
Proof.
  apply (extract_exe_files_from_lnk_sound suite_files
           (find_lnk_files suite_files suite_prefix) suite_prefix ∅).
  apply list_elem_of_In. vm_compute. left. reflexivity.
Defined.

(** ** Grouping by product name *)

Lemma product_name_map_append_concat product_name exe_file product_name_map :
  List.concat (snd <$> product_name_map_append product_name exe_file product_name_map) ≡ₚ
  exe_file :: List.concat (snd <$> product_name_map).
Proof.
  induction product_name_map as [|[name exe_files] rest IH]; cbn; [done|].
  destruct (String.eqb name product_name); cbn.
  - rewrite <- app_assoc. cbn. by rewrite <- Permutation_middle.
  - rewrite IH. by rewrite <- Permutation_middle.
Qed.

Lemma group_by_product_name_files F exe_files product_name_map :
  (call_exe_file <$> (group_by_product_name F exe_files product_name_map).1) ++
  List.concat (snd <$> (group_by_product_name F exe_files product_name_map).2) ≡ₚ
  exe_files ++ List.concat (snd <$> product_name_map).
Proof.
  revert product_name_map.
  induction exe_files as [|exe_file rest IH]; intros product_name_map; [done|].
  cbn [group_by_product_name].
  destruct (get_product_name F exe_file) as [[|c name]|].
  - specialize (IH product_name_map).
    destruct (group_by_product_name F rest product_name_map). cbn in *. by rewrite IH.
  - rewrite IH, product_name_map_append_concat. cbn. by rewrite <- Permutation_middle.
  - specialize (IH product_name_map).
    destruct (group_by_product_name F rest product_name_map). cbn in *. by rewrite IH.
Qed.

Lemma calls_for_products_files product_name_map :
  call_exe_file <$> calls_for_products product_name_map = List.concat (snd <$> product_name_map).
Proof.
  unfold calls_for_products.
  induction product_name_map as [|[name exe_files] rest IH]; [done|].
  cbn [flat_map]. rewrite fmap_app, IH, fmap_cons. cbn [List.concat snd]. f_equal.
  generalize (Nat.ltb 1 (List.length exe_files)). intros use_exe_name.
  induction exe_files as [|exe_file exe_files IHfiles]; [done|].
  cbn. by f_equal.
Qed.

(** X16. [create_scripts_for_lnk_files] calls [create_yaml_file] once for
    every executable found, repeated executables included: the
    executables of the calls are a permutation of the list. *)
Theorem create_yaml_file_calls_cover F exe_files :
  call_exe_file <$> create_yaml_file_calls F exe_files ≡ₚ exe_files.
Proof.
  unfold create_yaml_file_calls.
  pose proof (group_by_product_name_files F exe_files []) as Hfiles.
  destruct (group_by_product_name F exe_files []) as [calls product_name_map].
  cbn in Hfiles. rewrite app_nil_r in Hfiles.
  by rewrite fmap_app, calls_for_products_files.
Qed.

Lemma product_name_map_append_keys product_name exe_file product_name_map name :
  name ∈ fst <$> product_name_map_append product_name exe_file product_name_map ↔
  name = product_name ∨ name ∈ fst <$> product_name_map.
Proof.
  induction product_name_map as [|[key exe_files] rest IH]; cbn.
  { rewrite list_elem_of_singleton. split; [by left|]. intros [?|H]; [done|].
    by apply elem_of_nil in H. }
  destruct (String.eqb_spec key product_name) as [->|Hne]; cbn.
  - rewrite elem_of_cons. tauto.
  - rewrite !elem_of_cons, IH. tauto.
Qed.

Lemma product_name_map_append_elem product_name exe_file product_name_map name exe_files :
  NoDup (fst <$> product_name_map) →
  (name, exe_files) ∈ product_name_map_append product_name exe_file product_name_map →
  (name ≠ product_name ∧ (name, exe_files) ∈ product_name_map) ∨
  (name = product_name ∧
   ((∃ old, (name, old) ∈ product_name_map ∧ exe_files = old ++ [exe_file]) ∨
    ((name ∉ fst <$> product_name_map) ∧ exe_files = [exe_file]))).
Proof.
  induction product_name_map as [|[key old] rest IH]; cbn; intros Hnodup Hin.
  { apply list_elem_of_singleton in Hin as [= -> ->]. right. split; [done|]. right.
    split; [apply not_elem_of_nil|done]. }
  apply NoDup_cons in Hnodup as [Hkey Hnodup].
  destruct (String.eqb_spec key product_name) as [->|Hne].
  - apply elem_of_cons in Hin as [[= -> ->]|Hin].
    + right. split; [done|]. left. exists old. split; [by left|done].
    + left. split; [|by right]. intros ->. apply Hkey.
      apply list_elem_of_fmap. by exists (product_name, exe_files).
  - apply elem_of_cons in Hin as [[= -> ->]|Hin].
    + left. split; [done|by left].
    + destruct (IH Hnodup Hin) as [[Hname Hrest]|[-> [(old' & Hold & ->)|[Hnew ->]]]].
      * left. split; [done|by right].
      * right. split; [done|]. left. exists old'. split; [by right|done].
      * right. split; [done|]. right. split; [|done].
        cbn. rewrite not_elem_of_cons. by split.
Qed.

Lemma product_name_map_append_NoDup product_name exe_file product_name_map :
  NoDup (fst <$> product_name_map) →
  NoDup (fst <$> product_name_map_append product_name exe_file product_name_map).
Proof.
  induction product_name_map as [|[key old] rest IH]; cbn; intros Hnodup.
  { apply NoDup_singleton. }
  apply NoDup_cons in Hnodup as [Hkey Hnodup].
  destruct (String.eqb_spec key product_name) as [->|Hne]; cbn.
  - by apply NoDup_cons.
  - apply NoDup_cons. split; [|by apply IH].
    rewrite product_name_map_append_keys. by intros [?|?].
Qed.

Lemma groups_append F seen exe_file c name product_name_map :
  get_product_name F exe_file = Some (String c name) →
  groups F seen product_name_map →
  groups F (seen ++ [exe_file])
    (product_name_map_append (String c name) exe_file product_name_map).
Proof.
  intros Hname (Hnodup & Hitems & Hkeys). split; [|split].
  - by apply product_name_map_append_NoDup.
  - intros key exe_files Hin.
    apply product_name_map_append_elem in Hin
      as [[Hkey Hin]|[-> [(old & Hold & ->)|[Hnew ->]]]]; [|..|done].
    + destruct (Hitems _ _ Hin) as [Hne ->]. split; [done|].
      rewrite filter_app, filter_cons_False, filter_nil, app_nil_r; [done|].
      intros Heq. rewrite Hname in Heq. by injection Heq as <-.
    + destruct (Hitems _ _ Hold) as [Hne ->]. split; [done|].
      by rewrite filter_app, filter_cons_True.
    + split; [done|].
      rewrite filter_app, filter_cons_True, filter_nil by done.
      assert (filter (λ e, get_product_name F e = Some (String c name)) seen = []) as ->;
        [|done].
      destruct (filter _ seen) as [|e found] eqn:Hfound; [done|]. exfalso.
      assert (e ∈ filter (λ e, get_product_name F e = Some (String c name)) seen) as He.
      { rewrite Hfound. by left. }
      apply list_elem_of_filter in He as [Heq He]. apply Hnew. by apply (Hkeys e).
  - intros e key He Hkey Hne. apply product_name_map_append_keys.
    apply elem_of_app in He as [He|He%list_elem_of_singleton].
    + right. by apply (Hkeys e).
    + subst e. left. rewrite Hname in Hkey. by injection Hkey as <-.
Qed.

Lemma groups_skip F seen exe_file product_name_map :
  named F exe_file = false →
  groups F seen product_name_map →
  groups F (seen ++ [exe_file]) product_name_map.
Proof.
  unfold named. intros Hname (Hnodup & Hitems & Hkeys). split; [done|]. split.
  - intros key exe_files Hin. destruct (Hitems _ _ Hin) as [Hne ->]. split; [done|].
    rewrite filter_app, filter_cons_False, filter_nil, app_nil_r; [done|].
    intros Heq. rewrite Heq in Hname. by destruct key.
  - intros e key He Hkey Hne.
    apply elem_of_app in He as [He|He%list_elem_of_singleton]; [by apply (Hkeys e)|].
    subst e. rewrite Hkey in Hname. by destruct key.
Qed.

Lemma group_by_product_name_spec F seen exe_files product_name_map :
  groups F seen product_name_map →
  groups F (seen ++ exe_files) (group_by_product_name F exe_files product_name_map).2 ∧
  ∀ call, call ∈ (group_by_product_name F exe_files product_name_map).1 →
    call_use_exe_name call = false ∧ named F (call_exe_file call) = false.
Proof.
  revert seen product_name_map.
  induction exe_files as [|exe_file rest IH]; intros seen product_name_map Hgroups.
  { rewrite app_nil_r. split; [done|]. intros call Hcall. by apply elem_of_nil in Hcall. }
  cbn [group_by_product_name]. replace (seen ++ exe_file :: rest)
    with ((seen ++ [exe_file]) ++ rest) by by rewrite <- app_assoc.
  destruct (get_product_name F exe_file) as [[|c name]|] eqn:Hname.
  - destruct (IH (seen ++ [exe_file]) product_name_map) as [Hmap Hcalls].
    { apply groups_skip; [|done]. unfold named. by rewrite Hname. }
    destruct (group_by_product_name F rest product_name_map). cbn [fst snd] in *.
    split; [done|]. intros call [->|Hcall]%elem_of_cons; [|by apply Hcalls].
    cbn. unfold named. by rewrite Hname.
  - apply IH. by apply groups_append.
  - destruct (IH (seen ++ [exe_file]) product_name_map) as [Hmap Hcalls].
    { apply groups_skip; [|done]. unfold named. by rewrite Hname. }
    destruct (group_by_product_name F rest product_name_map). cbn [fst snd] in *.
    split; [done|]. intros call [->|Hcall]%elem_of_cons; [|by apply Hcalls].
    cbn. unfold named. by rewrite Hname.
Qed.

(** X17. A call of [create_yaml_file] made by [create_scripts_for_lnk_files]
    has [use_exe_name] set exactly when the executable has a non-empty
    product name that at least two of the executables found carry; the
    program name of such a descriptor is the stem of the executable. *)
Theorem create_yaml_file_calls_use_exe_name F exe_files call :
  call ∈ create_yaml_file_calls F exe_files →
  (call_use_exe_name call = true ↔
   ∃ name, name ≠ "" ∧
     get_product_name F (call_exe_file call) = Some name ∧
     (2 ≤ List.length (filter (λ exe_file, get_product_name F exe_file = Some name)
                         exe_files))%nat) ∧
  (call_use_exe_name call = true →
   yaml_progname F (call_exe_file call) (call_use_exe_name call)
     = Pathlib.stem (call_exe_file call)).
Proof.
  unfold create_yaml_file_calls. intros Hcall. split.
  2:{ intros ->. reflexivity. }
  destruct (group_by_product_name_spec F [] exe_files []) as [(Hnodup & Hitems & _) Hdirect].
  { split; [constructor|]. split; intros ? ? H; by apply elem_of_nil in H. }
  destruct (group_by_product_name F exe_files []) as [calls product_name_map].
  cbn [fst snd app] in *. apply elem_of_app in Hcall as [Hcall|Hcall].
  - destruct (Hdirect _ Hcall) as [-> Hunnamed]. split; [done|].
    intros (name & Hne & Hname & _). unfold named in Hunnamed.
    rewrite Hname in Hunnamed. by destruct name.
  - unfold calls_for_products in Hcall. apply list_elem_of_In, in_flat_map in Hcall
      as ([name group] & Hitem%list_elem_of_In & Hcall).
    apply in_map_iff in Hcall as (exe_file & <- & Hexe%list_elem_of_In).
    cbn [call_use_exe_name call_exe_file snd] in *.
    destruct (Hitems _ _ Hitem) as [Hne Hgroup].
    assert (get_product_name F exe_file = Some name) as Hname.
    { rewrite Hgroup in Hexe. by apply list_elem_of_filter in Hexe as [? _]. }
    rewrite Nat.ltb_lt. split.
    + intros Hlen. exists name. rewrite <- Hgroup. split; [done|]. split; [done|lia].
    + intros (name' & _ & Hname' & Hlen). rewrite Hname in Hname'.
      injection Hname' as <-. rewrite <- Hgroup in Hlen. lia.
Qed.

Lemma create_yaml_file_calls_use_exe_name_witness :
  let call := {| call_exe_file := suite_prefix +:+ "/drive_c/Suite/Text Editor.exe";
                 call_use_exe_name := true |} in
  (call_use_exe_name call = true ↔
   ∃ name, name ≠ "" ∧
     get_product_name suite_files (call_exe_file call) = Some name ∧
     (2 ≤ List.length
            (filter (λ exe_file, get_product_name suite_files exe_file = Some name)
               suite_exe_files))%nat) ∧
  (call_use_exe_name call = true →
   yaml_progname suite_files (call_exe_file call) (call_use_exe_name call)
     = Pathlib.stem (call_exe_file call)).
Proof.
  apply (create_yaml_file_calls_use_exe_name suite_files suite_exe_files).
  apply list_elem_of_In. vm_compute. left. reflexivity.
Defined.

(** ** Buttons and search *)

Lemma replace_char_twice c d s :
  replace_char c d (replace_char d c s) = replace_char c d s.
Proof.
  induction s as [|a s IH]; [done|]. cbn. rewrite IH. f_equal.
  destruct (Ascii.eqb_spec a d) as [->|Hd].
  - rewrite Ascii.eqb_refl. by destruct (Ascii.eqb d c).
  - destruct (Ascii.eqb_spec a c) as [->|Hc]; [done|].
    by destruct (Ascii.eqb_spec a c).
Qed.

Lemma replace_char_occurs c d s : c ≠ d → occurs c (replace_char c d s) = false.
Proof.
  intros Hne. induction s as [|a s IH]; [done|]. cbn. rewrite IH, orb_false_r.
  destruct (Ascii.eqb_spec a c) as [->|Hc].
  - apply Ascii.eqb_neq. congruence.
  - by apply Ascii.eqb_neq.
Qed.

(** X19. On rows built by the program, by [create_script_button] or by
    [show_initializing_step], [find_button_by_script_stem] returns
    [None] for every stem: the widget it reads the label from is the
    sibling of the box inside the button, and the box has none. *)
Theorem find_button_by_script_stem_finds_nothing flowbox_children script_stem :
  Forall row_of_program flowbox_children →
  find_button_by_script_stem flowbox_children script_stem = Ret None.
Proof. apply find_button_by_script_stem_none. Qed.

Lemma find_button_by_script_stem_finds_nothing_witness :
  find_button_by_script_stem
    [create_script_button hl_script; show_initializing_step "Initializing wineprefix";
     create_script_button game_script]
    (Pathlib.stem game_script) = Ret None.
Proof.
  apply (find_button_by_script_stem_finds_nothing
           [create_script_button hl_script;
            show_initializing_step "Initializing wineprefix";
            create_script_button game_script]
           (Pathlib.stem game_script)).
  apply List.Forall_cons; [left; eexists; reflexivity|].
  apply List.Forall_cons; [right; eexists; reflexivity|].
  apply List.Forall_cons; [left; eexists; reflexivity|].
  apply List.Forall_nil.
Defined.

(** X20. Whatever rows the flow box holds, [find_button_by_script_stem]
    returns no row for a stem that contains a blank: the text of the
    label is compared after its blanks are replaced by underscores. *)
Theorem find_button_by_script_stem_blank flowbox_children script_stem row :
  occurs " " script_stem = true →
  find_button_by_script_stem flowbox_children script_stem ≠ Ret (Some row).
Proof.
  intros Hblank. induction flowbox_children as [|child rest IH]; [done|].
  cbn [find_button_by_script_stem].
  destruct (script_label_of child) as [[script_label|]|e]; [|done|done].
  destruct (Gtk.get_text script_label) as [text|e]; [|done].
  destruct (String.eqb_spec (replace_char " " "_" text) script_stem) as [Heq|_]; [|done].
  exfalso. rewrite <- Heq, replace_char_occurs in Hblank; done.
Qed.

Lemma find_button_by_script_stem_blank_witness :
  find_button_by_script_stem [row_with_label_beside "My Game"] "My_Game"
    = Ret (Some (row_with_label_beside "My Game")) ∧
  find_button_by_script_stem [row_with_label_beside "My Game"] (Pathlib.stem blank_script)
    ≠ Ret (Some (row_with_label_beside "My Game")).
Proof.
  split; [reflexivity|].
  apply (find_button_by_script_stem_blank [row_with_label_beside "My Game"]
           (Pathlib.stem blank_script) (row_with_label_beside "My Game")).
  vm_compute. reflexivity.
Defined.

Lemma append_cons x (a b : string) : String x a +:+ b = String x (a +:+ b).
Proof. reflexivity. Qed.

Lemma append_assoc (a b c : string) : (a +:+ b) +:+ c = a +:+ (b +:+ c).
Proof. induction a as [|x a IH]; [done|]. by rewrite !append_cons, IH. Qed.

Lemma prefix_append needle hay :
  String.prefix needle hay = true ↔ ∃ post, hay = needle +:+ post.
Proof.
  revert hay. induction needle as [|x needle IH]; intros hay.
  { split; [by exists hay|by destruct hay]. }
  destruct hay as [|y hay].
  { split; [done|]. intros [post Hpost]. by rewrite append_cons in Hpost. }
  cbn [String.prefix]. destruct (Ascii.ascii_dec x y) as [->|Hne].
  - rewrite IH. split; intros [post Hpost]; exists post.
    + by rewrite append_cons, Hpost.
    + rewrite append_cons in Hpost. by injection Hpost.
  - split; [done|]. intros [post Hpost]. rewrite append_cons in Hpost.
    injection Hpost as ? _. congruence.
Qed.

Lemma contains_append needle hay :
  PyStr.contains needle hay = true ↔ ∃ pre post, hay = pre +:+ needle +:+ post.
Proof.
  induction hay as [|y hay IH]; cbn [PyStr.contains].
  - rewrite orb_false_r, prefix_append. split.
    + intros [post Hpost]. by exists "", post.
    + intros (pre & post & Heq). destruct pre; [by exists post|].
      by rewrite append_cons in Heq.
  - rewrite orb_true_iff, prefix_append, IH. split.
    + intros [[post Hpost]|(pre & post & Heq)].
      * by exists "", post.
      * exists (String y pre), post. by rewrite append_cons, Heq.
    + intros (pre & post & Heq). destruct pre as [|x pre].
      * left. by exists post.
      * right. exists pre, post. rewrite append_cons in Heq. by injection Heq.
Qed.

Lemma contains_trans a b c :
  PyStr.contains a b = true → PyStr.contains b c = true → PyStr.contains a c = true.
Proof.
  rewrite !contains_append. intros (p1 & q1 & ->) (p2 & q2 & ->).
  exists (p2 +:+ p1), (q1 +:+ q2). by rewrite !append_assoc.
Qed.

Lemma isascii_append a b : isascii (a +:+ b) = isascii a && isascii b.
Proof.
  induction a as [|x a IH]; [done|]. rewrite append_cons. cbn [isascii].
  by rewrite IH, andb_assoc.
Qed.

Lemma contains_isascii needle hay :
  PyStr.contains needle hay = true → isascii hay = true → isascii needle = true.
Proof.
  rewrite contains_append. intros (pre & post & ->).
  rewrite !isascii_append, !andb_true_iff. tauto.
Qed.

Lemma lower_append a b : PyStr.lower (a +:+ b) = PyStr.lower a +:+ PyStr.lower b.
Proof. induction a as [|x a IH]; [done|]. rewrite append_cons. cbn. by rewrite IH. Qed.

Lemma contains_lower needle hay :
  PyStr.contains needle hay = true →
  PyStr.contains (PyStr.lower needle) (PyStr.lower hay) = true.
Proof.
  rewrite !contains_append. intros (pre & post & ->).
  exists (PyStr.lower pre), (PyStr.lower post). by rewrite !lower_append.
Qed.

Section Search.
Context (str_lower : string → string).

Lemma filter_script_list_sublist scripts search_term :
  sublist (filter_script_list str_lower scripts search_term) scripts.
Proof.
  unfold filter_script_list.
  induction scripts as [|script scripts IH]; cbn [List.filter]; [done|].
  destruct (PyStr.contains _ _); by constructor.
Qed.

(** A search term that holds the term before it narrows the list. *)
Lemma filter_script_list_narrows scripts shorter longer :
  PyStr.contains shorter longer = true →
  filter_script_list str_lower scripts longer =
    filter_script_list str_lower (filter_script_list str_lower scripts shorter) longer ∧
  sublist (filter_script_list str_lower scripts longer)
    (filter_script_list str_lower scripts shorter).
Proof.
  intros Hshorter.
  assert (filter_script_list str_lower scripts longer =
          filter_script_list str_lower (filter_script_list str_lower scripts shorter) longer)
    as Heq.
  { unfold filter_script_list.
    induction scripts as [|script scripts IH]; cbn [List.filter]; [done|].
    destruct (PyStr.contains longer _) eqn:Hlonger.
    - rewrite (contains_trans _ _ _ Hshorter Hlonger). cbn [List.filter].
      rewrite Hlonger. by f_equal.
    - destruct (PyStr.contains shorter (str_lower (Pathlib.stem script)));
        cbn [List.filter]; [by rewrite Hlonger|done]. }
  split; [done|]. rewrite Heq. apply filter_script_list_sublist.
Qed.

End Search.

(** X21. Typing on narrows the list, for text in ASCII: when the text typed
    before occurs in the new text, the new search result is the search
    for the new text within the old result, and a sublist of the old
    result. [str_lower] is [str.lower], of which only the values on
    ASCII text are fixed. *)
Theorem on_search_entry_changed_narrows str_lower scripts shorter longer :
  (∀ s, isascii s = true → str_lower s = PyStr.lower s) →
  isascii longer = true →
  PyStr.contains shorter longer = true →
  on_search_entry_changed str_lower scripts longer =
    on_search_entry_changed str_lower
      (on_search_entry_changed str_lower scripts shorter) longer ∧
  on_search_entry_changed str_lower scripts longer `sublist_of`
    on_search_entry_changed str_lower scripts shorter.
Proof.
  intros Hlower Hascii Hshorter. unfold on_search_entry_changed.
  apply filter_script_list_narrows.
  rewrite !Hlower by eauto using contains_isascii.
  by apply contains_lower.
Qed.

(** X22. The search ignores the case of ASCII letters: a script of the list
    whose stem is in ASCII is shown whenever the text typed is, up to
    letter case, a part of its stem. *)
Theorem on_search_entry_changed_finds str_lower scripts text part script :
  (∀ s, isascii s = true → str_lower s = PyStr.lower s) →
  script ∈ scripts →
  isascii text = true →
  isascii (Pathlib.stem script) = true →
  PyStr.contains part (Pathlib.stem script) = true →
  PyStr.lower text = PyStr.lower part →
  script ∈ on_search_entry_changed str_lower scripts text.
Proof.
  intros Hlower Hin Hascii Hstem Hpart Htext.
  unfold on_search_entry_changed, filter_script_list.
  apply list_elem_of_In, List.filter_In. split; [by apply list_elem_of_In|].
  rewrite !Hlower by done. rewrite Htext. by apply contains_lower.
Qed.

Lemma on_search_entry_changed_narrows_witness :
  on_search_entry_changed PyStr.lower [hl_script; game_script; app_script] "GA" =
    on_search_entry_changed PyStr.lower
      (on_search_entry_changed PyStr.lower [hl_script; game_script; app_script] "A") "GA" ∧
  on_search_entry_changed PyStr.lower [hl_script; game_script; app_script] "GA" `sublist_of`
    on_search_entry_changed PyStr.lower [hl_script; game_script; app_script] "A".
Proof.
  apply (on_search_entry_changed_narrows PyStr.lower [hl_script; game_script; app_script]
           "A" "GA").
  - intros s _. reflexivity.
  - vm_compute. reflexivity.
  - vm_compute. reflexivity.
Defined.

Lemma on_search_entry_changed_finds_witness :
  hl_script ∈ on_search_entry_changed PyStr.lower [hl_script; game_script; app_script]
    "half-LIFE".
Proof.
  apply (on_search_entry_changed_finds PyStr.lower [hl_script; game_script; app_script]
           "half-LIFE" "Half-Life" hl_script).
  - intros s _. reflexivity.
  - apply list_elem_of_In. left. reflexivity.
  - vm_compute. reflexivity.
  - vm_compute. reflexivity.
  - vm_compute. reflexivity.
  - vm_compute. reflexivity.
Defined.

(** ** The name of a descriptor *)

Lemma split_go_slash_free cur b :
  occurs "/" b = false → PyStr.split_go "/" 0 cur b = [cur +:+ b].
Proof.
  revert cur. induction b as [|c b IH]; intros cur Hb.
  { cbn. f_equal. clear. induction cur as [|x cur IH]; [done|]. by rewrite append_cons, <- IH. }
  cbn in Hb. apply orb_false_iff in Hb as [Hc Hb].
  cbn [PyStr.split_go String.prefix].
  destruct (Ascii.ascii_dec "/" c) as [<-|Hne]; [done|].
  rewrite IH by done. by rewrite append_assoc.
Qed.

Lemma split_go_last_field a cur b :
  occurs "/" b = false →
  ∃ fields, PyStr.split_go "/" 0 cur (a +:+ "/" +:+ b) = fields ++ [b].
Proof.
  intros Hb. revert cur. induction a as [|c a IH]; intros cur.
  - change ("" +:+ "/" +:+ b) with (String "/" b).
    cbn [PyStr.split_go String.prefix].
    destruct (Ascii.ascii_dec "/" "/") as [_|?]; [|done].
    destruct b; cbn [String.prefix String.length Nat.sub]; exists [cur];
      by rewrite split_go_slash_free.
  - rewrite append_cons. cbn [PyStr.split_go String.prefix].
    destruct (Ascii.ascii_dec "/" c) as [<-|Hne].
    + destruct (IH "") as [fields Hfields].
      destruct (a +:+ "/" +:+ b); cbn [String.prefix String.length Nat.sub];
        exists (cur :: fields); by rewrite Hfields.
    + apply IH.
Qed.

Lemma name_joinpath base file :
  file ≠ "" → occurs "/" file = false →
  Pathlib.name (Pathlib.joinpath base file) = file.
Proof.
  intros Hfile Hclean.
  assert (∃ a, Pathlib.joinpath base file = a +:+ "/" +:+ file) as [a ->].
  { unfold Pathlib.joinpath. destruct (String.eqb_spec file ""); [done|].
    destruct file as [|c file]; [done|]. cbn [String.prefix].
    cbn in Hclean. apply orb_false_iff in Hclean as [Hc _].
    destruct (Ascii.ascii_dec "/" c) as [<-|_]; [done|].
    destruct (String.eqb base "/") eqn:Hbase.
    - apply String.eqb_eq in Hbase as ->. by exists "".
    - by exists base. }
  unfold Pathlib.name, PyStr.split.
  destruct (split_go_last_field a "" file Hclean) as [fields ->].
  rewrite List.filter_app. cbn [List.filter].
  destruct (String.eqb_spec file ""); [done|]. cbn [negb]. apply List.last_last.
Qed.

Lemma length_append (a b : string) :
  String.length (a +:+ b) = (String.length a + String.length b)%nat.
Proof. induction a as [|x a IH]; [done|]. rewrite append_cons. cbn. by rewrite IH. Qed.

Lemma rfind_dot_go_append i found a b :
  PyStr.rfind_dot_go i found (a +:+ b) =
  PyStr.rfind_dot_go (i + String.length a) (PyStr.rfind_dot_go i found a) b.
Proof.
  revert i found. induction a as [|x a IH]; intros i found.
  { cbn. by rewrite Nat.add_0_r. }
  rewrite append_cons. cbn [PyStr.rfind_dot_go String.length]. rewrite IH.
  by replace (S i + String.length a)%nat with (i + S (String.length a))%nat by lia.
Qed.

Lemma take_append a b : PyStr.take (String.length a) (a +:+ b) = a.
Proof. induction a as [|x a IH]; [by destruct b|]. rewrite append_cons. cbn. by rewrite IH. Qed.

Lemma rfind_dot_go_charm i found : PyStr.rfind_dot_go i found ".charm" = Some i.
Proof. reflexivity. Qed.

Lemma stem_of_charm_file base n :
  n ≠ "" → occurs "/" n = false →
  Pathlib.stem (Pathlib.joinpath base (n +:+ ".charm")) = n.
Proof.
  intros Hn Hclean. unfold Pathlib.stem. rewrite name_joinpath.
  - unfold PyStr.rfind_dot.
    rewrite rfind_dot_go_append, rfind_dot_go_charm, length_append, Nat.add_0_l.
    assert (0 < String.length n)%nat as Hlen by (destruct n; [done|cbn; lia]).
    change (String.length ".charm") with 6%nat.
    assert ((0 <? String.length n)%nat &&
            (String.length n <? String.length n + 6 - 1)%nat = true) as ->.
    { apply andb_true_intro. split; apply Nat.ltb_lt; lia. }
    apply take_append.
  - destruct n; [done|]. by rewrite append_cons.
  - clear Hn. induction n as [|c n IH]; [done|].
    rewrite append_cons. cbn in *. apply orb_false_iff in Hclean as [-> Hclean].
    by apply IH.
Qed.

(** X18. When the program name is not empty and has no slash, the stem of the
    descriptor file that [create_yaml_file] writes is the program name
    with blanks replaced by underscores; it has no blank, and the label
    of its button shows the program name with underscores as blanks. *)
Theorem yaml_file_path_stem F exe_path prefix_dir use_exe_name :
  let progname := yaml_progname F exe_path use_exe_name in
  let script := yaml_file_path F exe_path prefix_dir use_exe_name in
  progname ≠ "" →
  occurs "/" progname = false →
  Pathlib.stem script = replace_char " " "_" progname ∧
  occurs " " (Pathlib.stem script) = false ∧
  label_text script = replace_char "_" " " progname.
Proof.
  intros progname script Hname Hclean.
  assert (Pathlib.stem script = replace_char " " "_" progname) as Hstem.
  { apply stem_of_charm_file.
    - destruct progname; [done|]. discriminate.
    - clear -Hclean. induction progname as [|c progname IH]; [done|].
      cbn in *. apply orb_false_iff in Hclean as [Hc Hclean]. rewrite IH by done.
      rewrite orb_false_r. destruct (Ascii.eqb_spec c " ") as [->|_]; [done|exact Hc]. }
  split; [done|]. unfold label_text. rewrite Hstem. split.
  - by apply replace_char_occurs.
  - apply replace_char_twice.
Qed.

Lemma yaml_file_path_stem_witness :
  let exe_path := suite_prefix +:+ "/drive_c/Suite/Text Editor.exe" in
  Pathlib.stem (yaml_file_path suite_files exe_path suite_prefix true) = "Text_Editor" ∧
  occurs " " (Pathlib.stem (yaml_file_path suite_files exe_path suite_prefix true)) = false ∧
  label_text (yaml_file_path suite_files exe_path suite_prefix true) = "Text Editor".
Proof.
  apply (yaml_file_path_stem suite_files (suite_prefix +:+ "/drive_c/Suite/Text Editor.exe")
           suite_prefix true).
  - vm_compute. discriminate.
  - vm_compute. reflexivity.
Defined.

(** * The states the program comes to *)

(** ** Computations that keep the records with their children *)

Lemma supervised_of_eq st st' :
  running_processes st' = running_processes st → procs st' = procs st →
  supervised st st'.
Proof. intros Hreg Hprocs. split; rewrite ?Hreg, ?Hprocs; auto. Qed.

Lemma supervised_trans st1 st2 st3 :
  supervised st1 st2 → supervised st2 st3 → supervised st1 st3.
Proof.
  intros [Hp12 Hr12] [Hp23 Hr23]. split.
  - intros p Hp. destruct (Hp23 p Hp) as [Hin|Hnew]; [by apply Hp12|by right].
  - intros k r Hk. destruct (Hr23 k r Hk) as [Hold|Hnew]; [|by right].
    destruct (Hr12 k r Hold) as [Hold1|(child & s & -> & -> & Hchild)]; [by left|].
    right. exists child, s. split; [done|]. split; [done|].
    intros p Hp Hpid. destruct (Hp23 p Hp) as [Hin|[Howned Hgroup]]; [by apply Hchild|].
    split; [done|]. congruence.
Qed.

Lemma supervised_launched_here st st' :
  launched_here st → supervised st st' → launched_here st'.
Proof.
  intros Hinv [Hprocs Hrecords] k r Hk.
  destruct (Hrecords k r Hk) as [Hold|Hnew]; [|done].
  destruct (Hinv k r Hold) as (child & s & -> & -> & Hchild).
  exists child, s. split; [done|]. split; [done|].
  intros p Hp Hpid. destruct (Hprocs p Hp) as [Hin|[Howned Hgroup]]; [by apply Hchild|].
  split; [done|]. congruence.
Qed.

Lemma supervises_unchanged {A} (c : M A) :
  (∀ st, running_processes (c st).2 = running_processes st ∧ procs (c st).2 = procs st) →
  supervises c.
Proof. intros H st. destruct (H st). by apply supervised_of_eq. Qed.

Lemma supervises_ret {A} (a : A) : supervises (mret a).
Proof. by apply supervises_unchanged. Qed.

Lemma supervises_raise {A} (e : exn) : supervises (raise e : M A).
Proof. by apply supervises_unchanged. Qed.

Lemma supervises_emit e : supervises (emit e).
Proof. by apply supervises_unchanged. Qed.

Lemma supervises_lift_outcome {A} (r : outcome A) : supervises (lift_outcome r).
Proof. by apply supervises_unchanged. Qed.

Lemma supervises_registry_contains k : supervises (registry_contains k).
Proof. by apply supervises_unchanged. Qed.

Lemma supervises_registry_get k : supervises (registry_get k).
Proof. by apply supervises_unchanged. Qed.

Lemma supervises_registry_keys : supervises registry_keys.
Proof. by apply supervises_unchanged. Qed.

Lemma supervises_get_procs : supervises get_procs.
Proof. by apply supervises_unchanged. Qed.

Lemma supervises_check_output_pgrep E full pattern :
  supervises (check_output_pgrep E full pattern).
Proof. by apply supervises_unchanged. Qed.

Lemma supervises_extract_yaml_info E script : supervises (extract_yaml_info E script).
Proof.
  apply supervises_unchanged. intros st. unfold extract_yaml_info.
  by destruct (charm_file E script).
Qed.

Lemma supervises_registry_pop k : supervises (registry_pop k).
Proof.
  intros st. split; [by left|]. cbn. intros k' r Hk. left.
  by apply lookup_delete_Some in Hk as [_ Hk].
Qed.

Lemma supervises_registry_clear : supervises registry_clear.
Proof. intros st. split; [by left|]. cbn. intros k r Hk. by rewrite lookup_empty in Hk. Qed.

Lemma supervises_os_kill target sig : supervises (os_kill target sig).
Proof.
  intros st. unfold os_kill, OS.kill.
  destruct (List.find _ (procs st)) as [p|]; [|by apply supervised_of_eq].
  destruct (OS.owned p); [|by apply supervised_of_eq].
  split; [|by left]. cbn. intros q Hq. left. destruct sig; [done|].
  apply list_elem_of_In, List.filter_In in Hq as [Hq _]. by apply list_elem_of_In.
Qed.

Lemma supervises_os_killpg group sig : supervises (os_killpg group sig).
Proof.
  intros st. unfold os_killpg, OS.killpg.
  destruct (List.filter _ (procs st)) as [|m members]; [by apply supervised_of_eq|].
  destruct (List.existsb OS.owned (m :: members)); [|by apply supervised_of_eq].
  split; [|by left]. cbn. intros q Hq. left. destruct sig; [done|].
  apply list_elem_of_In, List.filter_In in Hq as [Hq _]. by apply list_elem_of_In.
Qed.

Lemma supervises_bind {A B} (c : M A) (k : A → M B) :
  supervises c → (∀ a, supervises (k a)) → supervises (c ≫= k).
Proof.
  intros Hc Hk st. specialize (Hc st). unfold_monad.
  destruct (c st) as [[a|e] st1]; cbn in *; [|done].
  eapply supervised_trans; [done|apply Hk].
Qed.

Lemma supervises_try_except {A} (c : M A) handled (h : exn → M A) :
  supervises c → (∀ e, supervises (h e)) → supervises (try_except c handled h).
Proof.
  intros Hc Hh st. specialize (Hc st). unfold try_except.
  destruct (c st) as [[a|e] st1]; cbn in *; [done|].
  destruct (handled e); [|done].
  eapply supervised_trans; [done|apply Hh].
Qed.

Ltac supervises_step :=
  first
    [ apply supervises_bind; [|intros ?]
    | apply supervises_try_except; [|intros ?]
    | apply supervises_ret
    | apply (supervises_ret ())
    | apply supervises_raise
    | apply supervises_registry_contains
    | apply supervises_registry_get
    | apply supervises_registry_keys
    | apply supervises_registry_pop
    | apply supervises_registry_clear
    | apply supervises_get_procs
    | apply supervises_lift_outcome
    | apply supervises_extract_yaml_info
    | apply supervises_os_kill
    | apply supervises_os_killpg
    | apply supervises_check_output_pgrep
    | apply supervises_emit
    | match goal with
      | |- supervises (match ?x with _ => _ end) => destruct x
      | |- supervises (if ?x then _ else _) => destruct x
      end ].

Ltac supervises_all := repeat (unfold print, ui; supervises_step).

Lemma only_queries_supervises {A} (c : M A) : only_queries c → supervises c.
Proof. intros Hc st. destruct (Hc st) as (events & -> & _). by apply supervised_of_eq. Qed.

Lemma update_related_scripts_buttons_supervises E prefix :
  supervises (update_related_scripts_buttons E prefix).
Proof. apply only_queries_supervises, update_related_scripts_loop_queries. Qed.

Lemma terminate_kill_loop_supervises E script prefix winecharm_pids pids :
  supervises (terminate_kill_loop E script prefix winecharm_pids pids).
Proof.
  induction pids as [|p pids IH]; cbn [terminate_kill_loop].
  - supervises_all.
  - apply supervises_bind; [|intros; apply IH].
    supervises_all. apply update_related_scripts_buttons_supervises.
Qed.

Lemma terminate_script_supervises E script : supervises (terminate_script E script).
Proof.
  unfold terminate_script. supervises_all. apply terminate_kill_loop_supervises.
Qed.

Lemma launch_script_supervises E script button : supervises (launch_script E script button).
Proof.
  intros st.
  destruct (charm_file E script) as [[d|e]|] eqn:Hd.
  2,3: apply supervised_of_eq; unfold launch_script, extract_yaml_info; by rewrite Hd.
  destruct (path_exists E (exe_file d)) eqn:Hexists.
  2:{ apply supervised_of_eq; unfold launch_script, extract_yaml_info;
        rewrite Hd; erewrite mbind_ret by apply print_run;
        erewrite mbind_ret by reflexivity; by rewrite Hexists. }
  destruct (popen_ok E) eqn:Hpopen.
  2:{ apply supervised_of_eq; unfold launch_script, extract_yaml_info;
        rewrite Hd; erewrite mbind_ret by apply print_run;
        erewrite mbind_ret by reflexivity; rewrite Hexists; cbn [negb];
        unfold try_except, popen; rewrite Hpopen; by unfold_monad. }
  destruct (launch_script_started E script button d st Hd Hexists Hpopen)
    as (trailer & -> & _).
  cbn [snd]. split; cbn [procs running_processes].
  - intros p Hp. apply elem_of_app in Hp as [Hp|Hp]; [by left|].
    apply list_elem_of_singleton in Hp as ->. by right.
  - assert (∀ p, p ∈ procs st ++ [shell_process (OS.fresh_pid (procs st)) (launch_command d)] →
                 OS.pid p = OS.fresh_pid (procs st) →
                 OS.owned p = true ∧ OS.pgid p = OS.fresh_pid (procs st)) as Hchild.
    { intros p Hp Hpid. apply elem_of_app in Hp as [Hp|Hp].
      - pose proof (fresh_pid_above _ _ Hp). lia.
      - by apply list_elem_of_singleton in Hp as ->. }
    intros k r Hk. destruct button as [button|]; [|by left].
    destruct (decide (Pathlib.stem script = k)) as [<-|Hne].
    + rewrite lookup_insert_eq in Hk. injection Hk as <-. right. eauto.
    + rewrite lookup_insert_ne in Hk by done. by left.
Qed.

Lemma toggle_play_stop_supervises E script button :
  supervises (toggle_play_stop E script button).
Proof.
  unfold toggle_play_stop, print, ui.
  apply supervises_bind; [apply supervises_registry_contains|intros present].
  destruct present.
  - apply supervises_bind; [apply supervises_emit|intros _].
    apply supervises_bind; [apply terminate_script_supervises|intros _].
    apply supervises_emit.
  - apply supervises_bind; [apply supervises_emit|intros _].
    apply supervises_bind; [apply launch_script_supervises|intros _].
    apply supervises_emit.
Qed.

Lemma on_clicked_supervises E c : supervises (on_clicked E c).
Proof.
  destruct c as [script|script]; cbn [on_clicked].
  - apply toggle_play_stop_supervises.
  - apply supervises_bind; [apply supervises_lift_outcome|intros button].
    apply toggle_play_stop_supervises.
Qed.

Lemma process_ended_supervises E script_stem : supervises (process_ended E script_stem).
Proof.
  unfold process_ended. supervises_all. apply update_related_scripts_buttons_supervises.
Qed.

Lemma kill_all_loop_supervises pids : supervises (kill_all_loop pids).
Proof.
  induction pids as [|p pids IH]; cbn [kill_all_loop].
  - supervises_all.
  - apply supervises_bind; [|intros; apply IH]. supervises_all.
Qed.

Lemma on_kill_all_clicked_supervises E : supervises (on_kill_all_clicked E).
Proof.
  unfold on_kill_all_clicked. supervises_all. apply kill_all_loop_supervises.
Qed.

Lemma probe_supervises E r : supervises (probe E r).
Proof. unfold probe. supervises_all. Qed.

Lemma monitor_scan_supervises E keys acc : supervises (monitor_scan E keys acc).
Proof.
  revert acc. induction keys as [|k keys IH]; intros acc; cbn [monitor_scan].
  - supervises_all.
  - apply supervises_bind; [apply supervises_registry_get|intros process_info].
    destruct process_info as [r|]; [|apply IH].
    apply supervises_bind; [apply probe_supervises|intros fin; apply IH].
Qed.

Lemma idle_add_process_ended_supervises finished :
  supervises (idle_add_process_ended finished).
Proof.
  induction finished as [|k l IH]; cbn [idle_add_process_ended]; supervises_all. apply IH.
Qed.

Lemma monitor_cycle_supervises E : supervises (monitor_cycle E).
Proof.
  unfold monitor_cycle.
  apply supervises_bind; [apply supervises_emit|intros _].
  apply supervises_bind; [apply supervises_registry_keys|intros keys].
  apply supervises_bind; [apply monitor_scan_supervises|intros finished].
  apply idle_add_process_ended_supervises.
Qed.

(** Every record of a state the program comes to was written by
    [launch_script] and stands for a child of the supervisor. *)
Lemma reachable_launched_here st : reachable st → launched_here st.
Proof.
  induction 1 as [table|st st' _ IH [Hreg Hworld]|E c st _ IH|E k st _ IH|E st _ IH
                  |E prefix st _ IH|E path st _ IH|E k st _ IH|E st _ IH].
  - intros k r Hk. cbn in Hk. by rewrite lookup_empty in Hk.
  - intros k r Hk. rewrite Hreg in Hk.
    destruct (IH k r Hk) as (child & s & -> & -> & Hchild).
    exists child, s. split; [done|]. split; [done|].
    intros p Hp Hpid. destruct (Hworld p Hp) as [(q & Hq & Hqpid & Hqgroup & Hqowned)|Hfree].
    + destruct (Hchild q Hq) as [Howned Hgroup]; [congruence|]. split; congruence.
    + exfalso. apply (Hfree _ _ Hk). cbn. by rewrite Hpid.
  - eapply supervised_launched_here; [done|apply on_clicked_supervises].
  - eapply supervised_launched_here; [done|apply process_ended_supervises].
  - eapply supervised_launched_here; [done|apply on_kill_all_clicked_supervises].
  - eapply supervised_launched_here; [done|apply update_related_scripts_buttons_supervises].
  - eapply supervised_launched_here; [done|].
    unfold add_or_update_script_button. supervises_all.
  - eapply supervised_launched_here; [done|].
    apply supervised_of_eq; unfold update_script_button_state; unfold_monad;
      destruct (find_button_by_script_stem (flowbox_rows E) k) as [[button|]|e] eqn:Hfound;
      try done;
      destruct (flowbox_row_found E _ _ Hfound) as [held ->];
      by rewrite set_play_button_child_row.
  - eapply supervised_launched_here; [done|apply monitor_cycle_supervises].
Qed.

(** ** The prober on the records of the program *)

(** The group of a child that is alive can be signalled. *)
Lemma killpg_own_child child table :
  poll_finished child table = false →
  (∀ p, p ∈ table → OS.pid p = child → OS.owned p = true ∧ OS.pgid p = child) →
  OS.killpg child OS.SIG0 table = (Ret (), table).
Proof.
  intros Hpoll Hchild. unfold poll_finished in Hpoll.
  apply negb_false_iff, List.existsb_exists in Hpoll as (p & Hp & Hpid).
  apply Z.eqb_eq in Hpid.
  destruct (Hchild p ltac:(by apply list_elem_of_In) Hpid) as [Howned Hgroup].
  assert (In p (List.filter (λ q, Z.eqb (OS.pgid q) child) table)) as Hin.
  { apply List.filter_In. split; [done|]. by apply Z.eqb_eq. }
  unfold OS.killpg. destruct (List.filter _ table) as [|m members]; [done|].
  assert (existsb OS.owned (m :: members) = true) as ->; [|done].
  apply List.existsb_exists. by exists p.
Qed.


Lemma probe_launched E child s st :
  (∀ p, p ∈ procs st → OS.pid p = child → OS.owned p = true ∧ OS.pgid p = child) →
  probe E (launched_record child child s) st =
    (Ret (verdict E (procs st) (launched_record child child s)),
     logged st (group_probe (procs st) (launched_record child child s))).
Proof.
  intros Hchild. unfold probe, verdict, group_probe, launched_record.
  cbn [proc pgid script]. unfold_monad.
  destruct (poll_finished child (procs st)) eqn:Hpoll.
  - cbn [orb]. by rewrite logged_nil.
  - unfold os_killpg. rewrite (killpg_own_child child (procs st) Hpoll Hchild). done.
Qed.

Lemma monitor_scan_launched E reg table l acc st :
  running_processes st = reg → procs st = table →
  (∀ k r, (k, r) ∈ l →
     reg !! k = Some r ∧
     ∃ child s, r = launched_record child child s ∧
       ∀ p, p ∈ table → OS.pid p = child → OS.owned p = true ∧ OS.pgid p = child) →
  monitor_scan E (List.map fst l) acc st =
    (Ret (acc ++ List.filter (λ k, match reg !! k with
                                   | Some r => verdict E table r
                                   | None => false
                                   end) (List.map fst l)),
     logged st (flat_map (λ kr, group_probe table kr.2) l)).
Proof.
  revert acc st. induction l as [|[k r] l IH]; intros acc st Hreg Htable Hl.
  - cbn. by rewrite logged_nil, app_nil_r.
  - cbn [List.map fst monitor_scan List.filter flat_map snd].
    destruct (Hl k r ltac:(by left)) as (Hk & child & s & -> & Hchild).
    erewrite mbind_ret by reflexivity. rewrite Hreg, Hk. subst table.
    erewrite mbind_ret by (by apply probe_launched).
    rewrite IH; [|done|done|intros k' r' Hin; apply Hl; by right].
    rewrite logged_logged. f_equal. f_equal.
    destruct (verdict E (procs st) (launched_record child child s)); [|done].
    by rewrite <- app_assoc.
Qed.

(** One turn of the prober on records written by [launch_script]. *)
Lemma monitor_cycle_launched E st :
  launched_here st →
  monitor_cycle E st =
    (Ret (),
     logged st ([EvSleep 3] ++ probe_events st
                ++ (EvIdleAdd ∘ process_ended_task <$> finished_now E st))).
Proof.
  intros Hinv. unfold monitor_cycle.
  erewrite mbind_ret by reflexivity.
  erewrite mbind_ret by reflexivity.
  erewrite mbind_ret.
  2:{ apply (monitor_scan_launched E (running_processes st) (procs st)); [done..|].
      intros k r Hin. apply elem_of_map_to_list in Hin. split; [done|].
      destruct (Hinv k r Hin) as (child & s & -> & _ & Hchild). eauto. }
  rewrite idle_add_process_ended_spec. cbn [running_processes app].
  unfold logged, probe_events, finished_now. cbn [running_processes procs log].
  by rewrite <- !app_assoc.
Qed.






Lemma game_launched_registry :
  running_processes game_launched = {[ "game" := launched_record 51 51 game_script ]}.
Proof. vm_compute. reflexivity. Qed.

Lemma reachable_idle : reachable idle.
Proof. apply reachable_start. Qed.

Lemma reachable_game_launched : reachable game_launched.
Proof. apply reachable_clicked, reachable_idle. Qed.

(** Processes that start with identifiers other than 51 beside the
    launched game, and processes that end. *)
Lemma reachable_beside_game table l :
  (∀ p, p ∈ table → p ∈ procs game_launched ∨ OS.pid p ≠ 51) →
  reachable {| running_processes := running_processes game_launched;
               procs := table; log := l |}.
Proof.
  intros Htable. apply (reachable_world game_launched); [apply reachable_game_launched|].
  split; [done|]. intros p Hp. destruct (Htable p Hp) as [Hold|Hnew].
  - left. by exists p.
  - right. intros k r Hk. rewrite game_launched_registry in Hk.
    apply lookup_singleton_Some in Hk as [_ <-]. cbn. congruence.
Qed.

Lemma reachable_game_with_worker : reachable game_with_worker.
Proof.
  apply reachable_beside_game. intros p Hp.
  apply elem_of_app in Hp as [Hp|Hp]; [by left|right].
  apply list_elem_of_In in Hp. cbn in Hp.
  destruct Hp as [<-|[<-|[]]]; cbn; lia.
Qed.

Lemma reachable_game_exited : reachable game_exited.
Proof.
  apply reachable_beside_game. intros p Hp. left.
  apply list_elem_of_In in Hp. apply list_elem_of_In. vm_compute in Hp |- *. tauto.
Qed.





(** X4. A record whose child has ended outside the supervisor's control is
    reconciled: in a state the program comes to, the next turn of the
    prober returns and schedules [process_ended] for its stem, and that
    call, whether it returns or raises, drops the record and leaves the
    process table untouched. *)
Theorem external_death_is_reconciled E st k r child :
  reachable st →
  running_processes st !! k = Some r →
  proc r = Some child →
  poll_finished child (procs st) = true →
  ∃ events,
    monitor_cycle E st = (Ret (), logged st events) ∧
    process_ended_task k ∈ idle_tasks events ∧
    running_processes (process_ended E k (logged st events)).2
      = delete k (running_processes st) ∧
    procs (process_ended E k (logged st events)).2 = procs st.
Proof.
  intros Hreach Hk Hproc Hpoll.
  eexists. split; [apply monitor_cycle_launched, reachable_launched_here, Hreach|].
  split; [|split].
  - rewrite !idle_tasks_app, idle_tasks_process_ended.
    apply elem_of_app. right. apply elem_of_app. right.
    apply list_elem_of_fmap. exists k. split; [done|].
    apply (finished_now_elem E st k r Hk). unfold verdict. by rewrite Hproc, Hpoll.
  - by rewrite process_ended_registry.
  - by destruct (process_ended_quiet E k (logged st ([EvSleep 3] ++ probe_events st
              ++ (EvIdleAdd ∘ process_ended_task <$> finished_now E st)))) as [-> _].
Qed.

Lemma external_death_is_reconciled_witness :
  running_processes game_exited !! "game" = Some (launched_record 51 51 game_script) ∧
  ∃ events,
    monitor_cycle desktop game_exited = (Ret (), logged game_exited events) ∧
    process_ended_task "game" ∈ idle_tasks events ∧
    running_processes (process_ended desktop "game" (logged game_exited events)).2
      = delete "game" (running_processes game_exited) ∧
    procs (process_ended desktop "game" (logged game_exited events)).2 = procs game_exited.
Proof.
  split; [vm_compute; reflexivity|].
  apply (external_death_is_reconciled desktop game_exited "game"
           (launched_record 51 51 game_script) 51).
  - apply reachable_game_exited.
  - vm_compute. reflexivity.
  - reflexivity.
  - vm_compute. reflexivity.
Defined.

(** ** The toggle and the records *)

(** A map holds at most one value under a key. *)
Lemma records_for_le_1 k (reg : gmap string RunRecord) : (records_for k reg ≤ 1)%nat.
Proof.
  unfold records_for. pose proof (NoDup_fst_map_to_list reg) as Hnd.
  induction (map_to_list reg) as [|[k' r] l IH]; cbn; [lia|].
  apply NoDup_cons in Hnd as [Hnotin Hnd]. specialize (IH Hnd).
  case_bool_decide as Hk; cbn in *; [|done]. subst k'.
  assert (List.filter (λ kr : string * RunRecord, bool_decide (kr.1 = k)) l = []) as ->;
    [|cbn; lia].
  clear IH Hnd. induction l as [|[k2 r2] l IH]; [done|]. cbn.
  rewrite not_elem_of_cons in Hnotin. destruct Hnotin as [Hne Hnotin].
  cbn in Hne. rewrite bool_decide_eq_false_2 by done. by apply IH.
Qed.

Lemma filter_length_le {A} (f g : A → bool) (l : list A) :
  (∀ x, x ∈ l → f x = true → g x = true) →
  (List.length (List.filter f l) ≤ List.length (List.filter g l))%nat.
Proof.
  induction l as [|x l IH]; intros Hfg; [done|]. cbn [List.filter].
  assert (List.length (List.filter f l) ≤ List.length (List.filter g l))%nat as Hle.
  { apply IH. intros y Hy. apply Hfg. by right. }
  destruct (f x) eqn:Hf.
  - rewrite (Hfg x) by (done || by left). cbn. lia.
  - destruct (g x); cbn; lia.
Qed.

(** The records written by [launch_script] sit under the stems of their
    descriptors: a descriptor has one record at most. *)
Lemma launched_here_records_of st path :
  launched_here st →
  (List.length (records_of path (running_processes st)) ≤ 1)%nat.
Proof.
  intros Hinv. etrans; [|apply (records_for_le_1 (Pathlib.stem path) (running_processes st))].
  unfold records_of, records_for. apply filter_length_le.
  intros [k r] Hin Hscript. apply elem_of_map_to_list in Hin.
  apply bool_decide_eq_true in Hscript. apply bool_decide_eq_true. cbn in *.
  destruct (Hinv k r Hin) as (child & s & -> & -> & _). cbn in Hscript. congruence.
Qed.

Lemma reachable_toggle_sequence E clicks st :
  reachable st → reachable (toggle_sequence E clicks st).
Proof.
  revert st. induction clicks as [|c clicks IH]; intros st Hreach; [done|].
  cbn [toggle_sequence]. by apply IH, reachable_clicked.
Qed.

(** The launch of a descriptor that can be read and whose executable is
    there hands one command to [Popen]. *)
Lemma launch_script_attempt E script button d st :
  charm_file E script = Some (Ret d) →
  path_exists E (exe_file d) = true →
  let st' := (launch_script E script button st).2 in
  launches (log st') = launches (log st) ++ [launch_command d] ∧
  running_processes st' =
    match button with
    | Some _ =>
        if popen_ok E
        then <[Pathlib.stem script :=
                 launched_record (OS.fresh_pid (procs st)) (OS.fresh_pid (procs st)) script]>
               (running_processes st)
        else running_processes st
    | None => running_processes st
    end.
Proof.
  intros Hd Hexists st'. subst st'.
  destruct (popen_ok E) eqn:Hpopen.
  - destruct (launch_script_started E script button d st Hd Hexists Hpopen)
      as (trailer & -> & Htrailer & _).
    cbn [snd log running_processes]. split; [|by destruct button].
    rewrite launches_app. f_equal. apply launches_of_launch.
    destruct button; [destruct Htrailer as [->|[e ->]]|]; eauto.
  - unfold launch_script, extract_yaml_info. rewrite Hd.
    erewrite mbind_ret by apply print_run.
    erewrite mbind_ret by reflexivity. rewrite Hexists. cbn [negb].
    unfold try_except, popen. rewrite Hpopen. unfold_monad. unfold logged.
    cbn [fst snd log running_processes procs is_a].
    rewrite !launches_app. split; [|by destruct button].
    cbn. by rewrite !app_nil_r.
Qed.

(** C1. In every state the program comes to, and after any run of clicks
    from there, a descriptor has one record at most. A toggle on a
    descriptor whose stem has a record is the stop request: it starts no
    process, and the registry it leaves is the one it found without that
    record. A toggle on a descriptor whose stem has no record is the
    launch: when the descriptor can be read and its executable is there,
    one command is handed to [Popen], and the registry gets the record
    of the child under the stem when [Popen] succeeds and the call came
    with the button of the row. *)
Theorem toggle_keeps_one_record_per_stem E script button st :
  reachable st →
  (∀ clicks path,
     (List.length
        (records_of path (running_processes (toggle_sequence E clicks st))) ≤ 1)%nat) ∧
  (is_Some (running_processes st !! Pathlib.stem script) →
   let st' := (toggle_play_stop E script button st).2 in
   running_processes st' = delete (Pathlib.stem script) (running_processes st) ∧
   launches (log st') = launches (log st)) ∧
  (running_processes st !! Pathlib.stem script = None →
   ∀ d, charm_file E script = Some (Ret d) →
        path_exists E (exe_file d) = true →
   let st' := (toggle_play_stop E script button st).2 in
   launches (log st') = launches (log st) ++ [launch_command d] ∧
   running_processes st' =
     match button with
     | Some _ =>
         if popen_ok E
         then <[Pathlib.stem script :=
                  launched_record (OS.fresh_pid (procs st)) (OS.fresh_pid (procs st)) script]>
                (running_processes st)
         else running_processes st
     | None => running_processes st
     end).
Proof.
  intros Hreach. split; [|split].
  - intros clicks path.
    by apply launched_here_records_of, reachable_launched_here, reachable_toggle_sequence.
  - intros Hsome st'. subst st'. rewrite toggle_play_stop_stops by done. split.
    + erewrite mbind_ret by apply print_run.
      pose proof (terminate_script_registry E script
                    (logged st [EvPrint [Txt "Stopping script: "; Txt (Pathlib.stem script)]]))
        as Hreg.
      unfold mbind, M_bind, bind.
      destruct (terminate_script E script _) as [[[]|e] st1]; exact Hreg.
    + destruct (stop_path_harmless E script st) as (events & -> & Hev).
      by rewrite launches_app, (harmless_launches events), app_nil_r.
  - intros Hnone d Hd Hexists st'. subst st'. rewrite toggle_play_stop_launches by done.
    erewrite mbind_ret by apply print_run.
    pose proof (launch_script_attempt E script button d
                  (logged st [EvPrint [Txt "Starting script: "; Txt (Pathlib.stem script)]])
                  Hd Hexists) as [Hlaunches Hreg].
    cbn [logged log procs running_processes] in Hlaunches, Hreg.
    rewrite launches_app, app_nil_r in Hlaunches.
    unfold mbind, M_bind, bind, ui, emit.
    destruct (launch_script E script button _) as [[[]|e] st1];
      cbn [snd log running_processes] in *.
    + rewrite launches_app, app_nil_r. by split.
    + by split.
Qed.

(** C1 at work: the toggle on the running game starts nothing and drops
    the record, the toggle on the idle desktop starts the game and writes
    its one record, and after three clicks in a row the descriptor has one
    record at most. *)
Lemma toggle_keeps_one_record_per_stem_witness :
  (let st' := (toggle_play_stop desktop game_script (Some (script_button game_script))
                 game_with_worker).2 in
   running_processes st' = ∅ ∧ launches (log st') = []) ∧
  (let st' := (toggle_play_stop desktop game_script (Some (script_button game_script))
                 idle).2 in
   launches (log st') = [launch_command game_descriptor] ∧
   running_processes st' = {[ "game" := launched_record 51 51 game_script ]}) ∧
  (List.length
     (records_of game_script
        (running_processes
           (toggle_sequence desktop
              [launch_option game_script; play_button game_script; launch_option game_script]
              idle))) ≤ 1)%nat.
Proof.
  split; [|split].
  - destruct (toggle_keeps_one_record_per_stem desktop game_script
                (Some (script_button game_script)) game_with_worker
                reachable_game_with_worker) as (_ & Hstop & _).
    destruct Hstop as [Hreg Hlaunches]; [vm_compute; eauto|].
    split; [rewrite Hreg; vm_compute; reflexivity|exact Hlaunches].
  - destruct (toggle_keeps_one_record_per_stem desktop game_script
                (Some (script_button game_script)) idle reachable_idle) as (_ & _ & Hstart).
    destruct (Hstart ltac:(vm_compute; reflexivity) game_descriptor
                ltac:(vm_compute; reflexivity) ltac:(vm_compute; reflexivity))
      as [Hlaunches Hreg].
    split; [exact Hlaunches|]. rewrite Hreg. vm_compute. reflexivity.
  - apply (toggle_keeps_one_record_per_stem desktop game_script
             (Some (script_button game_script)) idle reachable_idle).
Defined.

(** C1 as stated fails: two prefixes hold a descriptor named
    [setup.charm] each. The installer of the first runs under its record;
    the second descriptor has no record. The toggle on the second
    descriptor launches nothing: it finds the record of the first under
    the common stem, drops it, and kills the installer of the first
    prefix, whose name the listing for the second executable holds as
    well. *)
Lemma toggle_on_namesake_stops_the_other :
  charm_file two_installers beta_setup_script = Some (Ret beta_setup_descriptor) ∧
  path_exists two_installers (exe_file beta_setup_descriptor) = true ∧
  records_of alpha_setup_script (running_processes alpha_setup_running) =
    [("setup", launched_record 51 51 alpha_setup_script)] ∧
  records_of beta_setup_script (running_processes alpha_setup_running) = [] ∧
  let st' := (on_clicked two_installers (launch_option beta_setup_script)
                alpha_setup_running).2 in
  launches (log st') = [] ∧
  running_processes st' = ∅ ∧
  kill_attempts (log st') = [(52, OS.SIGKILL)] ∧
  List.map OS.pid (procs st') = [1; 50; 51].
Proof. vm_compute. repeat split; reflexivity. Qed.

(** ** A launch from a play button that was reset *)

(** X23. The play button that [reset_buttons] or [process_ended] connects
    again calls the toggle with what [find_button_by_script_stem]
    returns, which is [None] on the rows of the program. The launch of a
    readable descriptor whose executable is there then starts the shell
    and fails on [button.get_first_child()]: the process runs, no record
    is written and no thread waits for the child, so nothing will
    reconcile it; the handler reports the error and returns. *)
Theorem launch_from_reset_play_button_is_not_recorded E script d st :
  Forall row_of_program (flowbox_rows E) →
  running_processes st !! Pathlib.stem script = None →
  charm_file E script = Some (Ret d) →
  path_exists E (exe_file d) = true →
  popen_ok E = true →
  let child := OS.fresh_pid (procs st) in
  on_clicked E (play_button script) st =
    (Ret (),
     {| running_processes := running_processes st;
        procs := procs st ++ [shell_process child (launch_command d)];
        log := log st ++
               [EvPrint [Txt "Starting script: "; Txt (Pathlib.stem script)];
                EvPrint [Txt "Launching script "; Txt script];
                EvPopen (launch_command d) (Ret child);
                EvPrint [Txt "Launched script with PID: "; Num child];
                EvPrint [Txt "Error launching script: "; Exc AttributeError];
                EvUi (set_play_stop_icon "media-playback-stop-symbolic" "Stop")] |}).
Proof.
  intros Hrows Hnone Hd Hexists Hpopen child. cbn [on_clicked].
  unfold lift_outcome. rewrite (find_button_by_script_stem_none _ _ Hrows).
  erewrite mbind_ret by reflexivity.
  rewrite toggle_play_stop_launches by done.
  erewrite mbind_ret by apply print_run.
  destruct (launch_script_started E script None d
              (logged st [EvPrint [Txt "Starting script: "; Txt (Pathlib.stem script)]])
              Hd Hexists Hpopen) as (trailer & Hrun & -> & _).
  erewrite mbind_ret by exact Hrun.
  unfold ui, emit. cbn. by rewrite <- !app_assoc.
Qed.

Lemma launch_from_reset_play_button_witness :
  on_clicked desktop (play_button game_script) idle =
    (Ret (),
     {| running_processes := ∅;
        procs := procs idle ++ [shell_process 51 (launch_command game_descriptor)];
        log := [EvPrint [Txt "Starting script: "; Txt "game"];
                EvPrint [Txt "Launching script "; Txt game_script];
                EvPopen (launch_command game_descriptor) (Ret 51);
                EvPrint [Txt "Launched script with PID: "; Num 51];
                EvPrint [Txt "Error launching script: "; Exc AttributeError];
                EvUi (set_play_stop_icon "media-playback-stop-symbolic" "Stop")] |}).
Proof.
  apply (launch_from_reset_play_button_is_not_recorded desktop game_script
           game_descriptor idle).
  - apply List.Forall_cons; [left; eexists; reflexivity|].
    apply List.Forall_cons; [left; eexists; reflexivity|].
    apply List.Forall_cons; [left; eexists; reflexivity|].
    apply List.Forall_nil.
  - vm_compute. reflexivity.
  - vm_compute. reflexivity.
  - vm_compute. reflexivity.
  - reflexivity.
Defined.
